(** * Tiled diffusion coordinator: a shallow embedding of
      [methods/abstractdiffusion.py] and the properties of its geometry,
      batching, region filtering, feather masks and conditioning dispatch.

    Python integers are [Z].  Python floats are IEEE-754 binary64 values,
    taken from the Standard Library's executable specification
    [SpecFloat] (precision 53, maximal exponent 1024); numpy/torch
    [float32] cells use the same specification at precision 24.  Lists
    are indexed with stdpp's lookup, dictionaries are [gmap]s, and
    exceptions are an explicit [Raise] result. *)

From Stdlib Require Import ZArith Lia Bool String.
From Stdlib Require Import Floats.SpecFloat.
From stdpp Require Import base option list gmap strings.

Local Open Scope Z_scope.

(** ** Python values, exceptions and arithmetic *)

Module Py.

Inductive exn : Type :=
| ZeroDivisionError
| OverflowError
| ValueError
| TypeError
| IndexError
| KeyError
| AttributeError
| RuntimeError
| AssertionError (msg : string).

Inductive result (A : Type) : Type :=
| Ok (a : A)
| Raise (e : exn).
Global Arguments Ok {A} a.
Global Arguments Raise {A} e.

Global Instance result_ret : MRet result := fun _ a => Ok a.
Global Instance result_bind : MBind result := fun _ _ f m =>
  match m with
  | Ok a => f a
  | Raise e => Raise e
  end.

Global Instance result_fmap : FMap result := fun _ _ f m =>
  match m with
  | Ok a => Ok (f a)
  | Raise e => Raise e
  end.

(** binary64 and binary32 *)
Definition float : Type := spec_float.
Definition prec : Z := 53.
Definition emax : Z := 1024.
Definition float32 : Type := spec_float.
Definition prec32 : Z := 24.
Definition emax32 : Z := 128.

Definition fzero : float := S754_zero false.
Definition fone : float := S754_finite false 4503599627370496 (-52).
Definition zero32 : float32 := S754_zero false.
Definition one32 : float32 := S754_finite false 8388608 (-23).

(** [float(k)] for an int [k]: round to nearest even, [OverflowError]
    when the int is too large for a double. *)
Definition float_of_int (k : Z) : result float :=
  match binary_normalize prec emax k 0 false with
  | S754_infinity _ => Raise OverflowError
  | f => Ok f
  end.

(** [a / b] on ints (true division).  CPython answers a signed zero
    for [a = 0] and otherwise the correctly rounded quotient; for
    operands up to [2^53] that is the binary64 quotient of the two
    conversions, which is what is written here. *)
Definition truediv (a b : Z) : result float :=
  if b =? 0 then Raise ZeroDivisionError
  else if a =? 0 then Ok (S754_zero (b <? 0))
  else
    fa ← float_of_int a;
    fb ← float_of_int b;
    Ok (SFdiv prec emax fa fb).

(** [k * f] with [k] an int and [f] a float. *)
Definition mul_int_float (k : Z) (f : float) : result float :=
  fk ← float_of_int k;
  Ok (SFmul prec emax fk f).

(** [f * k] with [f] a float and [k] an int. *)
Definition mul_float_int (f : float) (k : Z) : result float :=
  fk ← float_of_int k;
  Ok (SFmul prec emax f fk).

(** [f ** 2]: the correctly rounded square. *)
Definition fsquare (f : float) : float := SFmul prec emax f f.

(** [int(f)]: truncation toward zero. *)
Definition int_of_float (f : float) : result Z :=
  match f with
  | S754_zero _ => Ok 0
  | S754_finite s m e => Ok (cond_Zopp s (Z.shiftl (Z.pos m) e))
  | S754_infinity _ => Raise OverflowError
  | S754_nan => Raise ValueError
  end.

(** [math.ceil(f)]. *)
Definition ceil (f : float) : result Z :=
  match f with
  | S754_zero _ => Ok 0
  | S754_finite s m e => Ok (- Z.shiftl (- cond_Zopp s (Z.pos m)) e)
  | S754_infinity _ => Raise OverflowError
  | S754_nan => Raise ValueError
  end.

(** Mixed comparisons against the int constants 0 and 1. *)
Definition ge_one (f : float) : bool := SFleb fone f.
Definition le_zero (f : float) : bool := SFleb f fzero.
Definition lt_zero (f : float) : bool := SFltb f fzero.
Definition gt_one (f : float) : bool := SFltb fone f.

(** A Python number: an int or a float. *)
Inductive num : Type :=
| NInt (k : Z)
| NFloat (f : float).

(** [a >= 1], [a <= 0], [0 > a], [1 < a] *)
Definition num_ge_one (a : num) : bool :=
  match a with NInt k => 1 <=? k | NFloat f => ge_one f end.
Definition num_le_zero (a : num) : bool :=
  match a with NInt k => k <=? 0 | NFloat f => le_zero f end.
Definition num_lt_zero (a : num) : bool :=
  match a with NInt k => k <? 0 | NFloat f => lt_zero f end.
Definition num_gt_one (a : num) : bool :=
  match a with NInt k => 1 <? k | NFloat f => gt_one f end.

(** [a * k] and [k * a] for an int [k] *)
Definition num_mul_int (a : num) (k : Z) : result num :=
  match a with
  | NInt j => Ok (NInt (j * k))
  | NFloat f => NFloat <$> mul_float_int f k
  end.
Definition int_mul_num (k : Z) (a : num) : result num :=
  match a with
  | NInt j => Ok (NInt (k * j))
  | NFloat f => NFloat <$> mul_int_float k f
  end.

(** [int(a)] and [math.ceil(a)] *)
Definition num_int (a : num) : result Z :=
  match a with NInt k => Ok k | NFloat f => int_of_float f end.
Definition num_ceil (a : num) : result Z :=
  match a with NInt k => Ok k | NFloat f => ceil f end.

(** The values a UI control can hand over. *)
Inductive pyval : Type :=
| VBool (b : bool)
| VNum (a : num)
| VStr (s : string).

(** Truth value of [v] *)
Definition truthy (v : pyval) : bool :=
  match v with
  | VBool b => b
  | VNum (NInt k) => negb (k =? 0)
  | VNum (NFloat f) => negb (SFeqb f fzero)
  | VStr s => negb (String.eqb s "")
  end.

(** The number behind [v]; a bool counts as the int 0 or 1, a string
    in an arithmetic comparison is a [TypeError]. *)
Definition as_num (v : pyval) : result num :=
  match v with
  | VBool b => Ok (NInt (if b then 1 else 0))
  | VNum a => Ok a
  | VStr _ => Raise TypeError
  end.

(** Storing a double into a [float32] array cell. *)
Definition to_float32 (f : float) : float32 :=
  match f with
  | S754_finite s m e => binary_round prec32 emax32 s m e
  | _ => f
  end.
Definition add32 (a b : float32) : float32 := SFadd prec32 emax32 a b.

(** [range(n)] *)
Definition range (n : Z) : list Z := Z.of_nat <$> seq 0 (Z.to_nat n).

(** [range(start, stop, step)] for a positive step. *)
Definition range3 (start stop step : Z) : list Z :=
  (fun i => start + Z.of_nat i * step) <$>
    seq 0 (Z.to_nat ((stop - start + step - 1) / step)).

(** Bounds of the slice [start:stop] on a sequence of length [len]:
    negative indices count from the end, both ends are clamped. *)
Definition slice_bound (len i : Z) : Z :=
  if i <? 0 then Z.max 0 (i + len) else Z.min i len.

Definition slice {A} (l : list A) (start stop : Z) : list A :=
  let len := Z.of_nat (length l) in
  let lo := slice_bound len start in
  let hi := slice_bound len stop in
  take (Z.to_nat (hi - lo)) (drop (Z.to_nat lo) l).

(** [l[:stop]] and [l[start:]] *)
Definition slice_to {A} (l : list A) (stop : Z) : list A := slice l 0 stop.
Definition slice_from {A} (l : list A) (start : Z) : list A :=
  slice l start (Z.of_nat (length l)).

(** Position of index [i] in a sequence of length [len]. *)
Definition index (len i : Z) : result nat :=
  if (i <? - len) || (len <=? i) then Raise IndexError
  else Ok (Z.to_nat (if i <? 0 then i + len else i)).

End Py.

Import Py.


(** Loops whose body may raise. *)
Fixpoint foldM {A B : Type} (f : B → A → result B) (l : list A) (b : B)
  : result B :=
  match l with
  | [] => Ok b
  | a :: l' => b' ← f b a; foldM f l' b'
  end.

(** ** Rectangles of the latent grid *)

Module BBox.
Record t : Type := mk { x : Z; y : Z; w : Z; h : Z }.

(** [self.box = [x, y, x+w, y+h]] and [__getitem__] *)
Definition box (b : t) : list Z := [x b; y b; x b + w b; y b + h b].
Definition getitem (b : t) (i : Z) : result Z :=
  n ← index 4 i;
  match box b !! n with
  | Some v => Ok v
  | None => Raise IndexError
  end.

(** The cell [(row, col)] lies in [self.slice], on a canvas of
    [rows] by [cols] cells. *)
Definition in_slice (b : t) (rows cols row col : Z) : bool :=
  (slice_bound rows (y b) <=? row) && (row <? slice_bound rows (y b + h b)) &&
  (slice_bound cols (x b) <=? col) && (col <? slice_bound cols (x b + w b)).
End BBox.

Inductive BlendMode : Type := FOREGROUND | BACKGROUND.

(** ** Tile geometry and tile batches: [split_views] and the batching
       loop of [__init__] *)

Section Tiling.

(** The abstract method [get_global_weights]: the weight a tile adds
    at its cell [(row, col)], counted from the tile's corner. *)
Variable get_global_weights : Z → Z → float32.

(** [torch.zeros((1, 1, h, w))]; the two leading axes have size one
    and are left out. *)
Definition torch_zeros (h w : Z) : result (list (list float32)) :=
  if (h <? 0) || (w <? 0) then Raise RuntimeError
  else Ok (replicate (Z.to_nat h) (replicate (Z.to_nat w) zero32)).

(** [count[bbox.slice] += self.get_global_weights()] *)
Definition add_weights (count : list (list float32)) (b : BBox.t)
  : list (list float32) :=
  let rows := Z.of_nat (length count) in
  imap (fun r row =>
    let cols := Z.of_nat (length row) in
    imap (fun c v =>
      if BBox.in_slice b rows cols (Z.of_nat r) (Z.of_nat c)
      then add32 v (get_global_weights
                      (Z.of_nat r - slice_bound rows (BBox.y b))
                      (Z.of_nat c - slice_bound cols (BBox.x b)))
      else v) row) count.

Definition split_views (self_w self_h tile_w tile_h overlap : Z)
  : result (list BBox.t * list (list float32)) :=
  let non_overlap_width := tile_w - overlap in
  let non_overlap_height := tile_h - overlap in
  let w := self_w in
  let h := self_h in
  qc ← truediv (w - overlap) non_overlap_width;
  cols ← ceil qc;
  qr ← truediv (h - overlap) non_overlap_height;
  rows ← ceil qr;
  dx ← (if 1 <? cols then truediv (w - tile_w) (cols - 1) else Ok fzero);
  dy ← (if 1 <? rows then truediv (h - tile_h) (rows - 1) else Ok fzero);
  count ← torch_zeros h w;
  foldM (fun acc row =>
    py ← mul_int_float row dy;
    y ← int_of_float py;
    let y := if h <=? y + tile_h then h - tile_h else y in
    foldM (fun '(bbox_list, count) col =>
      px ← mul_int_float col dx;
      x ← int_of_float px;
      let x := if w <=? x + tile_w then w - tile_w else x in
      let bbox := BBox.mk x y tile_w tile_h in
      Ok (bbox_list ++ [bbox], add_weights count bbox))
      (range cols) acc)
    (range rows) ([], count).

(** The batching loop at the end of [__init__]: the number of
    batches, the value stored in [self.tile_batch_size], and
    [self.batched_bboxes]. *)
Definition batch_bboxes (bboxes : list BBox.t) (tile_batch_size : Z)
  : result (Z * Z * list (list BBox.t)) :=
  let len := Z.of_nat (length bboxes) in
  q ← truediv len tile_batch_size;
  num_batches ← ceil q;
  q' ← truediv len num_batches;
  optimal_batch_size ← ceil q';
  Ok (num_batches, optimal_batch_size,
      (fun i =>
         let start := i * tile_batch_size in
         let end_ := Z.min ((i + 1) * tile_batch_size) len in
         slice bboxes start end_) <$> range num_batches).

End Tiling.

(** ** Regions: [CustomBBox] and its feather mask *)

(** [np.ones((h, w), dtype=np.float32)]: numpy refuses a negative
    dimension and an array whose size in bytes does not fit a signed
    64-bit integer. *)
Definition np_ones (h w : Z) : result (list (list float32)) :=
  if (h <? 0) || (w <? 0) || (2 ^ 63 <=? h * w * 4) then Raise ValueError
  else Ok (replicate (Z.to_nat h) (replicate (Z.to_nat w) one32)).

(** [mask[i, j] = v] *)
Definition np_setitem (mask : list (list float32)) (i j : Z) (v : float32)
  : result (list (list float32)) :=
  r ← index (Z.of_nat (length mask)) i;
  match mask !! r with
  | None => Raise IndexError
  | Some row =>
      c ← index (Z.of_nat (length row)) j;
      Ok (<[r := <[c := v]> row]> mask)
  end.

(** [int(min(w//2, h//2) * self.feather_ratio)] *)
Definition feather_radius_of (w h : Z) (feather_ratio : num) : result Z :=
  p ← int_mul_num (Z.min (w / 2) (h / 2)) feather_ratio;
  num_int p.

(** The body of the two loops of [generate_feather_mask] at [(i, j)]. *)
Definition feather_cell (w h feather_radius : Z)
    (mask : list (list float32)) (i j : Z) : result (list (list float32)) :=
  let dist := Z.min i j in
  if feather_radius <=? dist then Ok mask
  else
    q ← truediv dist feather_radius;
    let weight := to_float32 (fsquare q) in
    mask ← np_setitem mask i j weight;
    mask ← np_setitem mask i (w - j - 1) weight;
    mask ← np_setitem mask (h - i - 1) j weight;
    np_setitem mask (h - i - 1) (w - j - 1) weight.

Definition feather_loops (w h feather_radius : Z)
    (mask : list (list float32)) : result (list (list float32)) :=
  foldM (fun mask i =>
    foldM (fun mask j => feather_cell w h feather_radius mask i j)
      (range (w / 2)) mask)
    (range (h / 2)) mask.

Definition generate_feather_mask (w h : Z) (feather_ratio : num)
  : result (list (list float32)) :=
  mask ← np_ones h w;
  feather_radius ← feather_radius_of w h feather_ratio;
  feather_loops w h feather_radius mask.

Module CustomBBox.
(** The fields [prompt], [neg_prompt] and [extra_network_data] start
    as [None] and are only filled by [prepare_prompt] from the
    external prompt encoder; they are not part of this record.
    [feather_mask] exists only for a foreground region. *)
Record t : Type := mk {
  bbox : BBox.t;
  prompt_cache : pyval;
  neg_prompt_cache : pyval;
  blend_mode : BlendMode;
  feather_ratio : num;
  feather_mask : option (list (list float32));
}.

(** [max(min(feather_radio, 1), 0)] *)
Definition clamp_ratio (feather_radio : num) : num :=
  let m := if num_gt_one feather_radio then NInt 1 else feather_radio in
  if num_lt_zero m then NInt 0 else m.

Definition init (x y w h : Z) (prompt neg_prompt : pyval)
    (blend_mode : BlendMode) (feather_radio : num) : result t :=
  let feather_ratio := clamp_ratio feather_radio in
  match blend_mode with
  | FOREGROUND =>
      m ← generate_feather_mask w h feather_ratio;
      Ok (mk (BBox.mk x y w h) prompt neg_prompt blend_mode
             feather_ratio (Some m))
  | BACKGROUND =>
      Ok (mk (BBox.mk x y w h) prompt neg_prompt blend_mode
             feather_ratio None)
  end.
End CustomBBox.

(** [BlendMode(value)] *)
Definition BlendMode_of (v : pyval) : result BlendMode :=
  match v with
  | VStr s =>
      if String.eqb s "Foreground" then Ok FOREGROUND
      else if String.eqb s "Background" then Ok BACKGROUND
      else Raise ValueError
  | _ => Raise ValueError
  end.

(** ** The coordinator object *)

Module Self.
(** The attributes of a [TiledDiffusion] object that the constructor,
    [init_custom_bbox] and [init] write.  An attribute that does not
    exist yet is [None].  [x_buffer] is a zero tensor and is kept as
    its shape.  The ControlNet hint cache is the external control
    network's business and is left out. *)
Record t : Type := mk {
  is_kdiff : bool;
  method : string;
  batch_size : Z;
  steps : Z;
  causal_layers : bool;
  w : Z;
  h : Z;
  tile_w : Z;
  tile_h : Z;
  batched_bboxes : list (list BBox.t);
  x_buffer : option (list Z);
  custom_bboxes : list CustomBBox.t;
  draw_background : bool;
  pbar : option Z;
  step_count : Z;
  inner_loop_count : Z;
  kdiff_step : Z;
  weights : list (list float32);
  num_batches : Z;
  tile_batch_size : Z;
  is_edit_model : option bool;
  total_bboxes : option Z;
}.

Definition set_custom_bboxes (v : list CustomBBox.t) (s : t) : t :=
  mk (is_kdiff s) (method s) (batch_size s) (steps s) (causal_layers s)
     (w s) (h s) (tile_w s) (tile_h s) (batched_bboxes s) (x_buffer s)
     v (draw_background s) (pbar s) (step_count s) (inner_loop_count s)
     (kdiff_step s) (weights s) (num_batches s) (tile_batch_size s)
     (is_edit_model s) (total_bboxes s).

Definition set_draw_background (v : bool) (s : t) : t :=
  mk (is_kdiff s) (method s) (batch_size s) (steps s) (causal_layers s)
     (w s) (h s) (tile_w s) (tile_h s) (batched_bboxes s) (x_buffer s)
     (custom_bboxes s) v (pbar s) (step_count s) (inner_loop_count s)
     (kdiff_step s) (weights s) (num_batches s) (tile_batch_size s)
     (is_edit_model s) (total_bboxes s).

Definition set_weights (v : list (list float32)) (s : t) : t :=
  mk (is_kdiff s) (method s) (batch_size s) (steps s) (causal_layers s)
     (w s) (h s) (tile_w s) (tile_h s) (batched_bboxes s) (x_buffer s)
     (custom_bboxes s) (draw_background s) (pbar s) (step_count s)
     (inner_loop_count s) (kdiff_step s) v (num_batches s)
     (tile_batch_size s) (is_edit_model s) (total_bboxes s).

Definition set_is_edit_model (v : option bool) (s : t) : t :=
  mk (is_kdiff s) (method s) (batch_size s) (steps s) (causal_layers s)
     (w s) (h s) (tile_w s) (tile_h s) (batched_bboxes s) (x_buffer s)
     (custom_bboxes s) (draw_background s) (pbar s) (step_count s)
     (inner_loop_count s) (kdiff_step s) (weights s) (num_batches s)
     (tile_batch_size s) v (total_bboxes s).

Definition set_total_bboxes (v : option Z) (s : t) : t :=
  mk (is_kdiff s) (method s) (batch_size s) (steps s) (causal_layers s)
     (w s) (h s) (tile_w s) (tile_h s) (batched_bboxes s) (x_buffer s)
     (custom_bboxes s) (draw_background s) (pbar s) (step_count s)
     (inner_loop_count s) (kdiff_step s) (weights s) (num_batches s)
     (tile_batch_size s) (is_edit_model s) v.

Definition set_pbar (v : option Z) (s : t) : t :=
  mk (is_kdiff s) (method s) (batch_size s) (steps s) (causal_layers s)
     (w s) (h s) (tile_w s) (tile_h s) (batched_bboxes s) (x_buffer s)
     (custom_bboxes s) (draw_background s) v (step_count s)
     (inner_loop_count s) (kdiff_step s) (weights s) (num_batches s)
     (tile_batch_size s) (is_edit_model s) (total_bboxes s).

Definition set_kdiff_step (v : Z) (s : t) : t :=
  mk (is_kdiff s) (method s) (batch_size s) (steps s) (causal_layers s)
     (w s) (h s) (tile_w s) (tile_h s) (batched_bboxes s) (x_buffer s)
     (custom_bboxes s) (draw_background s) (pbar s) (step_count s)
     (inner_loop_count s) v (weights s) (num_batches s)
     (tile_batch_size s) (is_edit_model s) (total_bboxes s).

Definition set_x_buffer (v : option (list Z)) (s : t) : t :=
  mk (is_kdiff s) (method s) (batch_size s) (steps s) (causal_layers s)
     (w s) (h s) (tile_w s) (tile_h s) (batched_bboxes s) v
     (custom_bboxes s) (draw_background s) (pbar s) (step_count s)
     (inner_loop_count s) (kdiff_step s) (weights s) (num_batches s)
     (tile_batch_size s) (is_edit_model s) (total_bboxes s).
End Self.

Section Coordinator.

Variable get_global_weights : Z → Z → float32.

(** [TiledDiffusion.__init__].  [sampler_name], [p_width],
    [p_height], [p_batch_size] and [p_steps] are the fields read from
    the processing object [p]. *)
Definition TiledDiffusion_init (method sampler_name : string)
    (p_width p_height p_batch_size p_steps : Z)
    (tile_w tile_h overlap tile_batch_size : Z) (causal_layers : bool)
  : result Self.t :=
  let is_kdiff :=
    negb (bool_decide (sampler_name ∈ ["DDIM"; "PLMS"; "UniPC"]%string)) in
  let w := p_width / 8 in
  let h := p_height / 8 in
  let tile_w := if w <? tile_w then w else tile_w in
  let tile_h := if h <? tile_h then h else tile_h in
  let min_tile_size := Z.min tile_w tile_h in
  let overlap :=
    if min_tile_size <=? overlap then min_tile_size - 4 else overlap in
  let overlap := if overlap <? 0 then 0 else overlap in
  '(bboxes, weights) ← split_views get_global_weights w h tile_w tile_h overlap;
  '(num_batches, optimal_batch_size, batched_bboxes) ←
    batch_bboxes bboxes tile_batch_size;
  Ok (Self.mk is_kdiff method p_batch_size p_steps causal_layers
        w h tile_w tile_h batched_bboxes None [] true None 0 0 (-1)
        weights num_batches optimal_batch_size None None).

End Coordinator.

(** One region tuple of [init_custom_bbox]: the nine values of
    [bbox_control_states[i:i+9]]. *)
Definition region_of_controls (self_w self_h : Z) (vals : list pyval)
  : result (option CustomBBox.t) :=
  match vals with
  | [enable; x; y; w; h; p; neg; blend_mode; feather_ratio] =>
      (* [not enable or x >= 1 or y >= 1 or w <= 0 or h <= 0] *)
      if negb (truthy enable) then Ok None else
      x ← as_num x;
      if num_ge_one x then Ok None else
      y ← as_num y;
      if num_ge_one y then Ok None else
      w ← as_num w;
      if num_le_zero w then Ok None else
      h ← as_num h;
      if num_le_zero h then Ok None else
      x ← num_mul_int x self_w ≫= num_int;
      y ← num_mul_int y self_h ≫= num_int;
      w ← num_mul_int w self_w ≫= num_ceil;
      h ← num_mul_int h self_h ≫= num_ceil;
      let x := Z.max 0 x in
      let y := Z.max 0 y in
      let w := Z.min (self_w - x) w in
      let h := Z.min (self_h - y) h in
      mode ← BlendMode_of blend_mode;
      ratio ← as_num feather_ratio;
      Some <$> CustomBBox.init x y w h p neg mode ratio
  | _ => Raise ValueError
  end.

(** The loop of [init_custom_bbox]; the list built so far survives an
    exception, as [self.custom_bboxes] does. *)
Fixpoint custom_bbox_loop (self_w self_h : Z) (states : list pyval)
    (starts : list Z) (acc : list CustomBBox.t)
  : list CustomBBox.t * result unit :=
  match starts with
  | [] => (acc, Ok tt)
  | i :: starts' =>
      match region_of_controls self_w self_h (slice states i (i + 9)) with
      | Raise e => (acc, Raise e)
      | Ok None => custom_bbox_loop self_w self_h states starts' acc
      | Ok (Some bbox_obj) =>
          custom_bbox_loop self_w self_h states starts' (acc ++ [bbox_obj])
      end
  end.

(** [init_custom_bbox]: the object after the call and how the call
    ended. *)
Definition init_custom_bbox (self : Self.t) (draw_background : bool)
    (bbox_control_states : list pyval) : Self.t * result unit :=
  let len := Z.of_nat (length bbox_control_states) in
  let '(boxes, r) :=
    custom_bbox_loop (Self.w self) (Self.h self) bbox_control_states
      (range3 0 (len - 9) 9) [] in
  let self := Self.set_custom_bboxes boxes self in
  match r with
  | Raise e => (self, Raise e)
  | Ok _ =>
      if Z.of_nat (length (Self.custom_bboxes self)) =? 0 then (self, Ok tt)
      else
        let self := Self.set_draw_background draw_background self in
        if negb draw_background
        then (Self.set_weights (fmap (M := list) (fun _ => zero32) <$> Self.weights self) self, Ok tt)
        else (self, Ok tt)
  end.

(** [init], up to the call of [prepare_control_tensors].
    [edit_model] is the value of the test on the external model and
    sampler ([cond_stage_key == "edit"] with an image scale that is
    neither [None] nor 1.0), [sampling_steps] is [state.sampling_steps],
    [x_in_shape] the shape of [x_in].  A buffer that exists is zeroed
    in place and keeps its shape. *)
Definition init (self : Self.t) (edit_model : bool) (sampling_steps : Z)
    (x_in_shape : list Z) : Self.t * result unit :=
  let self :=
    if Self.is_kdiff self && negb (bool_decide (is_Some (Self.is_edit_model self)))
    then Self.set_is_edit_model (Some edit_model) self else self in
  let '(self, r) :=
    match Self.pbar self with
    | None =>
        let total :=
          (if Self.draw_background self then Self.num_batches self else 0)
          + Z.of_nat (length (Self.custom_bboxes self)) in
        let self := Self.set_total_bboxes (Some total) self in
        if 0 <? total
        then (Self.set_pbar (Some (total * sampling_steps)) self, Ok tt)
        else (self, Raise (AssertionError
          "No region to sample! no background to draw and no custom bboxes were provided."))
    | Some _ => (self, Ok tt)
    end in
  match r with
  | Raise e => (self, Raise e)
  | Ok _ =>
      match Self.x_buffer self with
      | None => (Self.set_x_buffer (Some x_in_shape) self, Ok tt)
      | Some _ => (self, Ok tt)
      end
  end.

(** ** Conditioning dispatch: [reconstruct_custom_cond],
       [kdiff_custom_forward] and [ddim_custom_forward] *)

(** The collaborators the coordinator borrows.  Tensors are torch's;
    what the coordinator does with them is slicing and concatenation
    along the batch and token axes.  A conditioning tensor [[B, L, D]]
    is a list (batch) of lists (tokens) of embedding vectors [Vec]; a
    latent batch is a list of [Latent]s, a sigma or timestep batch a
    list of [Sigma]s.  The spatial image conditioning [[B, C, H, W]]
    stays abstract, with the three operations used on it.  The two
    [reconstruct_] functions are the external prompt parser's. *)
Class Externals : Type := {
  Vec : Type;
  Latent : Type;
  Sigma : Type;
  Img : Type;
  zeros_like : Latent → Latent;
  img_shape2 : Img → Z;
  img_shape3 : Img → Z;
  (** [img[:, :, y0:y1, x0:x1]] *)
  img_crop : Img → Z → Z → Z → Z → Img;
  (** [img[a:b]] *)
  img_batch : Img → Z → Z → Img;
  MulticondLearnedConditioning : Type;
  LearnedConditioning : Type;
  reconstruct_multicond_batch :
    MulticondLearnedConditioning → Z → list (list (Z * float)) * list (list Vec);
  reconstruct_cond_batch : LearnedConditioning → Z → list (list Vec);
}.

Section Dispatch.

Context `{Externals}.

Definition Tensor3 : Type := list (list Vec).
Definition shape0 (t : Tensor3) : Z := Z.of_nat (length t).
Definition shape1 (t : Tensor3) : Z :=
  match t with
  | [] => 0
  | r :: _ => Z.of_nat (length r)
  end.

(** [org_cond]: a dict with its first [c_concat] entry, or a bare
    tensor. *)
Inductive OrgCond : Type :=
| CondDict (c_concat0 : Img)
| CondTensor.

(** The arguments of one call of the external noise predictor, for
    the two sampler families. *)
Record KdiffCall : Type := mkKdiffCall {
  k_x : list Latent;
  k_sigma : list Sigma;
  k_c_crossattn : list Tensor3;
  k_c_concat : list (option Img);
}.

Inductive CondArg : Type :=
| Bare (t : Tensor3)
| Dict (c_concat : list Img) (c_crossattn : list Tensor3).

Record DdimCall : Type := mkDdimCall {
  d_x : list Latent;
  d_cond : CondArg;
  d_ts : list Sigma;
  d_unconditional_conditioning : CondArg;
}.

(** What the coordinator does to its collaborators, in order. *)
Inductive Event : Type :=
| SetControlTensor (bbox_id repeat_size : Z)
| KdiffForward (c : KdiffCall)
| DdimForward (c : DdimCall).

(** The per-step attributes that [kdiff_custom_forward] creates. *)
Record KdiffAttrs : Type := mkKdiffAttrs {
  kdiff_step_bbox : option (list Z);
  tensor : option (gmap Z Tensor3);
  uncond : option (gmap Z Tensor3);
  image_cond_in : option (gmap Z (option Img));
  real_tensor : option Tensor3;
  real_uncond : option Tensor3;
  a : option (list Z);
}.

Definition no_attrs : KdiffAttrs :=
  mkKdiffAttrs None None None None None None None.

(** The coordinator together with what it reads from outside:
    [self.sampler.step], [shared.batch_cond_uncond], the whole-canvas
    conditionings of [refresh_prompt], and the trace of events. *)
Record State : Type := mkState {
  self : Self.t;
  attrs : KdiffAttrs;
  all_pos_cond : option MulticondLearnedConditioning;
  all_neg_cond : option LearnedConditioning;
  sampler_step : Z;
  batch_cond_uncond : bool;
  events : list Event;
}.

Definition M (A : Type) : Type := State → State * result A.

Global Instance M_ret : MRet M := fun _ v st => (st, Ok v).
Global Instance M_bind : MBind M := fun _ _ f m st =>
  match m st with
  | (st', Ok v) => f v st'
  | (st', Raise e) => (st', Raise e)
  end.

Definition get : M State := fun st => (st, Ok st).
Definition raise {A} (e : exn) : M A := fun st => (st, Raise e).
Definition lift {A} (r : result A) : M A := fun st => (st, r).
Definition modify (f : State → State) : M unit := fun st => (f st, Ok tt).
Definition attr {A} (o : option A) : M A :=
  match o with
  | Some v => mret v
  | None => raise AttributeError
  end.
Definition emit (e : Event) : M unit :=
  modify (fun st => mkState (self st) (attrs st) (all_pos_cond st)
    (all_neg_cond st) (sampler_step st) (batch_cond_uncond st)
    (events st ++ [e])).
Definition set_self (f : Self.t → Self.t) : M unit :=
  modify (fun st => mkState (f (self st)) (attrs st) (all_pos_cond st)
    (all_neg_cond st) (sampler_step st) (batch_cond_uncond st) (events st)).
Definition set_attrs (f : KdiffAttrs → KdiffAttrs) : M unit :=
  modify (fun st => mkState (self st) (f (attrs st)) (all_pos_cond st)
    (all_neg_cond st) (sampler_step st) (batch_cond_uncond st) (events st)).

(** [l[i]] and [d[k]] *)
Definition list_get {A} (l : list A) (i : Z) : M A :=
  n ← lift (index (Z.of_nat (length l)) i);
  match l !! n with
  | Some v => mret v
  | None => raise IndexError
  end.
Definition list_set {A} (l : list A) (i : Z) (v : A) : M (list A) :=
  n ← lift (index (Z.of_nat (length l)) i);
  mret (<[n := v]> l).
Definition dict_get {A} (d : gmap Z A) (k : Z) : M A :=
  match d !! k with
  | Some v => mret v
  | None => raise KeyError
  end.

(** [set_control_tensor]: the request to put region [bbox_id]'s hint,
    repeated [repeat_size] times, into the control network. *)
Definition set_control_tensor (bbox_id repeat_size : Z) : M unit :=
  emit (SetControlTensor bbox_id repeat_size).

Definition reconstruct_custom_cond (org_cond : OrgCond)
    (custom_cond : MulticondLearnedConditioning)
    (custom_uncond : LearnedConditioning) (bbox : CustomBBox.t)
  : M (list (list (Z * float)) * Tensor3 * Tensor3 * option Img) :=
  st ← get;
  image_conditioning ←
    match org_cond with
    | CondDict image_cond =>
        if (img_shape2 image_cond =? Self.h (self st))
           && (img_shape3 image_cond =? Self.w (self st))
        then
          b0 ← lift (BBox.getitem (CustomBBox.bbox bbox) 0);
          b1 ← lift (BBox.getitem (CustomBBox.bbox bbox) 1);
          b2 ← lift (BBox.getitem (CustomBBox.bbox bbox) 2);
          b3 ← lift (BBox.getitem (CustomBBox.bbox bbox) 3);
          mret (Some (img_crop image_cond b1 b3 b0 b2))
        else mret (Some image_cond)
    | CondTensor => mret None
    end;
  let '(conds_list, tensor) :=
    reconstruct_multicond_batch custom_cond (sampler_step st) in
  let custom_uncond := reconstruct_cond_batch custom_uncond (sampler_step st) in
  mret (conds_list, tensor, custom_uncond, image_conditioning).

(** [x_out[lo:hi] = v]: the shapes must agree, up to broadcasting a
    batch of one. *)
Definition slice_assign (x_out : list Latent) (lo hi : Z) (v : list Latent)
  : M (list Latent) :=
  let len := Z.of_nat (length x_out) in
  let lo := slice_bound len lo in
  let hi := Z.max lo (slice_bound len hi) in
  let n := Z.to_nat (hi - lo) in
  match v with
  | [v1] =>
      mret (take (Z.to_nat lo) x_out ++ replicate n v1 ++ drop (Z.to_nat hi) x_out)
  | _ =>
      if bool_decide (length v = n)
      then mret (take (Z.to_nat lo) x_out ++ v ++ drop (Z.to_nat hi) x_out)
      else raise RuntimeError
  end.

(** [img[a:b]] on the optional image conditioning *)
Definition img_slice (img : option Img) (lo hi : Z) : M (option Img) :=
  match img with
  | Some i => mret (Some (img_batch i lo hi))
  | None => raise TypeError
  end.

Section Kdiff.
Variable forward_func : KdiffCall → result (list Latent).

Definition call_forward (c : KdiffCall) : M (list Latent) :=
  _ ← emit (KdiffForward c);
  lift (forward_func c).

(** Lines 269-279: the step-boundary reset. *)
Definition kdiff_step_reset : M unit :=
  st ← get;
  if Self.kdiff_step (self st) =? sampler_step st then mret tt
  else
    let n := length (Self.custom_bboxes (self st)) in
    _ ← set_self (Self.set_kdiff_step (sampler_step st));
    _ ← set_attrs (fun k => mkKdiffAttrs (Some (replicate n (-1)))
           (Some ∅) (Some ∅) (Some ∅)
           (real_tensor k) (real_uncond k) (a k));
    pos ← attr (all_pos_cond st);
    let real_t := snd (reconstruct_multicond_batch pos (sampler_step st)) in
    _ ← set_attrs (fun k => mkKdiffAttrs (kdiff_step_bbox k) (tensor k)
           (uncond k) (image_cond_in k) (Some real_t) (real_uncond k) (a k));
    neg ← attr (all_neg_cond st);
    let real_u := reconstruct_cond_batch neg (sampler_step st) in
    _ ← set_attrs (fun k => mkKdiffAttrs (kdiff_step_bbox k) (tensor k)
           (uncond k) (image_cond_in k) (real_tensor k) (Some real_u) (a k));
    set_attrs (fun k => mkKdiffAttrs (kdiff_step_bbox k) (tensor k)
           (uncond k) (image_cond_in k) (real_tensor k) (real_uncond k)
           (Some (replicate n 0))).

(** Lines 281-327: the first call for region [bbox_id] in a step.
    [Some out] is the value returned from inside the block, [None]
    means that control falls through to the replay below. *)
Definition kdiff_first_touch (x_tile : list Latent) (original_cond : OrgCond)
    (custom_cond : MulticondLearnedConditioning)
    (uncond_arg : LearnedConditioning) (bbox_id : Z) (bbox : CustomBBox.t)
    (sigma_in : list Sigma) : M (option (list Latent)) :=
  st ← get;
  markers ← attr (kdiff_step_bbox (attrs st));
  marker ← list_get markers bbox_id;
  if marker =? sampler_step st then mret None
  else
    markers' ← list_set markers bbox_id (sampler_step st);
    _ ← set_attrs (fun k => mkKdiffAttrs (Some markers') (tensor k)
           (uncond k) (image_cond_in k) (real_tensor k) (real_uncond k) (a k));
    '(_, tensor_, uncond_, img) ←
      reconstruct_custom_cond original_cond custom_cond uncond_arg bbox;
    real_t ← attr (real_tensor (attrs st));
    real_u ← attr (real_uncond (attrs st));
    if shape1 real_t =? shape1 real_u then
      if (shape1 tensor_ =? shape1 uncond_) && batch_cond_uncond st then
        em ← attr (Self.is_edit_model (self st));
        let cond :=
          if negb em then tensor_ ++ uncond_
          else tensor_ ++ uncond_ ++ uncond_ in
        _ ← set_control_tensor bbox_id (Z.of_nat (length x_tile));
        x_out ← call_forward (mkKdiffCall x_tile sigma_in [cond] [img]);
        mret (Some x_out)
      else
        let x_out := zeros_like <$> x_tile in
        let cond_size := shape0 tensor_ in
        _ ← set_control_tensor bbox_id cond_size;
        img_c ← img_slice img 0 cond_size;
        cond_out ← call_forward
          (mkKdiffCall (slice_to x_tile cond_size)
             (slice_to sigma_in cond_size) [tensor_] [img_c]);
        let uncond_size := shape0 uncond_ in
        _ ← set_control_tensor bbox_id uncond_size;
        img_u ← img_slice img cond_size (cond_size + uncond_size);
        uncond_out ← call_forward
          (mkKdiffCall (slice x_tile cond_size (cond_size + uncond_size))
             (slice sigma_in cond_size (cond_size + uncond_size))
             [uncond_] [img_u]);
        x_out ← slice_assign x_out 0 cond_size cond_out;
        x_out ← slice_assign x_out cond_size (cond_size + uncond_size)
                  uncond_out;
        em ← attr (Self.is_edit_model (self st));
        x_out ← (if em : bool
                 then slice_assign x_out (cond_size + uncond_size)
                        (Z.of_nat (length x_out)) uncond_out
                 else mret x_out);
        mret (Some x_out)
    else
      tensors ← attr (tensor (attrs st));
      _ ← set_attrs (fun k => mkKdiffAttrs (kdiff_step_bbox k)
             (Some (<[bbox_id := tensor_]> tensors))
             (uncond k) (image_cond_in k) (real_tensor k) (real_uncond k) (a k));
      unconds ← attr (uncond (attrs st));
      _ ← set_attrs (fun k => mkKdiffAttrs (kdiff_step_bbox k) (tensor k)
             (Some (<[bbox_id := uncond_]> unconds))
             (image_cond_in k) (real_tensor k) (real_uncond k) (a k));
      imgs ← attr (image_cond_in (attrs st));
      _ ← set_attrs (fun k => mkKdiffAttrs (kdiff_step_bbox k) (tensor k)
             (uncond k) (Some (<[bbox_id := img]> imgs))
             (real_tensor k) (real_uncond k) (a k));
      mret None.

(** Lines 329-362: replay of the cached conditioning of region
    [bbox_id], one slice per call. *)
Definition kdiff_replay (x_tile : list Latent) (bbox_id : Z)
    (sigma_in : list Sigma) : M (list Latent) :=
  st ← get;
  tensors ← attr (tensor (attrs st));
  tensor_ ← dict_get tensors bbox_id;
  unconds ← attr (uncond (attrs st));
  uncond_ ← dict_get unconds bbox_id;
  let batch_size := Z.of_nat (length x_tile) in
  cursors ← attr (a (attrs st));
  a_ ← list_get cursors bbox_id;
  let b_ := a_ + batch_size in
  cursors' ← list_set cursors bbox_id (a_ + batch_size);
  _ ← set_attrs (fun k => mkKdiffAttrs (kdiff_step_bbox k) (tensor k)
         (uncond k) (image_cond_in k) (real_tensor k) (real_uncond k)
         (Some cursors'));
  if a_ <? shape0 tensor_ then
    em ← attr (Self.is_edit_model (self st));
    (* the edit-model branch calls [torch.cat([tensor[a:b]], uncond)],
       whose second argument has to be an int *)
    c_crossattn ←
      (if negb em then mret [slice tensor_ a_ b_] else raise TypeError);
    _ ← set_control_tensor bbox_id (Z.of_nat (length x_tile));
    imgs ← attr (image_cond_in (attrs st));
    img ← dict_get imgs bbox_id;
    call_forward (mkKdiffCall x_tile sigma_in c_crossattn [img])
  else
    _ ← set_control_tensor bbox_id (shape0 uncond_);
    imgs ← attr (image_cond_in (attrs st));
    img ← dict_get imgs bbox_id;
    call_forward (mkKdiffCall x_tile sigma_in [uncond_] [img]).

Definition kdiff_custom_forward (x_tile : list Latent)
    (original_cond : OrgCond) (custom_cond : MulticondLearnedConditioning)
    (uncond_arg : LearnedConditioning) (bbox_id : Z) (bbox : CustomBBox.t)
    (sigma_in : list Sigma) : M (list Latent) :=
  _ ← kdiff_step_reset;
  early ← kdiff_first_touch x_tile original_cond custom_cond uncond_arg
            bbox_id bbox sigma_in;
  match early with
  | Some x_out => mret x_out
  | None => kdiff_replay x_tile bbox_id sigma_in
  end.

End Kdiff.

Section Ddim.
Variable Out : Type.
Variable forward_func : DdimCall → result Out.

(** [uncond[:, -1:]] repeated [n] times along the token axis and
    stacked behind [uncond]. *)
Definition pad_uncond (uncond_ : Tensor3) (n : Z) : Tensor3 :=
  let last_vector := (fun r => slice_from r (-1)) <$> uncond_ in
  let last_vector_repeated :=
    (fun r => concat (replicate (Z.to_nat n) r)) <$> last_vector in
  zip_with app uncond_ last_vector_repeated.

Definition ddim_custom_forward (x : list Latent) (cond_in : OrgCond)
    (cond : MulticondLearnedConditioning) (uncond_arg : LearnedConditioning)
    (bbox : CustomBBox.t) (ts : list Sigma) : M Out :=
  '(conds_list, tensor_, uncond_, image_conditioning) ←
    reconstruct_custom_cond cond_in cond uncond_arg bbox;
  if negb (forallb (fun conds => Z.of_nat (length conds) =? 1) conds_list)
  then raise (AssertionError
         "composition via AND is not supported for DDIM/PLMS samplers")
  else
    let cond := tensor_ in
    let uncond_ :=
      if shape1 uncond_ <? shape1 cond
      then pad_uncond uncond_ (shape1 cond - shape1 uncond_)
      else if shape1 cond <? shape1 uncond_
      then (fun r => slice_to r (shape1 cond)) <$> uncond_
      else uncond_ in
    let '(cond_arg, uncond_arg) :=
      match image_conditioning with
      | Some img => (Dict [img] [cond], Dict [img] [uncond_])
      | None => (Bare cond, Bare uncond_)
      end in
    _ ← emit (DdimForward (mkDdimCall x cond_arg ts uncond_arg));
    lift (forward_func (mkDdimCall x cond_arg ts uncond_arg)).

End Ddim.

End Dispatch.

(** *** Callers *)

Section Callers.

Context `{Externals}.

(** The sampler's inner loop for one region while [sampler.step] stays
    put: one [kdiff_custom_forward] per latent batch, each with the
    same conditioning objects.  A call that raises ends the loop. *)
Fixpoint kdiff_calls (forward_func : KdiffCall → result (list Latent))
    (original_cond : OrgCond) (custom_cond : MulticondLearnedConditioning)
    (uncond_arg : LearnedConditioning) (bbox_id : Z) (bbox : CustomBBox.t)
    (batches : list (list Latent * list Sigma)) : M (list (list Latent)) :=
  match batches with
  | [] => mret []
  | (x_tile, sigma_in) :: rest =>
      out ← kdiff_custom_forward forward_func x_tile original_cond
              custom_cond uncond_arg bbox_id bbox sigma_in;
      outs ← kdiff_calls forward_func original_cond custom_cond uncond_arg
               bbox_id bbox rest;
      mret (out :: outs)
  end.

(** The external sampler moves on to step [step]. *)
Definition sampler_advance (step : Z) (st : State) : State :=
  mkState (self st) (attrs st) (all_pos_cond st) (all_neg_cond st)
    step (batch_cond_uncond st) (events st).

(** The cross-attention conditionings handed to the noise predictor,
    call by call. *)
Definition forwarded (evs : list Event) : list (list Tensor3) :=
  omap (fun e =>
    match e with
    | KdiffForward c => Some (k_c_crossattn c)
    | _ => None
    end) evs.

(** The calls of the noise predictor made by the step-synchronous
    family. *)
Definition ddim_calls (evs : list Event) : list DdimCall :=
  omap (fun e =>
    match e with
    | DdimForward c => Some c
    | _ => None
    end) evs.

(** Consecutive slices [t[a:a+s]] of a tensor for the batch sizes
    [sizes], starting at [a]. *)
Fixpoint chunks (t : Tensor3) (a_ : Z) (sizes : list Z) : list Tensor3 :=
  match sizes with
  | [] => []
  | s :: sizes' => slice t a_ (a_ + s) :: chunks t (a_ + s) sizes'
  end.

End Callers.

(** ** A concrete collaborator, for running the dispatch

    Embedding vectors, latents and sigmas are numbers, the image
    conditioning carries no data, and a learned conditioning is the
    tensor it reconstructs to at every step. *)
#[export] Instance numeric_externals : Externals := {|
  Vec := Z;
  Latent := Z;
  Sigma := Z;
  Img := unit;
  zeros_like := fun _ => 0;
  img_shape2 := fun _ => 0;
  img_shape3 := fun _ => 0;
  img_crop := fun i _ _ _ _ => i;
  img_batch := fun i _ _ => i;
  MulticondLearnedConditioning := list (list (Z * float)) * list (list Z);
  LearnedConditioning := list (list Z);
  reconstruct_multicond_batch := fun c _ => c;
  reconstruct_cond_batch := fun c _ => c;
|}.

(** A noise predictor that answers its input latents. *)
Definition echo_forward (c : KdiffCall) : result (list Latent) := Ok (k_x c).

(** ** Vocabulary of the properties *)

Section DispatchVocabulary.

Context `{Externals}.

Definition and_message : string :=
  "composition via AND is not supported for DDIM/PLMS samplers".

(** The positive conditioning is composite when some entry of
    [conds_list] has more than one component. *)
Definition composite (conds_list : list (list (Z * float))) : Prop :=
  Exists (fun conds => (1 < length conds)%nat) conds_list.

(** The cross-attention tensor inside a conditioning argument. *)
Definition crossattn_of (c : CondArg) : Tensor3 :=
  match c with
  | Bare t => t
  | Dict _ [t] => t
  | Dict _ _ => []
  end.

(** What one replay call hands to the noise predictor. *)
Definition replay_call (t u : Tensor3) (img : option Img) (cur : Z)
    (x_tile : list Latent) (sigma_in : list Sigma) : KdiffCall :=
  mkKdiffCall x_tile sigma_in
    (if cur <? shape0 t
     then [slice t cur (cur + Z.of_nat (length x_tile))]
     else [u])
    [img].

(** The latent batch sizes of a list of calls. *)
Definition batch_sizes (batches : list (list Latent * list Sigma)) : list Z :=
  (fun b => Z.of_nat (length (fst b))) <$> batches.

Fixpoint sum_list (l : list Z) : Z :=
  match l with
  | [] => 0
  | x :: l' => x + sum_list l'
  end.

(** All conditioning entries handed to the noise predictor, in the
    order of the calls. *)
Definition consumed (evs : list Event) : Tensor3 :=
  concat (concat (forwarded evs)).

(** The Family-B replay as the specification states it: whatever the
    split of the calls into a conditional part covering the [k]
    conditional entries and an unconditional part covering the [m]
    unconditional ones, the calls of one step hand over the
    conditional entries and then the unconditional entries, each
    exactly once. *)
Definition ragged_replay_as_specified : Prop :=
  ∀ (predict : KdiffCall → list Latent) (st : State)
    (pos : MulticondLearnedConditioning) (neg : LearnedConditioning)
    original_cond custom_cond uncond_arg bbox_id bbox batches_c batches_u,
    let step := sampler_step st in
    let t := snd (reconstruct_multicond_batch custom_cond step) in
    let u := reconstruct_cond_batch uncond_arg step in
    Self.kdiff_step (self st) ≠ step →
    all_pos_cond st = Some pos →
    all_neg_cond st = Some neg →
    shape1 (snd (reconstruct_multicond_batch pos step))
      ≠ shape1 (reconstruct_cond_batch neg step) →
    Self.is_edit_model (self st) = Some false →
    0 <= bbox_id < Z.of_nat (length (Self.custom_bboxes (self st))) →
    0 <= step →
    Forall (fun s => 0 < s) (batch_sizes batches_c) →
    sum_list (batch_sizes batches_c) = shape0 t →
    Forall (fun s => 0 < s) (batch_sizes batches_u) →
    sum_list (batch_sizes batches_u) = shape0 u →
    consumed (events (fst (kdiff_calls (fun c => Ok (predict c))
      original_cond custom_cond uncond_arg bbox_id bbox
      (batches_c ++ batches_u) st))) =
    consumed (events st) ++ t ++ u.

End DispatchVocabulary.

(** *** A concrete run of the replay

    One background region on an 8 by 8 canvas, whole-canvas
    conditioning of 3 against 2 tokens, and a region with one
    conditional entry and two unconditional entries, at sampler
    step 0. *)
Definition example_region : CustomBBox.t :=
  CustomBBox.mk (BBox.mk 0 0 4 4) (VStr "a") (VStr "") BACKGROUND (NInt 0) None.

Definition example_self : Self.t :=
  Self.mk true "MultiDiffusion" 1 20 false 8 8 4 4 [] None [example_region]
    true None 0 0 (-1) [] 1 1 (Some false) None.

Definition example_state : State :=
  mkState example_self no_attrs
    (Some ([[(0, fone)]], [[1; 2; 3]])) (Some [[7; 8]]) 0 true [].

Definition example_cond : MulticondLearnedConditioning :=
  ([[(0, fone)]], [[10; 11; 12]]).
Definition example_uncond : LearnedConditioning := [[20; 21]; [30; 31]].


(** A positive conditioning made of two prompts joined by AND. *)
Definition example_and_cond : MulticondLearnedConditioning :=
  ([[(0, fone); (1, fone)]], [[10; 11; 12]; [13; 14; 15]]).

(** A step-synchronous noise predictor that answers its input. *)
Definition echo_ddim (c : DdimCall) : result (list Latent) := Ok (d_x c).

(** *** Vocabulary for the geometry and the regions *)

(** The uniform kernel of the plain tiling method: every tile adds 1. *)
Definition uniform_weights : Z → Z → float32 := fun _ _ => one32.

(** 0.5 *)
Definition fhalf : float := S754_finite false 4503599627370496 (-53).

(** One enabled region tuple: the left upper quarter of the canvas as
    a background region. *)
Definition example_controls : list pyval :=
  [VBool true; VNum (NFloat fzero); VNum (NFloat fzero);
   VNum (NFloat fhalf); VNum (NFloat fhalf);
   VStr "a cat"; VStr ""; VStr "Background"; VNum (NFloat fhalf)].

(** The states an object can be in after its construction and any
    number of calls of [init_custom_bbox]. *)
Inductive configured (get_global_weights : Z → Z → float32) : Self.t → Prop :=
| configured_new method sampler_name p_width p_height p_batch_size p_steps
    tile_w tile_h overlap tile_batch_size causal_layers s :
    TiledDiffusion_init get_global_weights method sampler_name p_width
      p_height p_batch_size p_steps tile_w tile_h overlap tile_batch_size
      causal_layers = Ok s →
    configured get_global_weights s
| configured_regions s draw_background bbox_control_states :
    configured get_global_weights s →
    configured get_global_weights
      (fst (init_custom_bbox s draw_background bbox_control_states)).

(** The region filter as the specification states it: a list of [n]
    nine-field tuples yields one region per enabled tuple with
    [x < 1], [y < 1], [w > 0], [h > 0]. *)
Definition kept (tuple : list pyval) : bool :=
  match tuple with
  | [enable; VNum x; VNum y; VNum w; VNum h; _; _; _; _] =>
      truthy enable && negb (num_ge_one x) && negb (num_ge_one y)
      && negb (num_le_zero w) && negb (num_le_zero h)
  | _ => false
  end.

(** [z] is an integer nearest to the fraction [p / q], for [q > 0]. *)
Definition nearest_int (p q z : Z) : Prop := 2 * Z.abs (p - z * q) <= q.

(** The number of tile columns, [ceil((W - o) / (tw - o))], on exact
    integers. *)
Definition ceil_div (p q : Z) : Z := (p + q - 1) / q.

Definition no_region_message : string :=
  "No region to sample! no background to draw and no custom bboxes were provided.".

(** The background flag and the assertion of [init] as the
    specification states them: on every object obtained from the
    constructor and calls of [init_custom_bbox], the background is
    switched off only when there is a region, and [init] does not stop
    on its assertion. *)
Definition background_off_only_with_regions : Prop :=
  ∀ get_global_weights s,
    configured get_global_weights s →
    (Self.draw_background s = false → Self.custom_bboxes s ≠ [])
    ∧ ∀ edit_model sampling_steps x_in_shape,
        snd (init s edit_model sampling_steps x_in_shape)
        ≠ Raise (AssertionError no_region_message).

(** The offset of tile column (or row) [k] as [split_views] computes
    it: [int(k * step)], replaced by [size - tile] when the tile would
    reach the edge of the canvas. *)
Definition offset_of (k : Z) (step : float) (tile size : Z) : result Z :=
  p ← mul_int_float k step;
  v ← int_of_float p;
  Ok (if size <=? v + tile then size - tile else v).

(** The step between tile columns (or rows):
    [(size - tile) / (n - 1) if n > 1 else 0]. *)
Definition step_of (size tile n : Z) : result float :=
  if 1 <? n then truediv (size - tile) (n - 1) else Ok fzero.

(** The tile offsets as the specification states them: column [c] of
    [cols] starts at the integer nearest to [c * (W - tw) / (cols - 1)]
    (at 0 when there is one column), and no tile passes the right
    edge. *)
Definition offsets_as_specified : Prop :=
  ∀ get_global_weights W H tw th o bboxes count,
    0 < tw <= W → 0 < th <= H → 0 <= o < Z.min tw th →
    split_views get_global_weights W H tw th o = Ok (bboxes, count) →
    let cols := ceil_div (W - o) (tw - o) in
    ∀ r c b,
      0 <= r → 0 <= c < cols →
      bboxes !! Z.to_nat (r * cols + c) = Some b →
      (if cols =? 1 then BBox.x b = 0
       else nearest_int (c * (W - tw)) (cols - 1) (BBox.x b))
      ∧ BBox.x b + tw <= W.

(** *** Vocabulary for the feather mask *)

(** [mask[a, b]] for indices inside the mask. *)
Definition get2 (mask : list (list float32)) (a b : Z) : option float32 :=
  row ← mask !! Z.to_nat a; row !! Z.to_nat b.

(** The [float32] weight written at distance [dist] from the edge for
    the feather radius [r]: [(dist / r) ** 2]. *)
Definition weight_at (dist r : Z) : float32 :=
  match truediv dist r with
  | Ok q => to_float32 (fsquare q)
  | Raise _ => one32
  end.

(** The mask in closed form: the cell [(a, b)] lies at [i] rows and
    [j] columns from the nearest edges; it is ramped when it is in the
    outer halves and nearer to an edge than the radius. *)
Definition feather_value (w h r a b : Z) : float32 :=
  let i := Z.min a (h - 1 - a) in
  let j := Z.min b (w - 1 - b) in
  if (i <? h / 2) && (j <? w / 2) && (Z.min i j <? r)
  then weight_at (Z.min i j) r
  else one32.

(** The mask while the loops run: the rows before [i] and the first
    [n] columns of row [i] are done. *)
Definition feather_partial (w h r i n a b : Z) : float32 :=
  let ia := Z.min a (h - 1 - a) in
  let jb := Z.min b (w - 1 - b) in
  if (ia <? h / 2) && (jb <? w / 2) && (Z.min ia jb <? r)
     && ((ia <? i) || ((ia =? i) && (jb <? n)))
  then weight_at (Z.min ia jb) r
  else one32.

Record mask_inv (w h r i n : Z) (mask : list (list float32)) : Prop := {
  mi_rows : length mask = Z.to_nat h;
  mi_cols : Forall (fun row => length row = Z.to_nat w) mask;
  mi_cells : ∀ a b, 0 <= a < h → 0 <= b < w →
      get2 mask a b = Some (feather_partial w h r i n a b);
}.

(** The computation does not stop on a division by zero. *)
Definition no_zero_division {A} (x : result A) : Prop :=
  x ≠ Raise ZeroDivisionError.

(** A feather ratio that is numerically zero, and one that is one. *)
Definition ratio_zero (ratio : num) : Prop :=
  ratio = NInt 0 ∨ ∃ s, ratio = NFloat (S754_zero s).
Definition ratio_one (ratio : num) : Prop :=
  ratio = NInt 1 ∨ ratio = NFloat fone.

(** The feather mask as the specification states it. *)
Definition feather_mask_as_specified : Prop :=
  ∀ w h, 0 < w → 0 < h → h * w * 4 < 2 ^ 63 →
    (∀ ratio, ratio_zero ratio →
       generate_feather_mask w h ratio
       = Ok (replicate (Z.to_nat h) (replicate (Z.to_nat w) one32)))
    ∧ (∀ ratio, no_zero_division (generate_feather_mask w h ratio))
    ∧ (∀ ratio, ratio_one ratio →
       ∃ mask, generate_feather_mask w h ratio = Ok mask
               ∧ get2 mask (h / 2) (w / 2) = Some one32
               ∧ get2 mask 0 0 = Some zero32).

(** *** Vocabulary for rectangles, signs and weight maps *)

(** The rectangle [b] lies on a canvas of [W] by [H] cells. *)
Definition on_canvas (W H : Z) (b : BBox.t) : Prop :=
  0 <= BBox.x b ∧ BBox.x b + BBox.w b <= W
  ∧ 0 <= BBox.y b ∧ BBox.y b + BBox.h b <= H.

(** The sign bit of a float is clear (a NaN has none). *)
Definition sign_clear (f : float) : Prop :=
  match f with
  | S754_zero s | S754_infinity s | S754_finite s _ _ => s = false
  | S754_nan => True
  end.

(** Every cell of a weight map is zero. *)
Definition all_zero (weights : list (list float32)) : Prop :=
  Forall (Forall (fun v => v = zero32)) weights.

(** The later calls of [init_custom_bbox], each with its background
    flag and its control values. *)
Definition init_custom_bbox_calls (self : Self.t)
    (calls : list (bool * list pyval)) : Self.t :=
  foldl (fun s call => fst (init_custom_bbox s (fst call) (snd call)))
    self calls.

(** ** The progress bar: [update_pbar] *)

(** What [update_pbar] asks of the [tqdm] bar. *)
Inductive PbarCall : Type := PbarClose | PbarUpdate.

Definition set_step_count (v : Z) (s : Self.t) : Self.t :=
  Self.mk (Self.is_kdiff s) (Self.method s) (Self.batch_size s) (Self.steps s)
    (Self.causal_layers s) (Self.w s) (Self.h s) (Self.tile_w s)
    (Self.tile_h s) (Self.batched_bboxes s) (Self.x_buffer s)
    (Self.custom_bboxes s) (Self.draw_background s) (Self.pbar s) v
    (Self.inner_loop_count s) (Self.kdiff_step s) (Self.weights s)
    (Self.num_batches s) (Self.tile_batch_size s) (Self.is_edit_model s)
    (Self.total_bboxes s).

Definition set_inner_loop_count (v : Z) (s : Self.t) : Self.t :=
  Self.mk (Self.is_kdiff s) (Self.method s) (Self.batch_size s) (Self.steps s)
    (Self.causal_layers s) (Self.w s) (Self.h s) (Self.tile_w s)
    (Self.tile_h s) (Self.batched_bboxes s) (Self.x_buffer s)
    (Self.custom_bboxes s) (Self.draw_background s) (Self.pbar s)
    (Self.step_count s) v (Self.kdiff_step s) (Self.weights s)
    (Self.num_batches s) (Self.tile_batch_size s) (Self.is_edit_model s)
    (Self.total_bboxes s).

(** [update_pbar].  The bar is the [tqdm] object that [init] made;
    [self.pbar] holds its total, [pbar_n] is its counter
    [self.pbar.n], and [sampling_step] is [state.sampling_step].  The
    answer is the call made on the bar, if any. *)
Definition update_pbar (self : Self.t) (pbar_n sampling_step : Z)
  : Self.t * result (option PbarCall) :=
  match Self.pbar self with
  | None => (self, Raise AttributeError)
  | Some total =>
      if total <=? pbar_n then (self, Ok (Some PbarClose))
      else if Self.step_count self =? sampling_step then
        let self :=
          set_inner_loop_count (Self.inner_loop_count self + 1) self in
        match Self.total_bboxes self with
        | None => (self, Raise AttributeError)
        | Some total_bboxes =>
            if Self.inner_loop_count self <? total_bboxes
            then (self, Ok (Some PbarUpdate))
            else (self, Ok None)
        end
      else
        (set_inner_loop_count 0 (set_step_count sampling_step self), Ok None)
  end.

(** Calls of [update_pbar] in a row, one for each value that
    [state.sampling_step] has at the time; [tqdm]'s [update()] adds
    one to the counter of the bar, [close()] leaves it. *)
Fixpoint update_pbar_calls (sampling_steps : list Z) (self : Self.t)
    (pbar_n : Z) : Self.t * Z * result unit :=
  match sampling_steps with
  | [] => (self, pbar_n, Ok tt)
  | sampling_step :: rest =>
      match update_pbar self pbar_n sampling_step with
      | (self, Ok (Some PbarUpdate)) => update_pbar_calls rest self (pbar_n + 1)
      | (self, Ok _) => update_pbar_calls rest self pbar_n
      | (self, Raise e) => (self, pbar_n, Raise e)
      end
  end.

(** A sampling run: the steps [0] to [steps - 1], with [calls] calls
    of [update_pbar] in each. *)
Definition sampling_run (steps : Z) (calls : nat) : list Z :=
  concat ((fun step => replicate calls step) <$> range steps).

(** ** ControlNet hints: [prepare_control_tensors],
       [switch_controlnet_tensors], [set_control_tensor],
       [reset_controlnet_tensors] and [hook] *)

(** [torch]'s operations on a hint tensor, as far as the coordinator
    uses them.  A hint is [[C, H, W]] or [[B, C, H, W]]. *)
Class HintOps : Type := {
  Hint : Type;
  (** [len(t.shape)] *)
  hint_ndim : Hint → result Z;
  (** [t[:, y0:y1, x0:x1].unsqueeze(0)] *)
  hint_crop3 : Hint → Z → Z → Z → Z → result Hint;
  (** [t[:, :, y0:y1, x0:x1]] *)
  hint_crop4 : Hint → Z → Z → Z → Z → result Hint;
  (** [torch.cat(ts, dim=0)] *)
  hint_cat : list Hint → result Hint;
  (** [t.cpu()] and [t.to(devices.device)] *)
  hint_cpu : Hint → Hint;
  hint_to_device : Hint → Hint;
  (** [t[i].unsqueeze(0)] *)
  hint_entry : Hint → Z → result Hint;
  (** [t.repeat([k, 1, 1, 1])] *)
  hint_repeat : Hint → Z → result Hint;
}.

(** A list comprehension whose element expression may raise. *)
Fixpoint mapM {A B : Type} (f : A → result B) (l : list A) : result (list B) :=
  match l with
  | [] => Ok []
  | a :: l' => b ← f a; bs ← mapM f l'; Ok (b :: bs)
  end.

(** [l[i]] *)
Definition list_item {A} (l : list A) (i : Z) : result A :=
  n ← index (Z.of_nat (length l)) i;
  match l !! n with
  | Some v => Ok v
  | None => Raise IndexError
  end.

Module ControlNet.
Section ControlNet.

Context `{HintOps}.

(** The ControlNet attributes of the coordinator.  [controlnet_script]
    tells whether a script is attached.  [control_params] is the
    parameter list of the control network once it is bound, given by
    the [hint_cond] of each parameter: the list is the network's own,
    so what is written here is what the network reads.
    [org_control_tensor_batch] does not exist before the first
    binding. *)
Record t : Type := mk {
  controlnet_script : bool;
  control_tensor_batch : option (list (list Hint));
  control_params : option (list Hint);
  org_control_tensor_batch : option (list Hint);
  control_tensor_cpu : bool;
  control_tensor_custom : list (list Hint);
}.

Definition set_control_tensor_batch (v : option (list (list Hint))) (c : t) : t :=
  mk (controlnet_script c) v (control_params c) (org_control_tensor_batch c)
     (control_tensor_cpu c) (control_tensor_custom c).
Definition set_control_params (v : option (list Hint)) (c : t) : t :=
  mk (controlnet_script c) (control_tensor_batch c) v
     (org_control_tensor_batch c) (control_tensor_cpu c)
     (control_tensor_custom c).
Definition set_org_control_tensor_batch (v : option (list Hint)) (c : t) : t :=
  mk (controlnet_script c) (control_tensor_batch c) (control_params c) v
     (control_tensor_cpu c) (control_tensor_custom c).
Definition set_control_tensor_custom (v : list (list Hint)) (c : t) : t :=
  mk (controlnet_script c) (control_tensor_batch c) (control_params c)
     (org_control_tensor_batch c) (control_tensor_cpu c) v.

(** The hint under the rectangle [bbox], in pixels: 8 per latent
    cell. *)
Definition crop_tile (control_tensor : Hint) (bbox : BBox.t) : result Hint :=
  ndim ← hint_ndim control_tensor;
  b1 ← BBox.getitem bbox 1;
  b3 ← BBox.getitem bbox 3;
  b0 ← BBox.getitem bbox 0;
  b2 ← BBox.getitem bbox 2;
  if ndim =? 3
  then hint_crop3 control_tensor (b1 * 8) (b3 * 8) (b0 * 8) (b2 * 8)
  else hint_crop4 control_tensor (b1 * 8) (b3 * 8) (b0 * 8) (b2 * 8).

(** The hint of one tile batch and of one region. *)
Definition batch_tile (cpu : bool) (control_tensor : Hint)
    (bboxes : list BBox.t) : result Hint :=
  single_batch_tensors ← mapM (crop_tile control_tensor) bboxes;
  control_tile ← hint_cat single_batch_tensors;
  Ok (if cpu then hint_cpu control_tile else control_tile).

Definition custom_tile (cpu : bool) (control_tensor : Hint)
    (bbox : CustomBBox.t) : result Hint :=
  control_tile ← crop_tile control_tensor (CustomBBox.bbox bbox);
  Ok (if cpu then hint_cpu control_tile else control_tile).

(** The loop of [prepare_control_tensors] over the hints; what has
    been appended to the two caches survives an exception. *)
Fixpoint prepare_loop (self : Self.t) (tensors : list Hint) (c : t)
  : t * result unit :=
  match tensors with
  | [] => (c, Ok tt)
  | control_tensor :: rest =>
      match mapM (batch_tile (control_tensor_cpu c) control_tensor)
              (Self.batched_bboxes self) with
      | Raise e => (c, Raise e)
      | Ok control_tile_list =>
          let c :=
            set_control_tensor_batch
              (Some (default [] (control_tensor_batch c) ++ [control_tile_list]))
              c in
          if 0 <? Z.of_nat (length (Self.custom_bboxes self)) then
            match mapM (custom_tile (control_tensor_cpu c) control_tensor)
                    (Self.custom_bboxes self) with
            | Raise e => (c, Raise e)
            | Ok custom_control_tile_list =>
                prepare_loop self rest
                  (set_control_tensor_custom
                     (control_tensor_custom c ++ [custom_control_tile_list]) c)
            end
          else prepare_loop self rest c
      end
  end.

(** [prepare_control_tensors].  [latest_network] is what
    [self.controlnet_script.latest_network] offers: nothing, a
    network without the attribute [control_params], or a network with
    the hints of its parameters. *)
Definition prepare_control_tensors (self : Self.t)
    (latest_network : option (option (list Hint))) (c : t) : t * result unit :=
  if bool_decide (is_Some (control_tensor_batch c)) then (c, Ok tt)
  else if negb (controlnet_script c)
          || bool_decide (is_Some (control_params c)) then (c, Ok tt)
  else
    match latest_network with
    | None | Some None => (c, Ok tt)
    | Some (Some hints) =>
        let c := set_control_params (Some hints) c in
        let tensors := hints in
        let c := set_org_control_tensor_batch (Some tensors) c in
        if Z.of_nat (length tensors) =? 0 then (c, Ok tt)
        else prepare_loop self tensors (set_control_tensor_batch (Some []) c)
    end.

(** [self.control_params[param_id].hint_cond = hint(param_id)] for
    the given parameter ids, in order. *)
Fixpoint assign_hints (hint : Z → result Hint) (param_ids : list Z) (c : t)
  : t * result unit :=
  match param_ids with
  | [] => (c, Ok tt)
  | param_id :: rest =>
      match hint param_id with
      | Raise e => (c, Raise e)
      | Ok v =>
          match control_params c with
          | None => (c, Raise TypeError)
          | Some params =>
              match index (Z.of_nat (length params)) param_id with
              | Raise e => (c, Raise e)
              | Ok n =>
                  assign_hints hint rest
                    (set_control_params (Some (<[n := v]> params)) c)
              end
          end
      end
  end.

(** [for param_id in range(len(self.control_params))] *)
Definition for_each_param (hint : Z → result Hint) (c : t) : t * result unit :=
  match control_params c with
  | None => (c, Raise TypeError)
  | Some params => assign_hints hint (range (Z.of_nat (length params))) c
  end.

(** The hint of a tile batch for the kdiff samplers: each tile's
    entry [x_batch_size] times, tile after tile. *)
Definition kdiff_tile (control_tile : Hint) (x_batch_size tile_batch_size : Z)
  : result Hint :=
  all_control_tile ←
    mapM (fun i =>
        entry ← hint_entry control_tile i;
        hint_cat (replicate (Z.to_nat x_batch_size) entry))
      (range tile_batch_size);
  hint_cat all_control_tile.

Definition switch_controlnet_tensors (self : Self.t)
    (batch_id x_batch_size tile_batch_size : Z) (is_denoise : bool) (c : t)
  : t * result unit :=
  match control_tensor_batch c with
  | None => (c, Ok tt)
  | Some batch =>
      for_each_param (fun param_id =>
          tiles ← list_item batch param_id;
          control_tile ← list_item tiles batch_id;
          control_tile ←
            (if Self.is_kdiff self
             then kdiff_tile control_tile x_batch_size tile_batch_size
             else hint_repeat control_tile
                    (if is_denoise then x_batch_size else x_batch_size * 2));
          Ok (hint_to_device control_tile)) c
  end.

Definition set_control_tensor (bbox_id repeat_size : Z) (c : t)
  : t * result unit :=
  if 0 <? Z.of_nat (length (control_tensor_custom c)) then
    for_each_param (fun param_id =>
        tiles ← list_item (control_tensor_custom c) param_id;
        control_tensor ← list_item tiles bbox_id;
        hint_repeat (hint_to_device control_tensor) repeat_size) c
  else (c, Ok tt).

Definition reset_controlnet_tensors (c : t) : t * result unit :=
  match control_tensor_batch c with
  | None => (c, Ok tt)
  | Some _ =>
      for_each_param (fun param_id =>
          match org_control_tensor_batch c with
          | None => Raise AttributeError
          | Some org => list_item org param_id
          end) c
  end.

(** [hook]: the sampler handle is rebound, which is no attribute of
    this record, and the hints are reset. *)
Definition hook (c : t) : t * result unit := reset_controlnet_tensors c.

(** The calls that change the hints between two resets. *)
Inductive Call : Type :=
| Switch (batch_id x_batch_size tile_batch_size : Z) (is_denoise : bool)
| SetTensor (bbox_id repeat_size : Z).

(** A sequence of such calls; a call that raises has still done what
    it did before, and the next call is made all the same. *)
Definition run (self : Self.t) (calls : list Call) (c : t) : t :=
  foldl (fun c call =>
      match call with
      | Switch batch_id x_batch_size tile_batch_size is_denoise =>
          fst (switch_controlnet_tensors self batch_id x_batch_size
                 tile_batch_size is_denoise c)
      | SetTensor bbox_id repeat_size =>
          fst (set_control_tensor bbox_id repeat_size c)
      end) c calls.

(** The object as the constructor leaves it, with or without a
    script. *)
Definition fresh (script cpu : bool) : t := mk script None None None cpu [].

End ControlNet.
End ControlNet.

(** Hints for running the ControlNet bookkeeping: a hint is the list
    of its batch entries, each entry a number; cropping keeps the
    entries. *)
#[export] Instance list_hints : HintOps := {|
  Hint := list Z;
  hint_ndim := fun _ => Ok 4;
  hint_crop3 := fun t _ _ _ _ => Ok t;
  hint_crop4 := fun t _ _ _ _ => Ok t;
  hint_cat := fun ts =>
    match ts with
    | [] => Raise RuntimeError
    | _ => Ok (concat ts)
    end;
  hint_cpu := fun t => t;
  hint_to_device := fun t => t;
  hint_entry := fun t i => v ← list_item t i; Ok [v];
  hint_repeat := fun t k =>
    if k <? 0 then Raise RuntimeError
    else Ok (concat (replicate (Z.to_nat k) t));
|}.

(** *** Vocabulary for the dispatch *)

Section RegionImage.

Context `{Externals}.

(** The image conditioning that goes with a region: none when the
    original conditioning is a bare tensor; otherwise its first
    [c_concat] entry, cut down to the region when that entry has the
    canvas's height and width. *)
Definition region_image_cond (self : Self.t) (org_cond : OrgCond)
    (bbox : CustomBBox.t) : option Img :=
  match org_cond with
  | CondTensor => None
  | CondDict image_cond =>
      let b := CustomBBox.bbox bbox in
      if (img_shape2 image_cond =? Self.h self)
         && (img_shape3 image_cond =? Self.w self)
      then Some (img_crop image_cond (BBox.y b) (BBox.y b + BBox.h b)
                   (BBox.x b) (BBox.x b + BBox.w b))
      else Some image_cond
  end.

(** How a conditioning tensor reaches the step-synchronous noise
    predictor: in a dict beside the image conditioning, or bare. *)
Definition wrap_cond (img : option Img) (t : Tensor3) : CondArg :=
  match img with
  | Some i => Dict [i] [t]
  | None => Bare t
  end.

End RegionImage.

(** *** Concrete runs of the first call of a step

    The example object with whole-canvas conditionings of 3 against 3
    tokens; a region conditioning of one entry against one entry of 3
    tokens; the example object as an image-editing model. *)
Definition example_uniform_state : State :=
  mkState example_self no_attrs
    (Some ([[(0, fone)]], [[1; 2; 3]])) (Some [[7; 8; 9]]) 0 true [].

Definition example_uniform_uncond : LearnedConditioning := [[20; 21; 22]].

Definition example_edit_state : State :=
  mkState
    (Self.set_is_edit_model (Some true) example_self) no_attrs
    (Some ([[(0, fone)]], [[1; 2; 3]])) (Some [[7; 8]]) 0 true [].

(** *** The calls of one sampler step, region by region *)

Section StepCalls.

Context `{Externals}.

(** What the sampler's loop passes for a region at each of its
    calls: the original conditioning, the region's own conditionings
    and the region. *)
Record RegionArgs : Type := mkRegionArgs {
  ra_original_cond : OrgCond;
  ra_custom_cond : MulticondLearnedConditioning;
  ra_uncond : LearnedConditioning;
  ra_bbox : CustomBBox.t;
}.

(** The calls of [kdiff_custom_forward] while [sampler.step] stays
    put, in the order the sampler makes them: each call names its
    region and brings a latent batch, and the calls of different
    regions may alternate.  A call that raises ends the run. *)
Fixpoint kdiff_step_calls (forward_func : KdiffCall → result (list Latent))
    (args : Z → RegionArgs) (calls : list (Z * (list Latent * list Sigma)))
  : M (list (list Latent)) :=
  match calls with
  | [] => mret []
  | (bbox_id, (x_tile, sigma_in)) :: rest =>
      out ← kdiff_custom_forward forward_func x_tile
              (ra_original_cond (args bbox_id)) (ra_custom_cond (args bbox_id))
              (ra_uncond (args bbox_id)) bbox_id (ra_bbox (args bbox_id))
              sigma_in;
      outs ← kdiff_step_calls forward_func args rest;
      mret (out :: outs)
  end.

(** The latent batches of the calls for region [bbox_id], in order. *)
Definition calls_of (bbox_id : Z)
    (calls : list (Z * (list Latent * list Sigma)))
  : list (list Latent * list Sigma) :=
  omap (fun c => if fst c =? bbox_id then Some (snd c) else None) calls.

(** The cross-attention conditionings handed to the noise predictor
    for region [bbox_id]: a call of the predictor belongs to the
    region that [set_control_tensor] has announced last. *)
Fixpoint forwarded_from (announced : option Z) (bbox_id : Z)
    (evs : list Event) : list (list Tensor3) :=
  match evs with
  | [] => []
  | SetControlTensor i _ :: evs' => forwarded_from (Some i) bbox_id evs'
  | KdiffForward c :: evs' =>
      (if bool_decide (announced = Some bbox_id) then [k_c_crossattn c] else [])
      ++ forwarded_from announced bbox_id evs'
  | DdimForward _ :: evs' => forwarded_from announced bbox_id evs'
  end.

Definition forwarded_for (bbox_id : Z) (evs : list Event)
  : list (list Tensor3) :=
  forwarded_from None bbox_id evs.

(** All conditioning entries handed to the noise predictor for
    region [bbox_id], in the order of the calls. *)
Definition consumed_for (bbox_id : Z) (evs : list Event) : Tensor3 :=
  concat (concat (forwarded_for bbox_id evs)).

(** The cursor of every region goes up by the batch sizes of its own
    calls. *)
Definition advance (cur : Z → Z) (bbox_id size : Z) : Z → Z :=
  fun i => if i =? bbox_id then cur i + size else cur i.

(** The object inside a sampler step with ragged whole-canvas
    conditioning and a model that is not an image-editing one: the
    step is recorded and its whole-canvas conditionings are those of
    [pos] and [neg]; every region has a marker and a cursor, the
    cursor of region [i] is [cur i], and a region whose marker
    carries the step has its conditionings in the caches. *)
Definition stepping (st : State) (pos : MulticondLearnedConditioning)
    (neg : LearnedConditioning) (args : Z → RegionArgs) (cur : Z → Z)
  : Prop :=
  let step := sampler_step st in
  let n := length (Self.custom_bboxes (self st)) in
  Self.kdiff_step (self st) = step
  ∧ 0 <= step
  ∧ Self.is_edit_model (self st) = Some false
  ∧ shape1 (snd (reconstruct_multicond_batch pos step))
    ≠ shape1 (reconstruct_cond_batch neg step)
  ∧ ∃ markers dt du di cursors,
      attrs st =
        mkKdiffAttrs (Some markers) (Some dt) (Some du) (Some di)
          (Some (snd (reconstruct_multicond_batch pos step)))
          (Some (reconstruct_cond_batch neg step)) (Some cursors)
      ∧ length markers = n
      ∧ length cursors = n
      ∧ ∀ i : nat, (i < n)%nat →
          cursors !! i = Some (cur (Z.of_nat i))
          ∧ (markers !! i = Some (-1)
             ∨ (markers !! i = Some step
                ∧ dt !! Z.of_nat i
                  = Some (snd (reconstruct_multicond_batch
                                 (ra_custom_cond (args (Z.of_nat i))) step))
                ∧ du !! Z.of_nat i
                  = Some (reconstruct_cond_batch
                            (ra_uncond (args (Z.of_nat i))) step)
                ∧ is_Some (di !! Z.of_nat i))).

(** Region [bbox_id] has not been served in the current step: its
    marker [kdiff_step_bbox[bbox_id]] exists and is not
    [sampler.step]. *)
Definition untouched (st : State) (bbox_id : Z) : Prop :=
  ∃ (markers : list Z) (n : nat) (m : Z),
    kdiff_step_bbox (attrs st) = Some markers
    ∧ index (Z.of_nat (length markers)) bbox_id = Ok n
    ∧ markers !! n = Some m
    ∧ m ≠ sampler_step st.

End StepCalls.

(** *** Concrete runs with two regions

    The example object with a second region; whole-canvas
    conditionings of 3 against 2 tokens (ragged) and of 3 against 3
    tokens; the conditionings of the two regions; the state after
    the first region has been served at step 0 by one call on two
    latents. *)
Definition example_second_region : CustomBBox.t :=
  CustomBBox.mk (BBox.mk 4 4 4 4) (VStr "b") (VStr "") BACKGROUND (NInt 0) None.

Definition example_two_self : Self.t :=
  Self.mk true "MultiDiffusion" 1 20 false 8 8 4 4 [] None
    [example_region; example_second_region]
    true None 0 0 (-1) [] 1 1 (Some false) None.

Definition example_two_state : State :=
  mkState example_two_self no_attrs
    (Some ([[(0, fone)]], [[1; 2; 3]])) (Some [[7; 8]]) 0 true [].

Definition example_two_uniform_state : State :=
  mkState example_two_self no_attrs
    (Some ([[(0, fone)]], [[1; 2; 3]])) (Some [[7; 8; 9]]) 0 true [].

Definition example_second_cond : MulticondLearnedConditioning :=
  ([[(0, fone)]; [(1, fone)]], [[40; 41; 42]; [50; 51; 52]]).
Definition example_second_uncond : LearnedConditioning := [[60; 61]].

Definition example_args (original_cond : OrgCond) (bbox_id : Z) : RegionArgs :=
  if bbox_id =? 0
  then mkRegionArgs original_cond example_cond example_uncond example_region
  else mkRegionArgs original_cond example_second_cond example_second_uncond
         example_second_region.

Definition example_mid_step_state : State :=
  fst (kdiff_custom_forward echo_forward [5; 6] CondTensor example_cond
         example_uniform_uncond 0 example_region [1; 1]
         example_two_uniform_state).

(** ** [init], the whole method *)

Module TiledDiffusion.
Section Init.

Context `{HintOps}.

(** The whole of [init]: lines 143 to 158, which are the definition
    [init] of the coordinator object, followed by the last statement,
    the call of [prepare_control_tensors] (line 161), on the object
    and its ControlNet attributes.  [latest_network] is what the
    ControlNet script offers at the call. *)
Definition init (self : Self.t) (c : ControlNet.t) (edit_model : bool)
    (sampling_steps : Z) (x_in_shape : list Z)
    (latest_network : option (option (list Hint)))
  : Self.t * ControlNet.t * result unit :=
  let '(self, r) := init self edit_model sampling_steps x_in_shape in
  match r with
  | Raise e => (self, c, Raise e)
  | Ok _ =>
      let '(c, r) :=
        ControlNet.prepare_control_tensors self latest_network c in
      (self, c, r)
  end.

End Init.
End TiledDiffusion.

(** * Properties *)

(** Unfolding of the two monads' plumbing. *)
Ltac simpl_M :=
  repeat (progress
    (cbv beta iota zeta delta
       [mbind M_bind mret M_ret result_bind result_ret get lift raise modify
        emit set_self set_attrs set_control_tensor attr call_forward
        dict_get img_slice];
     cbn [fst snd self attrs all_pos_cond all_neg_cond sampler_step
          batch_cond_uncond events kdiff_step_bbox tensor uncond
          image_cond_in real_tensor real_uncond a])).

(** Case analysis on the integer comparisons of the goal. *)
Ltac zbool :=
  repeat (match goal with
          | |- context [Z.ltb ?a ?b] => destruct (Z.ltb_spec a b)
          | |- context [Z.leb ?a ?b] => destruct (Z.leb_spec a b)
          | |- context [Z.eqb ?a ?b] => destruct (Z.eqb_spec a b)
          end; try (exfalso; lia));
  cbn [andb orb negb].

(** ** Python slices and ranges *)

Section PySequences.

Context {A : Type}.
Implicit Types l : list A.

Lemma slice_take_drop l (lo hi : Z) :
  0 <= lo → 0 <= hi →
  slice l lo hi = take (Z.to_nat hi - Z.to_nat lo) (drop (Z.to_nat lo) l).
Proof.
  intros Hlo Hhi. unfold slice, slice_bound.
  destruct (Z.ltb_spec lo 0), (Z.ltb_spec hi 0); try lia.
  destruct (Z.le_gt_cases (Z.of_nat (length l)) lo) as [Hbig|Hsmall].
  - rewrite !drop_ge by lia. by rewrite !take_nil.
  - rewrite (Z.min_l lo) by lia.
    destruct (Z.le_gt_cases hi (Z.of_nat (length l))).
    + rewrite Z.min_l by lia. f_equal. lia.
    + rewrite Z.min_r by lia. rewrite !take_ge; [done| |];
        rewrite length_drop; lia.
Qed.

Lemma slice_from_last l (x : A) : slice_from (l ++ [x]) (-1) = [x].
Proof.
  unfold slice_from, slice, slice_bound.
  rewrite length_app. cbn [length Z.ltb Z.compare].
  destruct (Z.ltb_spec (Z.of_nat (length l + 1)) 0); [lia|].
  rewrite Z.min_id, Z.max_r by lia.
  replace (Z.to_nat (-1 + Z.of_nat (length l + 1))) with (length l) by lia.
  rewrite drop_app_length.
  by replace (Z.to_nat _) with 1%nat by lia.
Qed.

Lemma slice_to_take l (n : Z) : 0 <= n → slice_to l n = take (Z.to_nat n) l.
Proof.
  intros Hn. unfold slice_to. rewrite slice_take_drop by lia.
  cbn. f_equal. lia.
Qed.

Lemma range_length (n : Z) : length (range n) = Z.to_nat n.
Proof. unfold range. by rewrite length_fmap, length_seq. Qed.

Lemma range_succ (n : Z) : 0 <= n → range (n + 1) = range n ++ [n].
Proof.
  intros Hn. unfold range.
  replace (Z.to_nat (n + 1)) with (S (Z.to_nat n)) by lia.
  rewrite seq_S, fmap_app. cbn. do 3 f_equal. lia.
Qed.

Lemma range_nonpos (n : Z) : n <= 0 → range n = [].
Proof. intros Hn. unfold range. by replace (Z.to_nat n) with 0%nat by lia. Qed.

Lemma elem_of_range (n i : Z) : i ∈ range n ↔ 0 <= i < n.
Proof.
  unfold range. rewrite list_elem_of_fmap. split.
  - intros (k & -> & Hk%elem_of_seq). lia.
  - intros Hi. exists (Z.to_nat i). split; [lia|]. apply elem_of_seq. lia.
Qed.

End PySequences.

Lemma index_in_range (len i : Z) :
  0 <= i < len → index len i = Ok (Z.to_nat i).
Proof.
  intros Hi. unfold index.
  destruct (Z.ltb_spec i (- len)), (Z.leb_spec len i); try lia. cbn.
  by destruct (Z.ltb_spec i 0); [lia|].
Qed.

(** Monadic folds over an appended list. *)
Lemma foldM_app {A B : Type} (f : B → A → result B) (l1 l2 : list A) (b : B) :
  foldM f (l1 ++ l2) b = (b' ← foldM f l1 b; foldM f l2 b').
Proof.
  revert b. induction l1 as [|x l1 IH]; intros b; cbn; [done|].
  destruct (f b x); cbn; [apply IH | done].
Qed.

(** ** binary64 facts: ints below [2^53] convert exactly *)

Section Binary64.

Lemma digits2_pos_size (p : positive) : digits2_pos p = Pos.size p.
Proof. induction p; cbn; congruence. Qed.

Lemma digits2_pos_bound (p : positive) :
  Z.pos p < 2 ^ 53 → Z.pos (digits2_pos p) <= 53.
Proof.
  intros Hp. rewrite digits2_pos_size.
  pose proof (Pos.size_le p) as Hle.
  apply Pos2Z.pos_le_pos in Hle. rewrite Pos2Z.inj_pow in Hle.
  change (Z.pos p~0) with (2 * Z.pos p) in Hle.
  destruct (Z.le_gt_cases (Z.pos (Pos.size p)) 53) as [|Hgt]; [done|].
  assert (2 ^ 54 <= 2 ^ Z.pos (Pos.size p)) by (apply Z.pow_le_mono_r; lia).
  lia.
Qed.

Lemma digits2_pos_iter_xO (p s : positive) :
  digits2_pos (Pos.iter xO p s) = (digits2_pos p + s)%positive.
Proof.
  induction s as [|s IH] using Pos.peano_ind.
  - cbn. lia.
  - rewrite Pos.iter_succ. cbn. rewrite IH. lia.
Qed.

Lemma pos_iter_xO (p s : positive) :
  Z.pos (Pos.iter xO p s) = Z.pos p * 2 ^ Z.pos s.
Proof.
  induction s as [|s IH] using Pos.peano_ind.
  - cbn. lia.
  - rewrite Pos.iter_succ, Pos2Z.inj_succ, Z.pow_succ_r by lia.
    change (Z.pos (Pos.iter xO p s)~0) with (2 * Z.pos (Pos.iter xO p s)).
    rewrite IH. lia.
Qed.

(** Rounding a 53-bit mantissa with an exponent in range changes
    nothing. *)
Lemma binary_round_aux_exact (s : bool) (m : positive) (e : Z) :
  digits2_pos m = 53%positive →
  -1074 <= e <= 971 →
  binary_round_aux prec emax s (Z.pos m) e loc_Exact = S754_finite s m e.
Proof.
  intros Hm He.
  assert (Hshift : fexp prec emax (Z.pos (digits2_pos m) + e) - e = 0).
  { rewrite Hm. unfold fexp, SpecFloat.emin, prec, emax. lia. }
  unfold binary_round_aux, shr_fexp. cbn [Zdigits2].
  rewrite Hshift. cbn [shr shr_record_of_loc shr_m loc_of_shr_record
    round_nearest_even Zdigits2].
  rewrite Hshift. cbn [shr shr_record_of_loc shr_m].
  unfold prec, emax. by destruct (Z.leb_spec e (1024 - 53)); [|lia].
Qed.

(** A positive int below [2^53] is a binary64 number: [float(k)] has
    a 53-bit mantissa [m] and an exponent [e <= 0] with
    [m * 2^e = k]. *)
Lemma float_of_int_exact (k : Z) :
  0 < k < 2 ^ 53 →
  ∃ m e,
    float_of_int k = Ok (S754_finite false m e)
    ∧ digits2_pos m = 53%positive
    ∧ -52 <= e <= 0
    ∧ Z.pos m = k * 2 ^ (- e).
Proof.
  intros [Hpos Hlt]. destruct k as [|p|p]; try lia.
  pose proof (digits2_pos_bound p Hlt) as Hd.
  unfold float_of_int, binary_normalize, binary_round, shl_align.
  assert (Hfexp : fexp prec emax (Z.pos (digits2_pos p) + 0)
                  = Z.pos (digits2_pos p) - 53).
  { unfold fexp, SpecFloat.emin, prec, emax. lia. }
  rewrite Hfexp, Z.sub_0_r.
  destruct (Z.pos (digits2_pos p) - 53) as [|q|q] eqn:Eq; try lia.
  - exists p, 0. rewrite binary_round_aux_exact by lia.
    repeat split; try lia.
  - exists (Pos.iter xO p q), (Z.neg q).
    rewrite binary_round_aux_exact.
    + split; [done|]. split; [|split; [lia|]].
      * rewrite digits2_pos_iter_xO. lia.
      * rewrite pos_iter_xO. done.
    + rewrite digits2_pos_iter_xO. lia.
    + lia.
Qed.

(** Multiplying such a number by 1.0 changes nothing. *)
Lemma mul_one_exact (m : positive) (e : Z) :
  digits2_pos m = 53%positive →
  -52 <= e <= 0 →
  SFmul prec emax (S754_finite false m e) fone = S754_finite false m e.
Proof.
  intros Hm He. unfold SFmul, fone. cbn [xorb].
  set (M := (m * 4503599627370496)%positive).
  assert (HM : M = Pos.iter xO m 52).
  { subst M. rewrite Pos.mul_comm. reflexivity. }
  assert (HdM : digits2_pos M = 105%positive).
  { rewrite HM, digits2_pos_iter_xO, Hm. reflexivity. }
  assert (Hshr : SpecFloat.iter_pos shr_1 52 (Build_shr_record (Z.pos M) false false)
                 = Build_shr_record (Z.pos m) false false).
  { rewrite HM. reflexivity. }
  assert (Hshift1 :
    fexp prec emax (Z.pos (digits2_pos M) + (e + -52)) - (e + -52) = 52).
  { rewrite HdM. unfold fexp, SpecFloat.emin, prec, emax. lia. }
  assert (Hshift2 :
    fexp prec emax (Z.pos (digits2_pos m) + (e + -52 + 52)) - (e + -52 + 52)
    = 0).
  { rewrite Hm. unfold fexp, SpecFloat.emin, prec, emax. lia. }
  unfold binary_round_aux, shr_fexp. cbn [Zdigits2].
  rewrite Hshift1. cbn [shr shr_record_of_loc]. rewrite Hshr.
  cbn [shr_m loc_of_shr_record round_nearest_even Zdigits2].
  rewrite Hshift2. cbn [shr shr_record_of_loc shr_m].
  unfold prec, emax.
  destruct (Z.leb_spec (e + -52 + 52) (1024 - 53)); [|lia].
  f_equal. lia.
Qed.

Lemma int_of_float_exact (k : Z) (m : positive) (e : Z) :
  -52 <= e <= 0 →
  Z.pos m = k * 2 ^ (- e) →
  int_of_float (S754_finite false m e) = Ok k.
Proof.
  intros He Hm. unfold int_of_float. cbn [cond_Zopp]. f_equal.
  rewrite Hm. replace e with (- (- e)) at 2 by lia.
  change (Z.shiftl ?x (- ?n)) with (Z.shiftr x n).
  rewrite Z.shiftr_div_pow2 by lia.
  apply Z.div_mul. apply Z.pow_nonzero; lia.
Qed.

(** [int(k * 1.0) = k] and [int(k * 0.0) = 0] for an int [k] below
    [2^53]. *)
Lemma int_mul_one (k : Z) :
  0 <= k < 2 ^ 53 →
  (mul_int_float k fone ≫= int_of_float) = Ok k.
Proof.
  intros Hk. unfold mul_int_float.
  destruct (Z.eq_dec k 0) as [->|Hne]; [reflexivity|].
  destruct (float_of_int_exact k ltac:(lia)) as (m & e & -> & Hm & He & Hv).
  cbn [mbind result_bind]. rewrite mul_one_exact by done.
  by apply int_of_float_exact.
Qed.

Lemma int_mul_zero (k : Z) (s : bool) :
  0 <= k < 2 ^ 53 →
  (mul_int_float k (S754_zero s) ≫= int_of_float) = Ok 0.
Proof.
  intros Hk. unfold mul_int_float.
  destruct (Z.eq_dec k 0) as [->|Hne]; [reflexivity|].
  destruct (float_of_int_exact k ltac:(lia)) as (m & e & -> & Hm & He & Hv).
  reflexivity.
Qed.

(** True division of ints below [2^53] by a non-zero int does not
    raise. *)
Lemma truediv_ok (a b : Z) :
  0 <= a < 2 ^ 53 → 0 < b < 2 ^ 53 → ∃ q, truediv a b = Ok q.
Proof.
  intros Ha Hb. unfold truediv.
  destruct (Z.eqb_spec b 0); [lia|].
  destruct (Z.eqb_spec a 0); [eauto|].
  destruct (float_of_int_exact a ltac:(lia)) as (ma & ea & -> & _).
  destruct (float_of_int_exact b ltac:(lia)) as (mb & eb & -> & _).
  cbn [mbind result_bind]. eauto.
Qed.

Lemma truediv_zero (b : Z) : 0 < b → truediv 0 b = Ok fzero.
Proof.
  intros Hb. unfold truediv.
  destruct (Z.eqb_spec b 0); [lia|]. cbn.
  by destruct (Z.ltb_spec b 0); [lia|].
Qed.

End Binary64.


(** ** Reconstruction of a region's conditioning *)

Section Reconstruct.

Context `{Externals}.

Lemma reconstruct_custom_cond_ok (org_cond : OrgCond)
    (custom_cond : MulticondLearnedConditioning)
    (custom_uncond : LearnedConditioning) (bbox : CustomBBox.t) (st : State) :
  ∃ img,
    reconstruct_custom_cond org_cond custom_cond custom_uncond bbox st =
    (st, Ok (fst (reconstruct_multicond_batch custom_cond (sampler_step st)),
             snd (reconstruct_multicond_batch custom_cond (sampler_step st)),
             reconstruct_cond_batch custom_uncond (sampler_step st), img)).
Proof.
  unfold reconstruct_custom_cond.
  destruct (reconstruct_multicond_batch custom_cond (sampler_step st))
    as [cl t] eqn:E.
  destruct org_cond as [image_cond|]; simpl_M.
  - destruct ((img_shape2 image_cond =? Self.h (self st))
              && (img_shape3 image_cond =? Self.w (self st))); simpl_M;
      rewrite ?E; eauto.
  - rewrite E. eauto.
Qed.

End Reconstruct.

(** ** Family A: [ddim_custom_forward] *)

Section DdimProperties.

Context `{Externals}.
Variable Out : Type.
Variable forward_func : DdimCall → result Out.

Lemma forallb_single (conds_list : list (list (Z * float))) :
  Forall (fun conds => conds ≠ []) conds_list →
  forallb (fun conds => Z.of_nat (length conds) =? 1) conds_list = false
  ↔ composite conds_list.
Proof.
  unfold composite. induction 1 as [|conds l Hne Hl IH]; cbn.
  - split; [discriminate | by intros ?%Exists_nil].
  - rewrite Exists_cons, andb_false_iff, IH.
    assert ((Z.of_nat (length conds) =? 1) = false ↔ (1 < length conds)%nat)
      as ->; [|done].
    rewrite Z.eqb_neq. destruct conds; [done|]. cbn [length]. lia.
Qed.

(** Padding repeats the last token of every batch entry. *)
Lemma pad_uncond_rows (u : Tensor3) (n : Z) :
  Forall (fun r => r ≠ []) u →
  Forall2 (fun r r' => ∃ x, last r = Some x ∧
                          r' = r ++ replicate (Z.to_nat n) x)
    u (pad_uncond u n).
Proof.
  unfold pad_uncond. induction 1 as [|r u Hr Hu IH]; cbn; constructor; auto.
  destruct (last r) as [x|] eqn:Hlast; [|by apply last_None in Hlast].
  exists x. split; [done|]. f_equal.
  apply last_Some in Hlast as [r0 ->]. rewrite slice_from_last.
  clear. induction (Z.to_nat n); cbn; congruence.
Qed.

Lemma padded_rows_length (Lu Lt : Z) (u u' : Tensor3) :
  Lu < Lt →
  Forall (fun r => Z.of_nat (length r) = Lu) u →
  Forall2 (fun r r' => ∃ v, last r = Some v ∧
             r' = r ++ replicate (Z.to_nat (Lt - Lu)) v) u u' →
  Forall (fun r' => Z.of_nat (length r') = Lt) u'.
Proof.
  intros Hlt Hrect Hpad.
  induction Hpad as [|r r' u0 u0' (v & _ & ->) _ IH]; [done|].
  apply Forall_cons in Hrect as [Hr Hu]. constructor; [|by apply IH].
  rewrite length_app, length_replicate. lia.
Qed.

Lemma ddim_custom_forward_unfold x cond_in cond uncond_arg bbox ts st :
  let conds_list := fst (reconstruct_multicond_batch cond (sampler_step st)) in
  let t := snd (reconstruct_multicond_batch cond (sampler_step st)) in
  let u := reconstruct_cond_batch uncond_arg (sampler_step st) in
  let u' :=
    if shape1 u <? shape1 t then pad_uncond u (shape1 t - shape1 u)
    else if shape1 t <? shape1 u
    then (fun r => slice_to r (shape1 t)) <$> u else u in
  ∃ img,
    ddim_custom_forward Out forward_func x cond_in cond uncond_arg bbox ts st =
    if forallb (fun conds => Z.of_nat (length conds) =? 1) conds_list
    then
      let c :=
        match img with
        | Some i => mkDdimCall x (Dict [i] [t]) ts (Dict [i] [u'])
        | None => mkDdimCall x (Bare t) ts (Bare u')
        end in
      (mkState (self st) (attrs st) (all_pos_cond st) (all_neg_cond st)
         (sampler_step st) (batch_cond_uncond st)
         (events st ++ [DdimForward c]), forward_func c)
    else (st, Raise (AssertionError and_message)).
Proof.
  intros conds_list t u u'.
  destruct (reconstruct_custom_cond_ok cond_in cond uncond_arg bbox st)
    as [img Himg].
  exists img. unfold ddim_custom_forward. simpl_M. rewrite Himg.
  fold conds_list t u.
  destruct (forallb _ conds_list); cbn [negb]; [|done].
  fold u'. destruct img; simpl_M; by destruct (forward_func _).
Qed.

(** C7: [ddim_custom_forward] stops with the explicit "AND is not
    supported" error exactly when the reconstructed positive
    conditioning is composite, and then the noise predictor has not
    been called; otherwise the outcome is the noise predictor's, which
    has been called.  The entries of [conds_list] are non-empty, as
    the prompt parser builds them: one component per sub-prompt. *)
Theorem ddim_composite_rejected x cond_in cond uncond_arg bbox ts st :
  let conds_list := fst (reconstruct_multicond_batch cond (sampler_step st)) in
  let res :=
    ddim_custom_forward Out forward_func x cond_in cond uncond_arg bbox ts st in
  Forall (fun conds => conds ≠ []) conds_list →
  (composite conds_list →
     snd res = Raise (AssertionError and_message)
     ∧ events (fst res) = events st)
  ∧ (¬ composite conds_list →
     ∃ c, events (fst res) = events st ++ [DdimForward c]
          ∧ snd res = forward_func c).
Proof.
  intros conds_list res Hne. subst res.
  destruct (ddim_custom_forward_unfold x cond_in cond uncond_arg bbox ts st)
    as [img ->]. fold conds_list.
  destruct (forallb _ conds_list) eqn:E.
  - split.
    + intros Hc%forallb_single; [congruence | done].
    + intros _. eexists. split; reflexivity.
  - split; [done|]. intros []. by apply forallb_single.
Qed.

(** C6: when no entry is composite, the noise predictor is called
    exactly once; the unconditional conditioning it receives is the
    region's, with every batch entry padded by copies of its last
    token when it is shorter than the positive conditioning, cut to
    the positive length when it is longer, and unchanged when the
    lengths agree; in each case it ends with the positive length.
    The unconditional tensor is rectangular and has at least one
    token. *)
Theorem ddim_uncond_length_matched x cond_in cond uncond_arg bbox ts st :
  let conds_list := fst (reconstruct_multicond_batch cond (sampler_step st)) in
  let t := snd (reconstruct_multicond_batch cond (sampler_step st)) in
  let u := reconstruct_cond_batch uncond_arg (sampler_step st) in
  let res :=
    ddim_custom_forward Out forward_func x cond_in cond uncond_arg bbox ts st in
  Forall (fun conds => length conds = 1%nat) conds_list →
  Forall (fun r => Z.of_nat (length r) = shape1 u) u →
  0 < shape1 u →
  ∃ c u',
    ddim_calls (events (fst res)) = ddim_calls (events st) ++ [c]
    ∧ snd res = forward_func c
    ∧ crossattn_of (d_cond c) = t
    ∧ crossattn_of (d_unconditional_conditioning c) = u'
    ∧ (shape1 u < shape1 t →
       Forall2 (fun r r' => ∃ v, last r = Some v ∧
          r' = r ++ replicate (Z.to_nat (shape1 t - shape1 u)) v) u u')
    ∧ (shape1 t < shape1 u → u' = take (Z.to_nat (shape1 t)) <$> u)
    ∧ (shape1 u = shape1 t → u' = u)
    ∧ Forall (fun r' => Z.of_nat (length r') = shape1 t) u'.
Proof.
  intros conds_list t u res Hone Hrect Hpos. subst res.
  destruct (ddim_custom_forward_unfold x cond_in cond uncond_arg bbox ts st)
    as [img ->]. fold conds_list t u.
  assert (forallb (fun conds => Z.of_nat (length conds) =? 1) conds_list = true)
    as ->.
  { apply forallb_forall. intros conds Hin.
    rewrite Forall_forall in Hone. rewrite (Hone conds); [done|].
    by apply list_elem_of_In. }
  set (u' := if shape1 u <? shape1 t then _ else _).
  assert (Hpad : shape1 u < shape1 t →
       Forall2 (fun r r' => ∃ v, last r = Some v ∧
          r' = r ++ replicate (Z.to_nat (shape1 t - shape1 u)) v) u u').
  { intros Hlt. subst u'.
    destruct (Z.ltb_spec (shape1 u) (shape1 t)); [|lia].
    apply pad_uncond_rows.
    eapply Forall_impl; [exact Hrect|]. intros r Hr ->. cbn in Hr. lia. }
  assert (Hcut : shape1 t < shape1 u → u' = take (Z.to_nat (shape1 t)) <$> u).
  { intros Hlt. subst u'.
    destruct (Z.ltb_spec (shape1 u) (shape1 t)); [lia|].
    destruct (Z.ltb_spec (shape1 t) (shape1 u)); [|lia].
    apply list_fmap_ext. intros _ r _. apply slice_to_take.
    unfold shape1. destruct t; lia. }
  assert (Hsame : shape1 u = shape1 t → u' = u).
  { intros Heq. subst u'.
    destruct (Z.ltb_spec (shape1 u) (shape1 t)); [lia|].
    by destruct (Z.ltb_spec (shape1 t) (shape1 u)); [lia|]. }
  assert (Hlen : Forall (fun r' => Z.of_nat (length r') = shape1 t) u').
  { destruct (Z.lt_trichotomy (shape1 u) (shape1 t)) as [Hlt|[Heq|Hgt]].
    - eapply padded_rows_length; [exact Hlt | exact Hrect | by apply Hpad].
    - rewrite (Hsame Heq), <- Heq. done.
    - rewrite (Hcut Hgt). apply Forall_fmap.
      eapply Forall_impl; [exact Hrect|]. intros r Hr. cbn in *.
      assert (0 <= shape1 t) by (unfold shape1; destruct t; lia).
      rewrite length_take. lia. }
  destruct img as [i|]; cbn [fst snd events];
    eexists _, u'; (split; [|split; [reflexivity|]]);
    [ unfold ddim_calls; by rewrite omap_app | by cbn
    | unfold ddim_calls; by rewrite omap_app | by cbn ].
Qed.

End DdimProperties.

(** ** Family B: [kdiff_custom_forward] *)

Section KdiffProperties.

Context `{Externals}.
Variable forward_func : KdiffCall → result (list Latent).

(** C9: when the sampler's step differs from the recorded
    [kdiff_step], the first thing a call of [kdiff_custom_forward]
    does is the reset: the three per-region caches are emptied, every
    step marker is set to -1 (which no step id of the sampler, counted
    from 0, equals), every cursor is set to 0 and the new step is
    recorded; nothing has been dispatched at that point, and the rest
    of the call runs on the reset state.  The whole-canvas
    conditioning is the one [refresh_prompt] has set. *)
Theorem kdiff_step_reset_clears (st : State)
    (pos : MulticondLearnedConditioning) (neg : LearnedConditioning) :
  Self.kdiff_step (self st) ≠ sampler_step st →
  all_pos_cond st = Some pos →
  all_neg_cond st = Some neg →
  let n := length (Self.custom_bboxes (self st)) in
  ∃ st',
    kdiff_step_reset st = (st', Ok tt)
    ∧ Self.kdiff_step (self st') = sampler_step st
    ∧ tensor (attrs st') = Some ∅
    ∧ uncond (attrs st') = Some ∅
    ∧ image_cond_in (attrs st') = Some ∅
    ∧ kdiff_step_bbox (attrs st') = Some (replicate n (-1))
    ∧ (0 <= sampler_step st →
       Forall (fun marker => marker ≠ sampler_step st) (replicate n (-1)))
    ∧ a (attrs st') = Some (replicate n 0)
    ∧ events st' = events st
    ∧ ∀ x_tile original_cond custom_cond uncond_arg bbox_id bbox sigma_in,
        kdiff_custom_forward forward_func x_tile original_cond custom_cond
          uncond_arg bbox_id bbox sigma_in st =
        (early ← kdiff_first_touch forward_func x_tile original_cond
                   custom_cond uncond_arg bbox_id bbox sigma_in;
         match early with
         | Some x_out => mret x_out
         | None => kdiff_replay forward_func x_tile bbox_id sigma_in
         end) st'.
Proof.
  intros Hstep Hpos Hneg n.
  assert (Hreset : ∃ st', kdiff_step_reset st = (st', Ok tt)
    ∧ Self.kdiff_step (self st') = sampler_step st
    ∧ attrs st' = mkKdiffAttrs (Some (replicate n (-1))) (Some ∅) (Some ∅)
        (Some ∅)
        (Some (snd (reconstruct_multicond_batch pos (sampler_step st))))
        (Some (reconstruct_cond_batch neg (sampler_step st)))
        (Some (replicate n 0))
    ∧ events st' = events st).
  { unfold kdiff_step_reset. simpl_M.
    destruct (Z.eqb_spec (Self.kdiff_step (self st)) (sampler_step st));
      [done|].
    rewrite Hpos, Hneg. simpl_M. eexists. split; [reflexivity|]. by cbn. }
  destruct Hreset as (st' & Hrun & Hk & Hattrs & Hev).
  exists st'. rewrite Hattrs. cbn.
  repeat split; try done.
  - intros Hnonneg. apply Forall_replicate. lia.
  - intros. unfold kdiff_custom_forward.
    unfold mbind at 1, M_bind at 1. by rewrite Hrun.
Qed.

End KdiffProperties.

Section KdiffReplay.

Context `{Externals}.
Variable predict : KdiffCall → list Latent.

Let forward_func : KdiffCall → result (list Latent) :=
  fun c => Ok (predict c).

Lemma batch_sizes_cons x_tile (sigma_in : list Sigma) rest :
  batch_sizes ((x_tile, sigma_in) :: rest) =
  Z.of_nat (length x_tile) :: batch_sizes rest.
Proof. done. Qed.

Lemma chunks_concat (t : Tensor3) (cur : Z) (sizes : list Z) :
  0 <= cur →
  Forall (fun s => 0 <= s) sizes →
  concat (chunks t cur sizes) =
  take (Z.to_nat (sum_list sizes)) (drop (Z.to_nat cur) t).
Proof.
  intros Hcur Hs. revert cur Hcur.
  induction Hs as [|s sizes Hs0 Hs IH]; intros cur Hcur; cbn [chunks concat sum_list].
  - done.
  - rewrite IH by lia. rewrite slice_take_drop by lia.
    assert (0 <= sum_list sizes).
    { clear -Hs. induction Hs; cbn; lia. }
    replace (Z.to_nat (cur + s) - Z.to_nat cur)%nat with (Z.to_nat s) by lia.
    replace (Z.to_nat (cur + s)) with (Z.to_nat cur + Z.to_nat s)%nat by lia.
    rewrite <- drop_drop, take_take_drop. f_equal. lia.
Qed.

Lemma sum_list_nonneg (l : list Z) : Forall (fun s => 0 < s) l → 0 <= sum_list l.
Proof. induction 1; cbn; lia. Qed.

Lemma calls_of_cons (i j : Z) (b : list Latent * list Sigma)
    (rest : list (Z * (list Latent * list Sigma))) :
  calls_of i ((j, b) :: rest)
  = if j =? i then b :: calls_of i rest else calls_of i rest.
Proof. unfold calls_of. cbn. by destruct (j =? i). Qed.

(** A call of the noise predictor that follows the announcement of
    region [j] counts for region [j] only. *)
Lemma forwarded_from_call (announced : option Z) (i j s : Z) (c : KdiffCall)
    (evs : list Event) :
  forwarded_from announced i (evs ++ [SetControlTensor j s; KdiffForward c])
  = forwarded_from announced i evs
    ++ (if bool_decide (j = i) then [k_c_crossattn c] else []).
Proof.
  revert announced. induction evs as [|e evs IH]; intros announced.
  - cbn. rewrite app_nil_r.
    destruct (decide (j = i)) as [->|Hne].
    + by rewrite !bool_decide_eq_true_2.
    + rewrite !bool_decide_eq_false_2; [done|done|congruence].
  - destruct e; cbn; rewrite IH; by rewrite ?app_assoc.
Qed.

(** The reset at a step boundary leaves the object inside the step,
    with every cursor at 0; a call inside the step finds nothing to
    reset. *)
Lemma kdiff_step_reset_boundary st pos neg args :
  let step := sampler_step st in
  Self.kdiff_step (self st) ≠ step →
  all_pos_cond st = Some pos →
  all_neg_cond st = Some neg →
  shape1 (snd (reconstruct_multicond_batch pos step))
    ≠ shape1 (reconstruct_cond_batch neg step) →
  Self.is_edit_model (self st) = Some false →
  0 <= step →
  ∃ st0,
    kdiff_step_reset st = (st0, Ok tt)
    ∧ stepping st0 pos neg args (fun _ => 0)
    ∧ self st0 = Self.set_kdiff_step step (self st)
    ∧ all_pos_cond st0 = all_pos_cond st
    ∧ all_neg_cond st0 = all_neg_cond st
    ∧ sampler_step st0 = step
    ∧ batch_cond_uncond st0 = batch_cond_uncond st
    ∧ events st0 = events st.
Proof.
  intros step Hstep Hpos Hneg Hragged Hedit Hnonneg.
  unfold kdiff_step_reset. simpl_M. fold step.
  destruct (Z.eqb_spec (Self.kdiff_step (self st)) step); [done|].
  rewrite Hpos, Hneg. simpl_M. eexists. split; [reflexivity|].
  split; [|by cbn].
  unfold stepping. cbn. fold step.
  split; [done|]. split; [done|]. split; [done|]. split; [done|].
  eexists _, _, _, _, _. split; [reflexivity|].
  rewrite !length_replicate. split; [done|]. split; [done|].
  intros i Hi. rewrite !lookup_replicate_2 by done. auto.
Qed.

Lemma kdiff_step_reset_stepping st pos neg args cur :
  stepping st pos neg args cur → kdiff_step_reset st = (st, Ok tt).
Proof.
  intros (Hstep & _). unfold kdiff_step_reset. simpl_M.
  by rewrite Hstep, Z.eqb_refl.
Qed.

(** One replay call for a region whose conditionings are cached. *)
Lemma kdiff_replay_cached slf markers dt du di rt ru cursors
    pos neg step bcu evs j t u img cur x_tile sigma_in :
  Self.is_edit_model slf = Some false →
  dt !! j = Some t → du !! j = Some u → di !! j = Some img →
  0 <= j < Z.of_nat (length cursors) →
  cursors !! Z.to_nat j = Some cur →
  kdiff_replay forward_func x_tile j sigma_in
    (mkState slf
       (mkKdiffAttrs (Some markers) (Some dt) (Some du) (Some di) rt ru
          (Some cursors))
       pos neg step bcu evs)
  = (mkState slf
       (mkKdiffAttrs (Some markers) (Some dt) (Some du) (Some di) rt ru
          (Some (<[Z.to_nat j := cur + Z.of_nat (length x_tile)]> cursors)))
       pos neg step bcu
       (evs ++ [SetControlTensor j
                  (if cur <? shape0 t then Z.of_nat (length x_tile)
                   else shape0 u);
                KdiffForward (replay_call t u img cur x_tile sigma_in)]),
     Ok (predict (replay_call t u img cur x_tile sigma_in))).
Proof.
  intros Hedit Hdt Hdu Hdi Hj Hcur.
  unfold kdiff_replay, list_get, list_set, replay_call. simpl_M.
  rewrite Hdt. simpl_M. rewrite Hdu. simpl_M.
  rewrite index_in_range by done. simpl_M. rewrite Hcur. simpl_M.
  destruct (cur <? shape0 t); simpl_M; rewrite ?Hedit; simpl_M;
    cbn [negb]; simpl_M; rewrite Hdi; simpl_M; by rewrite <- app_assoc.
Qed.

(** One call for region [j] inside a step: the region's conditionings
    are cached if this is its first call, and the call is a replay at
    the region's own cursor, which alone moves on. *)
Lemma kdiff_custom_forward_stepping st pos neg args cur j x_tile sigma_in :
  let step := sampler_step st in
  let t := snd (reconstruct_multicond_batch (ra_custom_cond (args j)) step) in
  let u := reconstruct_cond_batch (ra_uncond (args j)) step in
  stepping st pos neg args cur →
  0 <= j < Z.of_nat (length (Self.custom_bboxes (self st))) →
  ∃ st' img size,
    kdiff_custom_forward forward_func x_tile (ra_original_cond (args j))
      (ra_custom_cond (args j)) (ra_uncond (args j)) j (ra_bbox (args j))
      sigma_in st
    = (st', Ok (predict (replay_call t u img (cur j) x_tile sigma_in)))
    ∧ stepping st' pos neg args (advance cur j (Z.of_nat (length x_tile)))
    ∧ self st' = self st
    ∧ all_pos_cond st' = all_pos_cond st
    ∧ all_neg_cond st' = all_neg_cond st
    ∧ sampler_step st' = sampler_step st
    ∧ batch_cond_uncond st' = batch_cond_uncond st
    ∧ events st' =
        events st ++ [SetControlTensor j size;
                      KdiffForward (replay_call t u img (cur j) x_tile sigma_in)].
Proof.
  intros step t u Hinv Hj.
  pose proof (kdiff_step_reset_stepping _ _ _ _ _ Hinv) as Hreset.
  destruct Hinv as (Hstep & Hnonneg & Hedit & Hragged & markers & dt & du
    & di & cursors & Hattrs & Hlm & Hlc & Hall).
  destruct st as [slf ats apos aneg stp bcu evs]. cbn in *. subst ats.
  fold step in Hall, Hragged, Hnonneg, Hstep.
  set (n := length (Self.custom_bboxes slf)) in *.
  destruct (Hall (Z.to_nat j) ltac:(lia)) as [Hcur Hmark].
  rewrite Z2Nat.id in Hcur, Hmark by lia.
  set (len := Z.of_nat (length x_tile)).
  assert (Hframe : ∀ i : nat, (i < n)%nat → i ≠ Z.to_nat j →
    advance cur j len (Z.of_nat i) = cur (Z.of_nat i)).
  { intros i Hi Hne. unfold advance.
    destruct (Z.eqb_spec (Z.of_nat i) j); [lia|done]. }
  assert (Hhere : advance cur j len j = cur j + len).
  { unfold advance. by rewrite Z.eqb_refl. }
  unfold kdiff_custom_forward. unfold mbind at 1, M_bind at 1.
  rewrite Hreset.
  unfold kdiff_first_touch, list_get, list_set. simpl_M.
  rewrite Hlm, index_in_range by lia. simpl_M.
  destruct Hmark as [Hm|(Hm & Hdt & Hdu & [img Hdi])]; rewrite Hm; simpl_M.
  - (* first call of the region in this step *)
    fold step. destruct (Z.eqb_spec (-1) step) as [Hs|Hs]; [lia|].
    simpl_M.
    match goal with
    | |- context [reconstruct_custom_cond ?oc ?cc ?ua ?bb ?s] =>
        destruct (reconstruct_custom_cond_ok oc cc ua bb s) as [img Himg];
        rewrite Himg
    end.
    simpl_M. fold step t u.
    destruct (Z.eqb_spec (shape1 (snd (reconstruct_multicond_batch pos step)))
                (shape1 (reconstruct_cond_batch neg step))); [done|].
    simpl_M.
    rewrite (kdiff_replay_cached _ _ _ _ _ _ _ _ _ _ _ _ _ j t u img (cur j))
      by (rewrite ?lookup_insert_eq; done || lia).
    eexists _, img, _. split; [reflexivity|]. split; [|by cbn].
    unfold stepping. cbn. fold step n.
    split; [done|]. split; [done|]. split; [done|]. split; [done|].
    eexists _, _, _, _, _. split; [reflexivity|].
    rewrite !length_insert. split; [done|]. split; [done|].
    intros i Hi. destruct (decide (i = Z.to_nat j)) as [->|Hne].
    + rewrite Z2Nat.id by lia.
      rewrite !list_lookup_insert_eq by lia.
      rewrite !lookup_insert_eq, Hhere. split; [done|]. right. by eauto.
    + destruct (Hall i Hi) as [Hci Hmi].
      rewrite !list_lookup_insert_ne by done.
      rewrite Hframe by done. split; [done|].
      destruct Hmi as [Hmi|(Hmi & Hti & Hui & Hii)]; [by left|right].
      rewrite !lookup_insert_ne by lia. done.
  - (* a later call of the region *)
    fold step. rewrite Z.eqb_refl. simpl_M.
    rewrite (kdiff_replay_cached _ _ _ _ _ _ _ _ _ _ _ _ _ j t u img (cur j))
      by (done || lia).
    eexists _, img, _. split; [reflexivity|]. split; [|by cbn].
    unfold stepping. cbn. fold step n.
    split; [done|]. split; [done|]. split; [done|]. split; [done|].
    eexists _, _, _, _, _. split; [reflexivity|].
    rewrite !length_insert. split; [done|]. split; [done|].
    intros i Hi. destruct (decide (i = Z.to_nat j)) as [->|Hne].
    + rewrite Z2Nat.id by lia.
      rewrite !list_lookup_insert_eq by lia.
      rewrite Hhere. split; [done|]. right. by eauto.
    + destruct (Hall i Hi) as [Hci Hmi].
      rewrite !list_lookup_insert_ne by done.
      rewrite Hframe by done. done.
Qed.

(** The calls of a step, those of region [bbox_id] among the calls of
    the other regions: the conditional entries go out in consecutive
    slices from the region's cursor, and once they are used up every
    call receives the whole unconditional tensor. *)
Lemma kdiff_step_calls_stepping pos neg args bbox_id calls :
  ∀ st cur batches_c batches_u,
  let step := sampler_step st in
  let t :=
    snd (reconstruct_multicond_batch (ra_custom_cond (args bbox_id)) step) in
  let u := reconstruct_cond_batch (ra_uncond (args bbox_id)) step in
  stepping st pos neg args cur →
  Forall (fun c =>
    0 <= fst c < Z.of_nat (length (Self.custom_bboxes (self st)))) calls →
  calls_of bbox_id calls = batches_c ++ batches_u →
  Forall (fun s => 0 < s) (batch_sizes batches_c) →
  shape0 t <= cur bbox_id + sum_list (batch_sizes batches_c) →
  (batches_c ≠ [] →
   cur bbox_id + sum_list (batch_sizes batches_c) <= shape0 t) →
  ∃ st' outs cur',
    kdiff_step_calls forward_func args calls st = (st', Ok outs)
    ∧ stepping st' pos neg args cur'
    ∧ cur' bbox_id
      = cur bbox_id + sum_list (batch_sizes (batches_c ++ batches_u))
    ∧ self st' = self st
    ∧ all_pos_cond st' = all_pos_cond st
    ∧ all_neg_cond st' = all_neg_cond st
    ∧ sampler_step st' = sampler_step st
    ∧ batch_cond_uncond st' = batch_cond_uncond st
    ∧ forwarded_for bbox_id (events st') =
        forwarded_for bbox_id (events st)
        ++ ((fun s => [s]) <$> chunks t (cur bbox_id) (batch_sizes batches_c))
        ++ ((fun _ => [u]) <$> batches_u).
Proof.
  induction calls as [|[j [x_tile sigma_in]] rest IH];
    intros st cur batches_c batches_u step t u Hinv Hrange Hcalls Hsizes
      Hreach Hstop.
  - cbn in Hcalls. symmetry in Hcalls.
    apply app_eq_nil in Hcalls as [-> ->].
    exists st, [], cur. cbn. rewrite Z.add_0_r, app_nil_r. by simpl_M.
  - apply Forall_cons in Hrange as [Hj Hrange]. cbn [fst] in Hj.
    destruct (kdiff_custom_forward_stepping st pos neg args cur j x_tile
                sigma_in Hinv Hj)
      as (st1 & img & size & Hrun & Hinv1 & Hself & Hp & Hn & Hs & Hb & Hev).
    set (len := Z.of_nat (length x_tile)) in *.
    set (cur1 := advance cur j len) in *.
    assert (Hrange1 : Forall (fun c =>
      0 <= fst c < Z.of_nat (length (Self.custom_bboxes (self st1)))) rest)
      by (by rewrite Hself).
    cbn [kdiff_step_calls]. unfold mbind at 1, M_bind at 1. rewrite Hrun.
    assert (Hfw1 : forwarded_for bbox_id (events st1)
      = forwarded_for bbox_id (events st)
        ++ (if bool_decide (j = bbox_id)
            then [k_c_crossattn (replay_call
                    (snd (reconstruct_multicond_batch
                            (ra_custom_cond (args j)) step))
                    (reconstruct_cond_batch (ra_uncond (args j)) step)
                    img (cur j) x_tile sigma_in)]
            else [])).
    { unfold forwarded_for. rewrite Hev. apply forwarded_from_call. }
    clear Hev.
    rewrite calls_of_cons in Hcalls.
    destruct (Z.eqb_spec j bbox_id) as [->|Hne].
    + (* a call of the region itself *)
      rewrite bool_decide_eq_true_2 in Hfw1 by done. fold t u in Hfw1.
      assert (Hcur1 : cur1 bbox_id = cur bbox_id + len).
      { unfold cur1, advance. by rewrite Z.eqb_refl. }
      destruct batches_c as [|[x' s'] bc'].
      * (* the conditional entries are used up *)
        destruct batches_u as [|[x' s'] bu']; [done|].
        cbn [app] in Hcalls. injection Hcalls as <- <- Hrest.
        cbn [batch_sizes fmap list_fmap sum_list] in Hreach.
        destruct (IH st1 cur1 [] bu') as (st' & outs & cur' & Hrun' & Hinv'
          & Hcur' & Hself' & Hp' & Hn' & Hs' & Hb' & Hfw');
          [done | done | done | done
          | cbn; rewrite Hs; fold step t; lia | done |].
        exists st', (predict (replay_call t u img (cur bbox_id) x_tile
                                sigma_in) :: outs), cur'.
        unfold mbind at 1, M_bind at 1. rewrite Hrun'. simpl_M.
        split; [done|]. split; [done|].
        split.
        { rewrite Hcur', Hcur1. cbn [app]. rewrite batch_sizes_cons.
          cbn [sum_list batch_sizes fmap list_fmap]. fold len. lia. }
        repeat (split; [congruence|]).
        rewrite Hfw', Hfw1, Hs. fold step t u.
        cbn [batch_sizes fmap list_fmap chunks app].
        rewrite <- app_assoc. f_equal. unfold replay_call. cbn.
        destruct (Z.ltb_spec (cur bbox_id) (shape0 t)); [lia|]. done.
      * (* a slice of the conditional entries *)
        cbn [app] in Hcalls. injection Hcalls as <- <- Hrest.
        rewrite batch_sizes_cons in Hsizes, Hreach, Hstop.
        apply Forall_cons in Hsizes as [Hx Hsizes].
        cbn [sum_list] in Hreach, Hstop. fold len in Hx, Hreach, Hstop.
        specialize (Hstop ltac:(done)).
        pose proof (sum_list_nonneg _ Hsizes) as Hrest_nonneg.
        destruct (IH st1 cur1 bc' batches_u) as (st' & outs & cur' & Hrun'
          & Hinv' & Hcur' & Hself' & Hp' & Hn' & Hs' & Hb' & Hfw');
          [done | done | done | done
          | cbn; rewrite Hs; fold step t; lia
          | intros _; cbn; rewrite Hs; fold step t; lia |].
        exists st', (predict (replay_call t u img (cur bbox_id) x_tile
                                sigma_in) :: outs), cur'.
        unfold mbind at 1, M_bind at 1. rewrite Hrun'. simpl_M.
        split; [done|]. split; [done|].
        split.
        { rewrite Hcur', Hcur1. cbn [app]. rewrite !batch_sizes_cons.
          cbn [sum_list]. fold len. lia. }
        repeat (split; [congruence|]).
        rewrite Hfw', Hfw1, Hs, Hcur1. fold step t u. rewrite batch_sizes_cons.
        cbn [chunks fmap list_fmap app]. fold len.
        rewrite <- app_assoc. f_equal. unfold replay_call. cbn. fold len.
        destruct (Z.ltb_spec (cur bbox_id) (shape0 t)); [done|lia].
    + (* a call of another region *)
      rewrite bool_decide_eq_false_2, app_nil_r in Hfw1 by done.
      assert (Hcur1 : cur1 bbox_id = cur bbox_id).
      { unfold cur1, advance. destruct (Z.eqb_spec bbox_id j); [lia|done]. }
      destruct (IH st1 cur1 batches_c batches_u) as (st' & outs & cur'
        & Hrun' & Hinv' & Hcur' & Hself' & Hp' & Hn' & Hs' & Hb' & Hfw');
        [done | done | done | done
        | cbn; rewrite Hs, Hcur1; fold step t; lia
        | intros Hc; cbn; rewrite Hs, Hcur1; fold step t; by apply Hstop |].
      eexists st', (_ :: outs), cur'.
      unfold mbind at 1, M_bind at 1. rewrite Hrun'. simpl_M.
      split; [done|]. split; [done|].
      split; [by rewrite Hcur', Hcur1|].
      repeat (split; [congruence|]).
      rewrite Hfw', Hfw1, Hs, Hcur1. done.
Qed.

(** C1, as the code has it: the calls of one sampler step, with
    ragged whole-canvas conditioning and a model that is not an
    image-editing one, each naming its region, the calls of the
    regions in any order.  For every region the calls of that region
    first hand over its [k] cached conditional entries in consecutive
    slices [t[a:a+s]], the region's own cursor [a] advancing by each
    batch size [s] of the region and by nothing else, none repeated
    and none left out; every later call of the region in the step
    receives the whole cached unconditional tensor, so that the [m]
    unconditional entries are handed over exactly once when the
    unconditional part is one call.  What the next step needs is
    kept, so the same holds again after the next step boundary. *)
Theorem kdiff_ragged_replay st pos neg args calls bbox_id
    batches_c batches_u :
  let step := sampler_step st in
  let n := Z.of_nat (length (Self.custom_bboxes (self st))) in
  let t :=
    snd (reconstruct_multicond_batch (ra_custom_cond (args bbox_id)) step) in
  let u := reconstruct_cond_batch (ra_uncond (args bbox_id)) step in
  Self.kdiff_step (self st) ≠ step →
  all_pos_cond st = Some pos →
  all_neg_cond st = Some neg →
  shape1 (snd (reconstruct_multicond_batch pos step))
    ≠ shape1 (reconstruct_cond_batch neg step) →
  Self.is_edit_model (self st) = Some false →
  0 <= step →
  Forall (fun c => 0 <= fst c < n) calls →
  calls_of bbox_id calls = batches_c ++ batches_u →
  Forall (fun s => 0 < s) (batch_sizes batches_c) →
  sum_list (batch_sizes batches_c) = shape0 t →
  ∃ st' outs,
    kdiff_step_calls forward_func args calls st = (st', Ok outs)
    ∧ forwarded_for bbox_id (events st') =
        forwarded_for bbox_id (events st)
        ++ ((fun s => [s]) <$> chunks t 0 (batch_sizes batches_c))
        ++ ((fun _ => [u]) <$> batches_u)
    ∧ concat (chunks t 0 (batch_sizes batches_c)) = t
    ∧ (length batches_u = 1%nat →
       consumed_for bbox_id (events st')
       = consumed_for bbox_id (events st) ++ t ++ u)
    ∧ (calls ≠ [] → 0 <= bbox_id < n →
       ∃ cursors,
         a (attrs st') = Some cursors
         ∧ cursors !! Z.to_nat bbox_id
           = Some (sum_list (batch_sizes (batches_c ++ batches_u))))
    ∧ all_pos_cond st' = Some pos
    ∧ all_neg_cond st' = Some neg
    ∧ Self.is_edit_model (self st') = Some false
    ∧ Self.custom_bboxes (self st') = Self.custom_bboxes (self st)
    ∧ (calls ≠ [] → Self.kdiff_step (self st') = step).
Proof.
  intros step n t u Hstep Hpos Hneg Hragged Hedit Hnonneg Hrange Hcalls
    Hsizes Hsum.
  assert (Hconcat : concat (chunks t 0 (batch_sizes batches_c)) = t).
  { rewrite chunks_concat; [|lia|].
    - rewrite Hsum. cbn. apply take_ge. unfold shape0. lia.
    - eapply Forall_impl; [exact Hsizes|]. intros; cbn in *; lia. }
  assert (Hrun : ∃ st' outs,
    kdiff_step_calls forward_func args calls st = (st', Ok outs)
    ∧ forwarded_for bbox_id (events st') =
        forwarded_for bbox_id (events st)
        ++ ((fun s => [s]) <$> chunks t 0 (batch_sizes batches_c))
        ++ ((fun _ => [u]) <$> batches_u)
    ∧ (calls ≠ [] → 0 <= bbox_id < n →
       ∃ cursors,
         a (attrs st') = Some cursors
         ∧ cursors !! Z.to_nat bbox_id
           = Some (sum_list (batch_sizes (batches_c ++ batches_u))))
    ∧ all_pos_cond st' = Some pos
    ∧ all_neg_cond st' = Some neg
    ∧ Self.is_edit_model (self st') = Some false
    ∧ Self.custom_bboxes (self st') = Self.custom_bboxes (self st)
    ∧ (calls ≠ [] → Self.kdiff_step (self st') = step)).
  { destruct calls as [|call rest] eqn:Hall.
    - cbn in Hcalls. symmetry in Hcalls.
      apply app_eq_nil in Hcalls as [-> ->].
      exists st, []. cbn. rewrite app_nil_r.
      split; [by simpl_M|]. repeat (split; [done|]). done.
    - rewrite <- Hall in *.
      destruct (kdiff_step_reset_boundary st pos neg args Hstep Hpos Hneg
                  Hragged Hedit Hnonneg)
        as (st0 & Hreset & Hinv0 & Hself0 & Hp0 & Hn0 & Hs0 & Hb0 & Hev0).
      assert (kdiff_step_calls forward_func args calls st
              = kdiff_step_calls forward_func args calls st0) as ->.
      { rewrite Hall. destruct call as [j [x_tile sigma_in]].
        cbn [kdiff_step_calls]. unfold mbind at 1 3, M_bind at 1 3.
        unfold kdiff_custom_forward. unfold mbind at 1 4, M_bind at 1 4.
        by rewrite Hreset, (kdiff_step_reset_stepping _ _ _ _ _ Hinv0). }
      destruct (kdiff_step_calls_stepping pos neg args bbox_id calls st0
                  (fun _ => 0) batches_c batches_u Hinv0)
        as (st' & outs & cur' & Hrun & Hinv' & Hcur' & Hself' & Hp' & Hn'
            & Hs' & Hb' & Hfw).
      { rewrite Hself0. exact Hrange. }
      { done. }
      { done. }
      { rewrite Hs0. fold step t. lia. }
      { intros _. rewrite Hs0. fold step t. lia. }
      exists st', outs. split; [done|].
      rewrite Hs0, Hev0 in Hfw. fold step t u in Hfw.
      split; [exact Hfw|].
      split.
      { intros _ Hid.
        destruct Hinv' as (_ & _ & _ & _ & markers & dt & du & di & cursors
          & Hattrs & _ & _ & Hall').
        rewrite Hself', Hself0 in Hall'. cbn in Hall'.
        destruct (Hall' (Z.to_nat bbox_id) ltac:(lia)) as [Hc _].
        exists cursors. rewrite Hattrs. split; [done|].
        rewrite Hc, Z2Nat.id, Hcur' by lia. f_equal; lia. }
      rewrite Hp', Hn', Hself', Hp0, Hn0, Hself0. cbn.
      by rewrite Hpos, Hneg, Hedit. }
  destruct Hrun as (st' & outs & Hcalls' & Hfw & Hrest).
  exists st', outs. split; [done|]. split; [done|]. split; [done|].
  split; [|exact Hrest].
  intros Hone. unfold consumed_for. rewrite Hfw.
  destruct batches_u as [|b [|b' rest]]; try done. cbn [fmap list_fmap].
  rewrite !concat_app. cbn. rewrite app_nil_r. do 2 f_equal.
  rewrite <- Hconcat at 2. clear.
  induction (chunks t 0 (batch_sizes batches_c)); cbn; [done|].
  by rewrite IHl.
Qed.

End KdiffReplay.

(** ** The dispatch on concrete inputs *)

(** Two prompts joined by AND are rejected before any call. *)
Lemma ddim_composite_rejected_witness :
  snd (ddim_custom_forward (list Latent) echo_ddim [100] CondTensor
         example_and_cond example_uncond example_region [1] example_state)
    = Raise (AssertionError and_message)
  ∧ events (fst (ddim_custom_forward (list Latent) echo_ddim [100] CondTensor
         example_and_cond example_uncond example_region [1] example_state))
    = [].
Proof.
  apply (ddim_composite_rejected (list Latent) echo_ddim [100] CondTensor
           example_and_cond example_uncond example_region [1] example_state).
  - repeat constructor; discriminate.
  - vm_compute. constructor. lia.
Defined.

(** Two unconditional tokens against three positive ones: every entry
    gets one copy of its last token. *)
Lemma ddim_uncond_length_matched_witness :
  ∃ c u',
    ddim_calls (events (fst (ddim_custom_forward (list Latent) echo_ddim [100]
       CondTensor example_cond example_uncond example_region [1]
       example_state))) = [c]
    ∧ crossattn_of (d_unconditional_conditioning c) = u'
    ∧ u' = [[20; 21; 21]; [30; 31; 31]].
Proof.
  destruct (ddim_uncond_length_matched (list Latent) echo_ddim [100] CondTensor
              example_cond example_uncond example_region [1] example_state)
    as (c & u' & Hcalls & _ & _ & Hu & Hpad & _).
  - repeat constructor.
  - repeat constructor.
  - vm_compute. reflexivity.
  - exists c, u'. split; [exact Hcalls|]. split; [exact Hu|].
    specialize (Hpad ltac:(vm_compute; reflexivity)).
    vm_compute in Hpad.
    inversion Hpad as [|r1 r1' l1 l1' (v1 & Hv1 & ->) Hpad1]; subst.
    inversion Hpad1 as [|r2 r2' l2 l2' (v2 & Hv2 & ->) Hpad2]; subst.
    inversion Hpad2; subst.
    injection Hv1 as <-. injection Hv2 as <-. reflexivity.
Defined.

(** The sampler moves from step 0 to step 3 with one region. *)
Lemma kdiff_step_reset_clears_witness :
  ∃ st',
    kdiff_step_reset (sampler_advance 3 example_state) = (st', Ok tt)
    ∧ tensor (attrs st') = Some ∅
    ∧ kdiff_step_bbox (attrs st') = Some [-1]
    ∧ a (attrs st') = Some [0].
Proof.
  destruct (kdiff_step_reset_clears echo_forward (sampler_advance 3 example_state)
              ([[(0, fone)]], [[1; 2; 3]]) [[7; 8]])
    as (st' & Hrun & _ & Ht & _ & _ & Hm & _ & Ha & _).
  - vm_compute. discriminate.
  - reflexivity.
  - reflexivity.
  - exists st'. repeat split; assumption.
Defined.

(** Two regions and two sampler steps in a row.  At step 0 the calls
    of the two regions alternate; the second region, which is not
    the one whose call opens the step, receives its two conditional
    entries in two calls of batch size 1 and its unconditional entry
    in a third; after the sampler has moved to step 1 the same calls
    hand over the same entries again. *)
Lemma kdiff_ragged_replay_witness :
  ∃ st1 outs1 st2 outs2,
    kdiff_step_calls echo_forward (example_args CondTensor)
      [(0, ([100], [1])); (1, ([200], [1])); (1, ([201], [1]));
       (0, ([101; 102], [1; 1])); (1, ([202], [1]))] example_two_state
      = (st1, Ok outs1)
    ∧ consumed_for 1 (events st1) = [[40; 41; 42]; [50; 51; 52]; [60; 61]]
    ∧ kdiff_step_calls echo_forward (example_args CondTensor)
        [(0, ([100], [1])); (1, ([200], [1])); (1, ([201], [1]));
         (0, ([101; 102], [1; 1])); (1, ([202], [1]))]
        (sampler_advance 1 st1)
      = (st2, Ok outs2)
    ∧ consumed_for 1 (events st2)
      = [[40; 41; 42]; [50; 51; 52]; [60; 61];
         [40; 41; 42]; [50; 51; 52]; [60; 61]].
Proof.
  destruct (kdiff_ragged_replay k_x example_two_state
              ([[(0, fone)]], [[1; 2; 3]]) [[7; 8]] (example_args CondTensor)
              [(0, ([100], [1])); (1, ([200], [1])); (1, ([201], [1]));
               (0, ([101; 102], [1; 1])); (1, ([202], [1]))]
              1 [([200], [1]); ([201], [1])] [([202], [1])])
    as (st1 & outs1 & Hrun1 & _ & _ & Hcons1 & _ & Hpos1 & Hneg1 & Hedit1
        & Hboxes1 & Hstep1).
  - vm_compute. discriminate.
  - reflexivity.
  - reflexivity.
  - vm_compute. discriminate.
  - reflexivity.
  - vm_compute. discriminate.
  - repeat (constructor; [vm_compute; split; [discriminate | reflexivity]|]).
    constructor.
  - reflexivity.
  - repeat constructor.
  - reflexivity.
  - specialize (Hcons1 eq_refl). specialize (Hstep1 ltac:(discriminate)).
    destruct (kdiff_ragged_replay k_x (sampler_advance 1 st1)
                ([[(0, fone)]], [[1; 2; 3]]) [[7; 8]]
                (example_args CondTensor)
                [(0, ([100], [1])); (1, ([200], [1])); (1, ([201], [1]));
                 (0, ([101; 102], [1; 1])); (1, ([202], [1]))]
                1 [([200], [1]); ([201], [1])] [([202], [1])])
      as (st2 & outs2 & Hrun2 & _ & _ & Hcons2 & _).
    + cbn. rewrite Hstep1. vm_compute. discriminate.
    + exact Hpos1.
    + exact Hneg1.
    + vm_compute. discriminate.
    + exact Hedit1.
    + vm_compute. discriminate.
    + cbn [sampler_advance self]. rewrite Hboxes1.
      repeat (constructor; [vm_compute; split; [discriminate | reflexivity]|]).
      constructor.
    + reflexivity.
    + repeat constructor.
    + reflexivity.
    + exists st1, outs1, st2, outs2.
      split; [exact Hrun1|]. split; [exact Hcons1|]. split; [exact Hrun2|].
      rewrite (Hcons2 eq_refl). cbn [sampler_advance events].
      rewrite Hcons1. reflexivity.
Defined.

(** C1 as stated does not hold: with one conditional entry, two
    unconditional entries and three calls of batch size one, the two
    calls of the unconditional part each receive both unconditional
    entries. *)
Lemma ragged_replay_as_specified_fails : ¬ ragged_replay_as_specified.
Proof.
  intros Hclaim.
  specialize (Hclaim k_x example_state ([[(0, fone)]], [[1; 2; 3]]) [[7; 8]]
                CondTensor example_cond example_uncond 0 example_region
                [([100], [1])] [([101], [1]); ([102], [1])]).
  cbv zeta in Hclaim.
  assert (sampler_step example_state = 0) as Hstep by reflexivity.
  specialize (Hclaim
    ltac:(vm_compute; discriminate) eq_refl eq_refl
    ltac:(vm_compute; discriminate) eq_refl
    ltac:(vm_compute; split; [discriminate | reflexivity])
    ltac:(vm_compute; discriminate)
    ltac:(repeat constructor) eq_refl
    ltac:(repeat constructor) eq_refl).
  vm_compute in Hclaim. discriminate.
Qed.

(** ** Tile batches, region tuples and the weight map on concrete inputs *)

(** C2 (defect): the constructor computes the balanced batch size
    [ceil(n / num_batches)] and stores it in [tile_batch_size], but cuts
    the batches with the requested size.  A canvas of 640 by 128 pixels
    with tiles of 16 by 16 cells has 5 tiles; with a requested batch
    size of 4 the batches have 4 and 1 tiles, while the stored batch
    size is 3. *)
Theorem batches_not_rebalanced :
  ∃ s,
    TiledDiffusion_init uniform_weights "MultiDiffusion" "Euler a"
      640 128 1 20 16 16 0 4 false = Ok s
    ∧ Self.num_batches s = 2
    ∧ Self.tile_batch_size s = 3
    ∧ length <$> Self.batched_bboxes s = [4; 1]%nat.
Proof.
  eexists. split; [vm_compute; reflexivity|].
  repeat split; vm_compute; reflexivity.
Qed.

(** C3 (defect): the loop of [init_custom_bbox] stops before the last
    tuple.  A single enabled tuple with valid geometry yields no region
    at all, on every object; the same tuple followed by one further
    value is read and kept. *)
Theorem init_custom_bbox_skips_last_tuple (self : Self.t)
    (draw_background : bool) :
  kept example_controls = true
  ∧ init_custom_bbox self draw_background example_controls =
      (Self.set_custom_bboxes [] self, Ok tt)
  ∧ length (Self.custom_bboxes (fst (init_custom_bbox example_self
      draw_background (example_controls ++ [VBool false])))) = 1%nat.
Proof.
  split; [reflexivity|]. split; [reflexivity|].
  destruct draw_background; vm_compute; reflexivity.
Qed.

(** C5 (defect): on a canvas of 1232 by 256 pixels (154 by 32 cells)
    with tiles of 32 by 32 cells and overlap 12, the last tile column
    starts at [int(7 * (122 / 7)) = 121], because the binary64 product
    is just below 122; [121 + 32 < 154], so the clamp does not fire and
    canvas column 153 is under no tile: with the uniform kernel its
    weight stays 0. *)
Theorem weight_map_has_uncovered_column :
  ∃ s,
    TiledDiffusion_init uniform_weights "MultiDiffusion" "Euler a"
      1232 256 1 20 32 32 12 1 false = Ok s
    ∧ Self.w s = 154
    ∧ BBox.x <$> concat (Self.batched_bboxes s)
      = [0; 17; 34; 52; 69; 87; 104; 121]
    ∧ Forall (fun b => BBox.in_slice b 32 154 0 153 = false)
        (concat (Self.batched_bboxes s))
    ∧ (fun row : list float32 => row !! 153%nat) <$> Self.weights s
      = replicate 32 (Some zero32).
Proof.
  eexists. split; [vm_compute; reflexivity|].
  split; [reflexivity|]. split; [vm_compute; reflexivity|].
  split; [|vm_compute; reflexivity].
  vm_compute. repeat constructor.
Qed.

(** The last tuple is never read, whatever the number of tuples: two
    lists of control values that differ only in their last nine values
    give the same regions. *)
Lemma slice_app_l {A} (l1 l2 : list A) (lo hi : Z) :
  0 <= lo → 0 <= hi <= Z.of_nat (length l1) →
  slice (l1 ++ l2) lo hi = slice l1 lo hi.
Proof.
  intros Hlo Hhi. rewrite !slice_take_drop by lia.
  destruct (Z.le_gt_cases hi lo).
  - by replace (Z.to_nat hi - Z.to_nat lo)%nat with 0%nat by lia.
  - rewrite drop_app_le by lia. rewrite take_app_le; [done|].
    rewrite length_drop. lia.
Qed.

Lemma custom_bbox_loop_ext (self_w self_h : Z) (s1 s2 : list pyval)
    (starts : list Z) (acc : list CustomBBox.t) :
  Forall (fun i => slice s1 i (i + 9) = slice s2 i (i + 9)) starts →
  custom_bbox_loop self_w self_h s1 starts acc
  = custom_bbox_loop self_w self_h s2 starts acc.
Proof.
  intros Hstarts. revert acc.
  induction Hstarts as [|i starts Hi Hstarts IH]; intros acc; cbn; [done|].
  rewrite Hi. destruct (region_of_controls _ _ _) as [[b|]|e]; auto.
Qed.

Lemma init_custom_bbox_last_tuple_unread (self : Self.t) (draw_background : bool)
    (states tuple tuple' : list pyval) (n : nat) :
  length states = (9 * n)%nat →
  length tuple = 9%nat →
  length tuple' = 9%nat →
  init_custom_bbox self draw_background (states ++ tuple)
  = init_custom_bbox self draw_background (states ++ tuple').
Proof.
  intros Hstates Htuple Htuple'. unfold init_custom_bbox.
  rewrite !length_app, Htuple, Htuple'.
  rewrite (custom_bbox_loop_ext _ _ (states ++ tuple) (states ++ tuple')); [done|].
  apply Forall_forall. intros i Hi. unfold range3 in Hi.
  apply list_elem_of_fmap in Hi as (j & -> & Hj%elem_of_seq).
  assert (Z.of_nat j < Z.of_nat n) as Hjn.
  { destruct Hj as [_ Hj]. cbn in Hj.
    replace (Z.of_nat (length states + 9) - 9 - 0 + 9 - 1)
      with (8 + Z.of_nat n * 9) in Hj by lia.
    rewrite Z.div_add in Hj by lia. change (8 / 9) with 0 in Hj. lia. }
  rewrite !slice_app_l by lia. done.
Qed.

(** ** The background flag and the assertion of [init] *)

Lemma TiledDiffusion_init_fresh get_global_weights method sampler_name
    p_width p_height p_batch_size p_steps tile_w tile_h overlap
    tile_batch_size causal_layers s :
  TiledDiffusion_init get_global_weights method sampler_name p_width p_height
    p_batch_size p_steps tile_w tile_h overlap tile_batch_size causal_layers
    = Ok s →
  Self.draw_background s = true
  ∧ Self.custom_bboxes s = []
  ∧ Self.pbar s = None.
Proof.
  unfold TiledDiffusion_init. intros Hinit.
  destruct (split_views _ _ _ _ _ _) as [[bboxes weights]|]; [|done].
  cbn in Hinit.
  destruct (batch_bboxes _ _) as [[[nb ob] bb]|]; [|done].
  cbn in Hinit. by injection Hinit as <-.
Qed.

Lemma init_custom_bbox_frame (self : Self.t) draw_background states :
  let s1 := fst (init_custom_bbox self draw_background states) in
  Self.num_batches s1 = Self.num_batches self
  ∧ Self.pbar s1 = Self.pbar self
  ∧ (Self.draw_background s1 = Self.draw_background self
     ∨ Self.draw_background s1 = draw_background ∧ Self.custom_bboxes s1 ≠ []).
Proof.
  unfold init_custom_bbox.
  destruct (custom_bbox_loop _ _ _ _ _) as [boxes [[]|e]]; cbn; [|by auto].
  destruct boxes as [|b boxes]; cbn; [by auto|].
  destruct draw_background; cbn; auto 10.
Qed.

(** C10, as the code has it: the first call of [init_custom_bbox] on a
    newly constructed object leaves the background switched on unless
    at least one region was built; when the constructor made at least
    one tile batch, [init] then passes its "No region to sample"
    assertion. *)
Theorem first_init_custom_bbox_keeps_a_region get_global_weights
    method sampler_name p_width p_height p_batch_size p_steps tile_w tile_h
    overlap tile_batch_size causal_layers s0
    draw_background bbox_control_states edit_model sampling_steps x_in_shape :
  TiledDiffusion_init get_global_weights method sampler_name p_width p_height
    p_batch_size p_steps tile_w tile_h overlap tile_batch_size causal_layers
    = Ok s0 →
  0 < Self.num_batches s0 →
  let s1 := fst (init_custom_bbox s0 draw_background bbox_control_states) in
  (Self.draw_background s1 = false → Self.custom_bboxes s1 ≠ [])
  ∧ snd (init s1 edit_model sampling_steps x_in_shape) = Ok tt.
Proof.
  intros Hinit Hbatches s1.
  destruct (TiledDiffusion_init_fresh _ _ _ _ _ _ _ _ _ _ _ _ _ Hinit)
    as (Hbg & Hnone & Hpbar).
  destruct (init_custom_bbox_frame s0 draw_background bbox_control_states)
    as (Hnb & Hpb & Hdb). fold s1 in Hnb, Hpb, Hdb.
  assert (Hregion : Self.draw_background s1 = false → Self.custom_bboxes s1 ≠ []).
  { intros Hoff. destruct Hdb as [Hdb|[_ Hdb]]; [congruence | done]. }
  split; [exact Hregion|].
  unfold init.
  set (s1' := if Self.is_kdiff s1 && _ then _ else s1).
  assert (Self.pbar s1' = None ∧ Self.num_batches s1' = Self.num_batches s0
          ∧ Self.draw_background s1' = Self.draw_background s1
          ∧ Self.custom_bboxes s1' = Self.custom_bboxes s1)
    as (Hp' & Hn' & Hd' & Hc').
  { subst s1'. destruct (Self.is_kdiff s1 && _); cbn; repeat split; congruence. }
  rewrite Hp', Hn', Hd', Hc'.
  assert (0 < (if Self.draw_background s1 then Self.num_batches s0 else 0)
              + Z.of_nat (length (Self.custom_bboxes s1))) as Htotal.
  { destruct (Self.draw_background s1); [lia|].
    specialize (Hregion eq_refl). destruct (Self.custom_bboxes s1); [done|].
    cbn [length]. lia. }
  destruct (Z.ltb_spec 0 ((if Self.draw_background s1
       then Self.num_batches s0 else 0)
       + Z.of_nat (length (Self.custom_bboxes s1)))); [|lia].
  by destruct (Self.x_buffer _).
Qed.

(** A new object on a canvas of 80 by 16 cells, then one call with a
    single tuple (which is not read) and the background switched off:
    the background stays on and [init] passes. *)
Lemma first_init_custom_bbox_keeps_a_region_witness :
  ∃ s0,
    TiledDiffusion_init uniform_weights "MultiDiffusion" "Euler a"
      640 128 1 20 16 16 0 4 false = Ok s0
    ∧ snd (init (fst (init_custom_bbox s0 false example_controls))
             false 20 [1; 4; 16; 80]) = Ok tt.
Proof.
  eexists. split; [vm_compute; reflexivity|].
  refine (proj2 (first_init_custom_bbox_keeps_a_region uniform_weights
    "MultiDiffusion" "Euler a" 640 128 1 20 16 16 0 4 false _
    false example_controls false 20 [1; 4; 16; 80] _ _)).
  - vm_compute; reflexivity.
  - vm_compute; reflexivity.
Defined.

(** C10 as stated does not hold: a call that builds a region and
    switches the background off, followed by a call that builds no
    region, leaves the background off with no region, and [init] stops
    on its assertion. *)
Lemma background_off_only_with_regions_fails :
  ¬ background_off_only_with_regions.
Proof.
  intros Hclaim.
  assert (∃ s0,
    TiledDiffusion_init uniform_weights "MultiDiffusion" "Euler a"
      640 128 1 20 16 16 0 4 false = Ok s0
    ∧ Self.draw_background (fst (init_custom_bbox (fst (init_custom_bbox s0
        false (example_controls ++ example_controls))) false [])) = false
    ∧ Self.custom_bboxes (fst (init_custom_bbox (fst (init_custom_bbox s0
        false (example_controls ++ example_controls))) false [])) = []
    ∧ snd (init (fst (init_custom_bbox (fst (init_custom_bbox s0
        false (example_controls ++ example_controls))) false []))
        false 20 [1; 4; 16; 80]) = Raise (AssertionError no_region_message))
    as (s0 & Hinit & Hoff & Hnone & Hraise).
  { eexists. split; [vm_compute; reflexivity|].
    repeat split; vm_compute; reflexivity. }
  destruct (Hclaim uniform_weights _
    (configured_regions _ _ false []
      (configured_regions _ _ false (example_controls ++ example_controls)
        (configured_new _ _ _ _ _ _ _ _ _ _ _ _ _ Hinit))))
    as [Hregion Hassert].
  by apply Hregion.
Qed.

(** ** Tile offsets: [split_views] *)

Section SplitViews.

Variable get_global_weights : Z → Z → float32.

Lemma offset_of_bound k step tile size x :
  offset_of k step tile size = Ok x → x + tile <= size.
Proof.
  unfold offset_of. destruct (mul_int_float k step) as [p|]; [|done]. cbn.
  destruct (int_of_float p) as [v|]; [|done]. cbn.
  intros [= <-]. destruct (Z.leb_spec size (v + tile)); lia.
Qed.

(** The inner loop of [split_views] over the first [n] columns of
    one tile row. *)
Lemma split_views_row (w tile_w tile_h y : Z) (dx : float) (n : nat)
    (bl0 bl : list BBox.t) (cnt0 cnt : list (list float32)) :
  foldM (fun '(bbox_list, count) col =>
      px ← mul_int_float col dx;
      x ← int_of_float px;
      let x := if w <=? x + tile_w then w - tile_w else x in
      let bbox := BBox.mk x y tile_w tile_h in
      Ok (bbox_list ++ [bbox], add_weights get_global_weights count bbox))
    (range (Z.of_nat n)) (bl0, cnt0) = Ok (bl, cnt) →
  ∃ new,
    bl = bl0 ++ new
    ∧ length new = n
    ∧ ∀ c : nat, (c < n)%nat →
        ∃ x, offset_of (Z.of_nat c) dx tile_w w = Ok x
             ∧ new !! c = Some (BBox.mk x y tile_w tile_h).
Proof.
  revert bl cnt. induction n as [|n IH]; intros bl cnt.
  - cbn. intros [= <- <-]. exists []. rewrite app_nil_r.
    split; [done|]. split; [done|]. intros c Hc. lia.
  - rewrite Nat2Z.inj_succ, <- Z.add_1_r, range_succ, foldM_app by lia.
    destruct (foldM _ (range (Z.of_nat n)) (bl0, cnt0)) as [[bl1 cnt1]|] eqn:E;
      [|done].
    destruct (IH _ _ eq_refl) as (new & -> & Hlen & Hnew).
    cbn [mbind result_bind foldM].
    destruct (mul_int_float (Z.of_nat n) dx) as [px|] eqn:Epx; [|done]. cbn.
    destruct (int_of_float px) as [x|] eqn:Ex; [|done]. cbn.
    intros [= <- <-].
    exists (new ++ [BBox.mk (if w <=? x + tile_w then w - tile_w else x)
                      y tile_w tile_h]).
    rewrite app_assoc, length_app, Hlen. cbn [length].
    split; [done|]. split; [lia|].
    intros c Hc. destruct (decide (c = n)) as [->|Hne].
    + eexists. split.
      * unfold offset_of. rewrite Epx. cbn. rewrite Ex. cbn. reflexivity.
      * rewrite lookup_app_r by lia. by rewrite Hlen, Nat.sub_diag.
    + destruct (Hnew c ltac:(lia)) as (x' & Hx' & Hlook).
      exists x'. split; [done|]. by rewrite lookup_app_l by lia.
Qed.

Lemma range_to_nat (n : Z) : range n = range (Z.of_nat (Z.to_nat n)).
Proof. unfold range. by rewrite Nat2Z.id. Qed.

(** The outer loop of [split_views] over the first [n] tile rows. *)
Lemma split_views_rows (w h tile_w tile_h : Z) (dx dy : float) (ncols n : nat)
    (bl0 bl : list BBox.t) (cnt0 cnt : list (list float32)) :
  foldM (fun acc row =>
      py ← mul_int_float row dy;
      y ← int_of_float py;
      let y := if h <=? y + tile_h then h - tile_h else y in
      foldM (fun '(bbox_list, count) col =>
          px ← mul_int_float col dx;
          x ← int_of_float px;
          let x := if w <=? x + tile_w then w - tile_w else x in
          let bbox := BBox.mk x y tile_w tile_h in
          Ok (bbox_list ++ [bbox], add_weights get_global_weights count bbox))
        (range (Z.of_nat ncols)) acc)
    (range (Z.of_nat n)) (bl0, cnt0) = Ok (bl, cnt) →
  ∃ new,
    bl = bl0 ++ new
    ∧ length new = (n * ncols)%nat
    ∧ ∀ r c : nat, (r < n)%nat → (c < ncols)%nat →
        ∃ x y, offset_of (Z.of_nat c) dx tile_w w = Ok x
               ∧ offset_of (Z.of_nat r) dy tile_h h = Ok y
               ∧ new !! (r * ncols + c)%nat = Some (BBox.mk x y tile_w tile_h).
Proof.
  revert bl cnt. induction n as [|n IH]; intros bl cnt.
  - cbn. intros [= <- <-]. exists []. rewrite app_nil_r.
    split; [done|]. split; [done|]. intros r c Hr. lia.
  - rewrite Nat2Z.inj_succ, <- Z.add_1_r, range_succ, foldM_app by lia.
    destruct (foldM _ (range (Z.of_nat n)) (bl0, cnt0)) as [[bl1 cnt1]|] eqn:E;
      [|done].
    destruct (IH _ _ eq_refl) as (new & -> & Hlen & Hnew).
    cbn [mbind result_bind foldM].
    destruct (mul_int_float (Z.of_nat n) dy) as [py|] eqn:Epy; [|done]. cbn.
    destruct (int_of_float py) as [y|] eqn:Ey; [|done]. cbn.
    set (y' := if h <=? y + tile_h then h - tile_h else y).
    destruct (foldM _ (range (Z.of_nat ncols)) (bl0 ++ new, cnt1))
      as [[bl2 cnt2]|] eqn:Erow; [|done].
    cbn. intros [= <- <-].
    destruct (split_views_row _ _ _ _ _ _ _ _ _ _ Erow)
      as (row & -> & Hrowlen & Hrow).
    exists (new ++ row). rewrite app_assoc, length_app, Hlen, Hrowlen.
    split; [done|]. split; [lia|].
    intros r c Hr Hc. destruct (decide (r = n)) as [->|Hne].
    + destruct (Hrow c Hc) as (x & Hx & Hlook).
      exists x, y'. split; [done|]. split.
      * unfold offset_of. rewrite Epy. cbn. rewrite Ey. cbn. reflexivity.
      * rewrite lookup_app_r by lia.
        by replace (n * ncols + c - length new)%nat with c by lia.
    + destruct (Hnew r c ltac:(lia) Hc) as (x & y0 & Hx & Hy & Hlook).
      exists x, y0. split; [done|]. split; [done|].
      rewrite lookup_app_l; [done|]. rewrite Hlen. nia.
Qed.

(** C4, as the code has it: the tiles come row by row; the tile of
    row [r] and column [c] starts at [x = int(c * dx)] and
    [y = int(r * dy)], truncated toward zero, where [dx] is the
    binary64 quotient [(W - tw) / (cols - 1)] (0 for one column) and
    [dy] likewise; an offset whose tile would reach the canvas edge is
    replaced by [W - tw] (or [H - th]), so that [x + tw <= W] and
    [y + th <= H] for every rectangle. *)
Theorem split_views_offsets (W H tw th o : Z) (bboxes : list BBox.t)
    (count : list (list float32)) :
  split_views get_global_weights W H tw th o = Ok (bboxes, count) →
  ∃ cols rows dx dy,
    (truediv (W - o) (tw - o) ≫= ceil) = Ok cols
    ∧ (truediv (H - o) (th - o) ≫= ceil) = Ok rows
    ∧ step_of W tw cols = Ok dx
    ∧ step_of H th rows = Ok dy
    ∧ length bboxes = (Z.to_nat rows * Z.to_nat cols)%nat
    ∧ (∀ r c : nat, (r < Z.to_nat rows)%nat → (c < Z.to_nat cols)%nat →
        ∃ x y, offset_of (Z.of_nat c) dx tw W = Ok x
               ∧ offset_of (Z.of_nat r) dy th H = Ok y
               ∧ bboxes !! (r * Z.to_nat cols + c)%nat
                 = Some (BBox.mk x y tw th))
    ∧ Forall (fun b => BBox.x b + BBox.w b <= W ∧ BBox.y b + BBox.h b <= H)
        bboxes.
Proof.
  unfold split_views. intros Hsv.
  destruct (truediv (W - o) (tw - o)) as [qc|] eqn:Eqc; [|done].
  cbn [mbind result_bind] in Hsv.
  destruct (ceil qc) as [cols|] eqn:Ecols; [|done].
  cbn [mbind result_bind] in Hsv.
  destruct (truediv (H - o) (th - o)) as [qr|] eqn:Eqr; [|done].
  cbn [mbind result_bind] in Hsv.
  destruct (ceil qr) as [rows|] eqn:Erows; [|done].
  cbn [mbind result_bind] in Hsv.
  fold (step_of W tw cols) in Hsv. fold (step_of H th rows) in Hsv.
  destruct (step_of W tw cols) as [dx|] eqn:Edx; [|done].
  cbn [mbind result_bind] in Hsv.
  destruct (step_of H th rows) as [dy|] eqn:Edy; [|done].
  cbn [mbind result_bind] in Hsv.
  destruct (torch_zeros H W) as [count0|]; [|done].
  cbn [mbind result_bind] in Hsv.
  rewrite (range_to_nat rows), (range_to_nat cols) in Hsv.
  destruct (split_views_rows _ _ _ _ _ _ _ _ _ _ _ _ Hsv)
    as (new & Hbl & Hlen & Hnew). cbn in Hbl. subst new.
  exists cols, rows, dx, dy. cbn [mbind result_bind].
  rewrite Ecols, Erows. repeat (split; [done|]).
  apply Forall_lookup. intros i b Hi.
  assert (Hlt : (i < Z.to_nat rows * Z.to_nat cols)%nat).
  { rewrite <- Hlen. by eapply lookup_lt_Some. }
  assert (Hcols : (0 < Z.to_nat cols)%nat) by nia.
  destruct (Hnew (i / Z.to_nat cols)%nat (i mod Z.to_nat cols)%nat)
    as (x & y & Hx & Hy & Hlook).
  { apply Nat.Div0.div_lt_upper_bound. lia. }
  { apply Nat.mod_upper_bound. lia. }
  rewrite (Nat.mul_comm _ (Z.to_nat cols)), <- Nat.div_mod_eq in Hlook.
  rewrite Hi in Hlook. injection Hlook as ->. cbn.
  split; eapply offset_of_bound; eassumption.
Qed.

End SplitViews.

(** A canvas of 15 by 4 cells with tiles of 4 by 4 cells. *)
Lemma split_views_offsets_witness :
  match split_views uniform_weights 15 4 4 4 0 with
  | Ok (bboxes, _) =>
      Forall (fun b => BBox.x b + BBox.w b <= 15 ∧ BBox.y b + BBox.h b <= 4)
        bboxes
  | Raise _ => False
  end.
Proof.
  destruct (split_views uniform_weights 15 4 4 4 0) as [[bboxes count]|e] eqn:E;
    [|vm_compute in E; discriminate].
  destruct (split_views_offsets uniform_weights 15 4 4 4 0 bboxes count E)
    as (cols & rows & dx & dy & _ & _ & _ & _ & _ & _ & Hall).
  exact Hall.
Defined.

(** C4 as stated does not hold: on a canvas of 15 by 4 cells with
    tiles of 4 by 4 cells and no overlap there are 4 columns; column 1
    starts at [int(11 / 3) = 3], while the integer nearest to [11 / 3]
    is 4. *)
Lemma offsets_as_specified_fails : ¬ offsets_as_specified.
Proof.
  intros Hclaim.
  destruct (split_views uniform_weights 15 4 4 4 0) as [[bboxes count]|e] eqn:E;
    [|vm_compute in E; discriminate].
  specialize (Hclaim uniform_weights 15 4 4 4 0 bboxes count
    ltac:(lia) ltac:(lia) ltac:(lia) E 0 1 (BBox.mk 3 0 4 4)
    ltac:(lia) ltac:(vm_compute; split; [discriminate | reflexivity])).
  vm_compute in E. injection E as <- <-.
  destruct (Hclaim eq_refl) as [Hnear _].
  vm_compute in Hnear. by apply Hnear.
Qed.

(** ** The feather mask: [generate_feather_mask] *)

Section FeatherMask.

Implicit Types mask : list (list float32).

Lemma np_setitem_spec mask (w h i j : Z) (v : float32) :
  length mask = Z.to_nat h →
  Forall (fun row => length row = Z.to_nat w) mask →
  0 <= i < h → 0 <= j < w →
  ∃ mask',
    np_setitem mask i j v = Ok mask'
    ∧ length mask' = Z.to_nat h
    ∧ Forall (fun row => length row = Z.to_nat w) mask'
    ∧ ∀ a b, 0 <= a < h → 0 <= b < w →
        get2 mask' a b =
        if (a =? i) && (b =? j) then Some v else get2 mask a b.
Proof.
  intros Hlen Hrows Hi Hj. unfold np_setitem.
  rewrite index_in_range by lia. cbn [mbind result_bind].
  destruct (mask !! Z.to_nat i) as [row|] eqn:Erow.
  2: { apply lookup_ge_None in Erow. lia. }
  assert (Hrow : length row = Z.to_nat w).
  { rewrite Forall_lookup in Hrows. by eapply Hrows. }
  rewrite index_in_range by lia. cbn [mbind result_bind].
  eexists. split; [reflexivity|]. split; [by rewrite length_insert|].
  split.
  - apply Forall_insert; [done|]. by rewrite length_insert.
  - intros a b Ha Hb. unfold get2.
    destruct (Z.eqb_spec a i) as [->|Hai]; cbn [andb].
    + rewrite list_lookup_insert_eq by lia. cbn.
      destruct (Z.eqb_spec b j) as [->|Hbj].
      * rewrite list_lookup_insert_eq by lia. done.
      * rewrite list_lookup_insert_ne by lia. by rewrite Erow.
    + rewrite list_lookup_insert_ne by lia. done.
Qed.

Lemma half_bounds (h : Z) : 2 * (h / 2) <= h < 2 * (h / 2) + 2.
Proof. pose proof (Z.div_mod h 2). pose proof (Z.mod_pos_bound h 2). lia. Qed.

(** One pass of the loop body keeps the invariant and moves it one
    column on. *)
Lemma feather_cell_spec (w h r i n : Z) mask :
  0 < w → 0 < h → 0 <= i < h / 2 → 0 <= n < w / 2 →
  (r <= Z.min i n ∨ ∃ q, truediv (Z.min i n) r = Ok q) →
  mask_inv w h r i n mask →
  ∃ mask',
    feather_cell w h r mask i n = Ok mask'
    ∧ mask_inv w h r i (n + 1) mask'.
Proof.
  intros Hw Hh Hi Hn Hdiv [Hrows Hcols Hcells].
  pose proof (half_bounds h) as Hhh. pose proof (half_bounds w) as Hwh.
  unfold feather_cell. cbv zeta.
  destruct (Z.leb_spec r (Z.min i n)) as [Hskip|Hwrite].
  - exists mask. split; [done|]. split; [done..|].
    intros a b Ha Hb. rewrite Hcells by done. f_equal.
    unfold feather_partial. cbv zeta. zbool; try reflexivity; lia.
  - destruct Hdiv as [|[q Hq]]; [lia|]. rewrite Hq. cbn [mbind result_bind].
    set (v := to_float32 (fsquare q)).
    assert (Hv : weight_at (Z.min i n) r = v).
    { unfold weight_at. by rewrite Hq. }
    destruct (np_setitem_spec mask w h i n v Hrows Hcols)
      as (m1 & -> & Hr1 & Hc1 & Hg1); [lia..|]. cbn [mbind result_bind].
    destruct (np_setitem_spec m1 w h i (w - n - 1) v Hr1 Hc1)
      as (m2 & -> & Hr2 & Hc2 & Hg2); [lia..|]. cbn [mbind result_bind].
    destruct (np_setitem_spec m2 w h (h - i - 1) n v Hr2 Hc2)
      as (m3 & -> & Hr3 & Hc3 & Hg3); [lia..|]. cbn [mbind result_bind].
    destruct (np_setitem_spec m3 w h (h - i - 1) (w - n - 1) v Hr3 Hc3)
      as (m4 & -> & Hr4 & Hc4 & Hg4); [lia..|].
    exists m4. split; [done|]. split; [done..|].
    intros a b Ha Hb.
    rewrite Hg4, Hg3, Hg2, Hg1, Hcells by done.
    unfold feather_partial. cbv zeta. rewrite <- Hv.
    zbool; try reflexivity; try lia;
      repeat f_equal; try lia.
Qed.

Lemma feather_row_spec (w h r i : Z) mask (n : nat) :
  0 < w → 0 < h → 0 <= i < h / 2 → Z.of_nat n <= w / 2 →
  (∀ d, 0 <= d < Z.min (w / 2) (h / 2) →
        r <= d ∨ ∃ q, truediv d r = Ok q) →
  mask_inv w h r i 0 mask →
  ∃ mask',
    foldM (fun mask j => feather_cell w h r mask i j) (range (Z.of_nat n)) mask
      = Ok mask'
    ∧ mask_inv w h r i (Z.of_nat n) mask'.
Proof.
  intros Hw Hh Hi Hn Hdiv Hinv. induction n as [|n IH].
  - exists mask. by split.
  - destruct IH as (m1 & Hrun & Hinv1); [lia|].
    rewrite Nat2Z.inj_succ, <- Z.add_1_r, range_succ, foldM_app, Hrun by lia.
    cbn [mbind result_bind foldM].
    destruct (feather_cell_spec w h r i (Z.of_nat n) m1)
      as (m2 & -> & Hinv2); try done; try lia.
    { apply Hdiv. lia. }
    exists m2. by split.
Qed.

Lemma mask_inv_next_row (w h r i : Z) mask :
  0 <= i →
  mask_inv w h r i (w / 2) mask → mask_inv w h r (i + 1) 0 mask.
Proof.
  intros Hi [Hrows Hcols Hcells]. split; [done..|].
  intros a b Ha Hb. rewrite Hcells by done. f_equal.
  unfold feather_partial. cbv zeta. zbool; try reflexivity; lia.
Qed.

Lemma feather_rows_spec (w h r : Z) mask (n : nat) :
  0 < w → 0 < h → Z.of_nat n <= h / 2 →
  (∀ d, 0 <= d < Z.min (w / 2) (h / 2) →
        r <= d ∨ ∃ q, truediv d r = Ok q) →
  mask_inv w h r 0 0 mask →
  ∃ mask',
    foldM (fun mask i =>
        foldM (fun mask j => feather_cell w h r mask i j) (range (w / 2)) mask)
      (range (Z.of_nat n)) mask = Ok mask'
    ∧ mask_inv w h r (Z.of_nat n) 0 mask'.
Proof.
  intros Hw Hh Hn Hdiv Hinv. induction n as [|n IH].
  - exists mask. by split.
  - destruct IH as (m1 & Hrun & Hinv1); [lia|].
    rewrite Nat2Z.inj_succ, <- Z.add_1_r, range_succ, foldM_app, Hrun by lia.
    cbn [mbind result_bind foldM].
    pose proof (half_bounds w) as Hwh.
    destruct (feather_row_spec w h r (Z.of_nat n) m1 (Z.to_nat (w / 2)))
      as (m2 & Hrow & Hinv2); try done; try lia.
    rewrite Z2Nat.id in Hrow, Hinv2 by lia. rewrite Hrow.
    exists m2. split; [done|]. apply mask_inv_next_row; [lia | done].
Qed.

Lemma mask_inv_ones (w h r : Z) :
  0 < w → 0 < h →
  mask_inv w h r 0 0 (replicate (Z.to_nat h) (replicate (Z.to_nat w) one32)).
Proof.
  intros Hw Hh. split.
  - by rewrite length_replicate.
  - apply Forall_replicate. by rewrite length_replicate.
  - intros a b Ha Hb. unfold get2.
    rewrite lookup_replicate_2 by lia. cbn.
    rewrite lookup_replicate_2 by lia. f_equal.
    unfold feather_partial. cbv zeta. zbool; try reflexivity; lia.
Qed.

(** The two loops build the mask of the closed form. *)
Lemma feather_loops_spec (w h r : Z) :
  0 < w → 0 < h →
  (∀ d, 0 <= d < Z.min (w / 2) (h / 2) →
        r <= d ∨ ∃ q, truediv d r = Ok q) →
  ∃ mask,
    feather_loops w h r (replicate (Z.to_nat h) (replicate (Z.to_nat w) one32))
      = Ok mask
    ∧ ∀ a b, 0 <= a < h → 0 <= b < w →
        get2 mask a b = Some (feather_value w h r a b).
Proof.
  intros Hw Hh Hdiv. pose proof (half_bounds h) as Hhh.
  destruct (feather_rows_spec w h r _ (Z.to_nat (h / 2)) Hw Hh ltac:(lia) Hdiv
              (mask_inv_ones w h r Hw Hh)) as (mask & Hrun & [_ _ Hcells]).
  rewrite Z2Nat.id in Hrun, Hcells by lia.
  exists mask. split; [exact Hrun|].
  intros a b Ha Hb. rewrite Hcells by done. f_equal.
  unfold feather_partial, feather_value. cbv zeta.
  zbool; try reflexivity; lia.
Qed.

Lemma feather_cell_skip (w h r i j : Z) mask :
  r <= Z.min i j → feather_cell w h r mask i j = Ok mask.
Proof.
  intros Hr. unfold feather_cell. cbv zeta.
  by destruct (Z.leb_spec r (Z.min i j)); [|lia].
Qed.

(** With a radius of zero or less every pass of the loop body is the
    [continue]. *)
Lemma feather_loops_skip (w h r : Z) mask :
  r <= 0 → feather_loops w h r mask = Ok mask.
Proof.
  intros Hr. unfold feather_loops.
  assert (Hrow : ∀ i (l : list Z) m, 0 <= i → Forall (fun j => 0 <= j) l →
    foldM (fun mask j => feather_cell w h r mask i j) l m = Ok m).
  { intros i l m Hi Hl. induction Hl as [|j l Hj Hl IH]; cbn [foldM]; [done|].
    rewrite feather_cell_skip by lia. exact IH. }
  assert (Hall : ∀ (l l' : list Z) m, Forall (fun i => 0 <= i) l →
    Forall (fun j => 0 <= j) l' →
    foldM (fun mask i =>
      foldM (fun mask j => feather_cell w h r mask i j) l' mask) l m = Ok m).
  { intros l l' m Hl Hl'. induction Hl as [|i l Hi Hl IH]; cbn [foldM]; [done|].
    rewrite Hrow by done. exact IH. }
  apply Hall; apply Forall_forall; intros x Hx%elem_of_range; lia.
Qed.

Lemma no_zero_division_bind {A B} (m : result A) (f : A → result B) :
  no_zero_division m → (∀ x, m = Ok x → no_zero_division (f x)) →
  no_zero_division (m ≫= f).
Proof.
  unfold no_zero_division, mbind, result_bind. destruct m as [x|e].
  - intros _ Hf. by apply Hf.
  - intros He _ [= ->]. by apply He.
Qed.

Lemma no_zero_division_foldM {A B} (f : B → A → result B) (l : list A) (b : B) :
  (∀ b a, a ∈ l → no_zero_division (f b a)) →
  no_zero_division (foldM f l b).
Proof.
  revert b. induction l as [|a l IH]; intros b Hf; cbn [foldM]; [done|].
  apply no_zero_division_bind.
  - apply Hf. by left.
  - intros b' _. apply IH. intros b'' a' Ha'. apply Hf. by right.
Qed.

Lemma float_of_int_no_zero_division k : no_zero_division (float_of_int k).
Proof. unfold float_of_int. by destruct (binary_normalize _ _ _ _ _). Qed.

Lemma int_of_float_no_zero_division f : no_zero_division (int_of_float f).
Proof. by destruct f. Qed.

Lemma np_setitem_no_zero_division mask i j v :
  no_zero_division (np_setitem mask i j v).
Proof.
  unfold np_setitem, index.
  destruct ((i <? - _) || (_ <=? i)); [done|]. cbn.
  destruct (mask !! _); [|done].
  by destruct ((j <? - _) || (_ <=? j)).
Qed.

Lemma feather_cell_no_zero_division (w h r i j : Z) mask :
  0 <= i → 0 <= j → no_zero_division (feather_cell w h r mask i j).
Proof.
  intros Hi Hj. unfold feather_cell. cbv zeta.
  destruct (Z.leb_spec r (Z.min i j)); [done|].
  apply no_zero_division_bind.
  - unfold truediv. destruct (Z.eqb_spec r 0); [lia|].
    destruct (_ =? 0); [done|].
    apply no_zero_division_bind; [apply float_of_int_no_zero_division|].
    intros fa _. apply no_zero_division_bind;
      [apply float_of_int_no_zero_division | done].
  - intros q _.
    repeat (apply no_zero_division_bind;
            [apply np_setitem_no_zero_division | intros ? _]).
    apply np_setitem_no_zero_division.
Qed.

(** The division [dist / feather_radius] is never a division by
    zero, whatever the size and the ratio. *)
Lemma generate_feather_mask_no_zero_division (w h : Z) (ratio : num) :
  no_zero_division (generate_feather_mask w h ratio).
Proof.
  unfold generate_feather_mask.
  apply no_zero_division_bind.
  { unfold np_ones. by destruct (_ || _). }
  intros mask _. apply no_zero_division_bind.
  { unfold feather_radius_of. apply no_zero_division_bind.
    - destruct ratio as [k|f]; cbn; [done|]. unfold mul_int_float.
      pose proof (float_of_int_no_zero_division (Z.min (w / 2) (h / 2)))
        as Hconv.
      unfold no_zero_division, fmap, result_fmap, mbind, result_bind in *.
      destruct (float_of_int _) as [fk|e]; [done|].
      intros [= ->]. by apply Hconv.
    - intros [k|f] _; cbn; [done | apply int_of_float_no_zero_division]. }
  intros r _. unfold feather_loops.
  apply no_zero_division_foldM. intros m i Hi%elem_of_range.
  apply no_zero_division_foldM. intros m' j Hj%elem_of_range.
  apply feather_cell_no_zero_division; lia.
Qed.

Lemma np_ones_ok (w h : Z) :
  0 < w → 0 < h → h * w * 4 < 2 ^ 63 →
  np_ones h w = Ok (replicate (Z.to_nat h) (replicate (Z.to_nat w) one32)).
Proof.
  intros Hw Hh Hsize. unfold np_ones.
  destruct (Z.ltb_spec h 0), (Z.ltb_spec w 0),
    (Z.leb_spec (2 ^ 63) (h * w * 4)); try lia. done.
Qed.

Lemma half_min_small (w h : Z) :
  0 < w → 0 < h → h * w * 4 < 2 ^ 63 →
  0 <= Z.min (w / 2) (h / 2) < 2 ^ 53.
Proof.
  intros Hw Hh Hsize.
  pose proof (half_bounds w). pose proof (half_bounds h).
  assert (Z.min (w / 2) (h / 2) * Z.min (w / 2) (h / 2) <= h * w) by nia.
  split; [lia|].
  destruct (Z.lt_ge_cases (Z.min (w / 2) (h / 2)) (2 ^ 53)); [done|].
  assert (2 ^ 53 * 2 ^ 53 <= Z.min (w / 2) (h / 2) * Z.min (w / 2) (h / 2))
    by nia.
  lia.
Qed.

Lemma feather_radius_zero (w h : Z) (ratio : num) :
  0 < w → 0 < h → h * w * 4 < 2 ^ 63 →
  ratio_zero ratio → feather_radius_of w h ratio = Ok 0.
Proof.
  intros Hw Hh Hsize Hratio. unfold feather_radius_of.
  destruct Hratio as [->|[s ->]]; cbn [int_mul_num].
  - cbn. f_equal. lia.
  - pose proof (int_mul_zero _ s (half_min_small w h Hw Hh Hsize)) as Hz.
    destruct (mul_int_float _ _); [|done]. exact Hz.
Qed.

Lemma feather_radius_one (w h : Z) (ratio : num) :
  0 < w → 0 < h → h * w * 4 < 2 ^ 63 →
  ratio_one ratio →
  feather_radius_of w h ratio = Ok (Z.min (w / 2) (h / 2)).
Proof.
  intros Hw Hh Hsize Hratio. unfold feather_radius_of.
  destruct Hratio as [->| ->]; cbn [int_mul_num].
  - cbn. f_equal. lia.
  - pose proof (int_mul_one _ (half_min_small w h Hw Hh Hsize)) as Hz.
    destruct (mul_int_float _ _); [|done]. exact Hz.
Qed.

(** C8, as the code has it: for a mask that numpy can allocate, the
    ratio 0 gives the all-ones mask; no size and no ratio leads to a
    division by zero; for the ratio 1 the corner [mask[0][0]] is 0
    when [w >= 2] and [h >= 2] and 1 otherwise, and the center
    [mask[h//2][w//2]] is 1 when [w] or [h] is odd. *)
Theorem feather_mask_extremes (w h : Z) :
  0 < w → 0 < h → h * w * 4 < 2 ^ 63 →
  (∀ ratio, ratio_zero ratio →
     generate_feather_mask w h ratio
     = Ok (replicate (Z.to_nat h) (replicate (Z.to_nat w) one32)))
  ∧ (∀ ratio, no_zero_division (generate_feather_mask w h ratio))
  ∧ (∀ ratio, ratio_one ratio →
     ∃ mask, generate_feather_mask w h ratio = Ok mask
       ∧ get2 mask 0 0
         = Some (if (2 <=? w) && (2 <=? h) then zero32 else one32)
       ∧ (Z.odd w || Z.odd h = true →
          get2 mask (h / 2) (w / 2) = Some one32)).
Proof.
  intros Hw Hh Hsize. split; [|split].
  - intros ratio Hratio. unfold generate_feather_mask.
    rewrite np_ones_ok by done. cbn [mbind result_bind].
    rewrite feather_radius_zero by done. cbn [mbind result_bind].
    by apply feather_loops_skip.
  - intros ratio. apply generate_feather_mask_no_zero_division.
  - intros ratio Hratio. unfold generate_feather_mask.
    rewrite np_ones_ok by done. cbn [mbind result_bind].
    rewrite feather_radius_one by done. cbn [mbind result_bind].
    pose proof (half_min_small w h Hw Hh Hsize) as Hk.
    pose proof (half_bounds w) as Hwh. pose proof (half_bounds h) as Hhh.
    set (k := Z.min (w / 2) (h / 2)) in *.
    destruct (feather_loops_spec w h k Hw Hh) as (mask & -> & Hcells).
    { intros d Hd. right. apply truediv_ok; lia. }
    exists mask. split; [done|]. split.
    + rewrite Hcells by lia. f_equal. unfold feather_value. cbv zeta.
      rewrite !Z.min_l by lia.
      destruct (Z.leb_spec 2 w), (Z.leb_spec 2 h); cbn [andb];
        zbool; try reflexivity.
      unfold weight_at. rewrite truediv_zero by lia. reflexivity.
    + intros Hodd. rewrite Hcells by lia. f_equal.
      unfold feather_value. cbv zeta.
      apply orb_true_iff in Hodd.
      rewrite !Z.odd_spec in Hodd.
      assert (w = 2 * (w / 2) + 1 ∨ h = 2 * (h / 2) + 1) as Hhalf.
      { destruct Hodd as [[c Hc]|[c Hc]]; [left|right]; lia. }
      zbool; try reflexivity; lia.
Qed.

End FeatherMask.

(** A mask of 5 by 3 cells. *)
Lemma feather_mask_extremes_witness :
  generate_feather_mask 5 3 (NFloat fzero)
    = Ok (replicate 3 (replicate 5 one32))
  ∧ ∃ mask,
      generate_feather_mask 5 3 (NFloat fone) = Ok mask
      ∧ get2 mask 0 0 = Some zero32
      ∧ get2 mask 1 2 = Some one32.
Proof.
  destruct (feather_mask_extremes 5 3 ltac:(lia) ltac:(lia) ltac:(lia))
    as (Hzero & _ & Hone).
  split.
  - apply Hzero. right. by exists false.
  - destruct (Hone (NFloat fone) (or_intror eq_refl))
      as (mask & Hmask & Hcorner & Hcenter).
    exists mask. split; [exact Hmask|]. split; [exact Hcorner|].
    exact (Hcenter eq_refl).
Defined.

(** C8 as stated does not hold: the mask of 4 by 4 cells for the ratio
    1 has radius 2, and its center cell [mask[2][2]] is at distance 1
    from the edges, so it holds [(1 / 2) ** 2 = 0.25], not 1.  (The
    mask of 1 by 1 cells has radius 0 and its corner holds 1, not 0.) *)
Lemma feather_mask_as_specified_fails : ¬ feather_mask_as_specified.
Proof.
  intros Hclaim.
  destruct (Hclaim 4 4 ltac:(lia) ltac:(lia) ltac:(lia)) as (_ & _ & Hone).
  destruct (Hone (NFloat fone) (or_intror eq_refl))
    as (mask & Hmask & Hcenter & _).
  vm_compute in Hmask. injection Hmask as <-.
  vm_compute in Hcenter. discriminate.
Qed.

(** ** Rectangles: [BBox] *)

(** Indexing a rectangle: the four entries are [x], [y], [x + w] and
    [y + h]; the indices -4 to -1 count from the end, as on the list
    [self.box]; every other index is an [IndexError]. *)
Theorem bbox_getitem_index (b : BBox.t) (i : Z) :
  BBox.getitem b i =
    if (i <? -4) || (4 <=? i) then Raise IndexError
    else Ok (match i mod 4 with
             | 0 => BBox.x b
             | 1 => BBox.y b
             | 2 => BBox.x b + BBox.w b
             | _ => BBox.y b + BBox.h b
             end).
Proof.
  unfold BBox.getitem, index. change (Z.opp 4) with (-4).
  destruct (Z.ltb_spec i (-4)) as [Hlo|Hlo]; [reflexivity|].
  destruct (Z.leb_spec 4 i) as [Hhi|Hhi]; [reflexivity|].
  assert (i = -4 ∨ i = -3 ∨ i = -2 ∨ i = -1 ∨ i = 0 ∨ i = 1 ∨ i = 2 ∨ i = 3)
    as Hi by lia.
  destruct Hi as [->|[->|[->|[->|[->|[->|[->| ->]]]]]]]; reflexivity.
Qed.

(** On a canvas that holds the rectangle, [self.slice] selects the
    cells between the corners of [self.box]. *)
Lemma in_slice_on_canvas (b : BBox.t) (rows cols row col : Z) :
  on_canvas cols rows b → 0 <= BBox.w b → 0 <= BBox.h b →
  BBox.in_slice b rows cols row col = true
  ↔ BBox.y b <= row < BBox.y b + BBox.h b
    ∧ BBox.x b <= col < BBox.x b + BBox.w b.
Proof.
  intros (Hx & Hxw & Hy & Hyh) Hw Hh. unfold BBox.in_slice, slice_bound.
  rewrite !andb_true_iff, !Z.leb_le, !Z.ltb_lt.
  destruct (Z.ltb_spec (BBox.y b) 0), (Z.ltb_spec (BBox.y b + BBox.h b) 0),
    (Z.ltb_spec (BBox.x b) 0), (Z.ltb_spec (BBox.x b + BBox.w b) 0); lia.
Qed.

(** ** Signs of binary64 results *)

Section Signs.

Lemma binary_round_aux_sign (s : bool) (m e : Z) (l : location) :
  match binary_round_aux prec emax s m e l with
  | S754_zero s' | S754_infinity s' | S754_finite s' _ _ => s' = s
  | S754_nan => True
  end.
Proof.
  unfold binary_round_aux.
  destruct (shr_fexp prec emax m e l) as [mrs' e'].
  destruct (shr_fexp prec emax _ e' loc_Exact) as [mrs'' e''].
  destruct (shr_m mrs''); [done| |done].
  by destruct (e'' <=? emax - prec).
Qed.

Lemma float_of_int_sign (k : Z) (f : float) :
  0 <= k → float_of_int k = Ok f → sign_clear f.
Proof.
  intros Hk. unfold float_of_int, binary_normalize.
  destruct k as [|p|p]; [by intros [= <-]| |lia].
  unfold binary_round. destruct (shl_align _ _ _) as [mz ez].
  pose proof (binary_round_aux_sign false (Z.pos mz) ez loc_Exact) as Hs.
  destruct (binary_round_aux _ _ _ _ _ _); intros [= <-]; done.
Qed.

Lemma SFmul_sign (x y : float) :
  sign_clear x → sign_clear y → sign_clear (SFmul prec emax x y).
Proof.
  destruct x as [sx|sx| |sx mx ex], y as [sy|sy| |sy my ey]; cbn;
    try done; try (by intros -> ->).
  intros -> ->. cbn [xorb].
  pose proof (binary_round_aux_sign false (Z.pos (mx * my)) (ex + ey) loc_Exact)
    as Hs.
  by destruct (binary_round_aux _ _ _ _ _ _).
Qed.

Lemma SFdiv_sign (x y : float) :
  sign_clear x → sign_clear y → sign_clear (SFdiv prec emax x y).
Proof.
  destruct x as [sx|sx| |sx mx ex], y as [sy|sy| |sy my ey]; cbn;
    try done; try (by intros -> ->).
  intros -> ->. cbn [xorb].
  destruct (SFdiv_core_binary _ _ _ _ _ _) as [[mz ez] lz].
  pose proof (binary_round_aux_sign false mz ez lz) as Hs.
  by destruct (binary_round_aux _ _ _ _ _ _).
Qed.

Lemma truediv_sign (a b : Z) (q : float) :
  0 <= a → 0 < b → truediv a b = Ok q → sign_clear q.
Proof.
  intros Ha Hb. unfold truediv.
  destruct (Z.eqb_spec b 0); [lia|].
  destruct (Z.eqb_spec a 0).
  { intros [= <-]. cbn. by destruct (Z.ltb_spec b 0); [lia|]. }
  destruct (float_of_int a) as [fa|] eqn:Ea; [|done].
  destruct (float_of_int b) as [fb|] eqn:Eb; [|done].
  cbn. intros [= <-].
  apply SFdiv_sign;
    [apply (float_of_int_sign a) | apply (float_of_int_sign b)]; (done || lia).
Qed.

Lemma int_of_float_sign (f : float) (v : Z) :
  sign_clear f → int_of_float f = Ok v → 0 <= v.
Proof.
  destruct f as [s|s| |s m e]; cbn; try done.
  - intros _ [= <-]. lia.
  - intros -> [= <-]. cbn. apply Z.shiftl_nonneg. lia.
Qed.

Lemma step_of_sign (size tile n : Z) (step : float) :
  tile <= size → step_of size tile n = Ok step → sign_clear step.
Proof.
  intros Hle. unfold step_of. destruct (Z.ltb_spec 1 n).
  - apply truediv_sign; lia.
  - by intros [= <-].
Qed.

Lemma offset_of_nonneg (k : Z) (step : float) (tile size x : Z) :
  0 <= k → sign_clear step → tile <= size →
  offset_of k step tile size = Ok x → 0 <= x.
Proof.
  intros Hk Hstep Hle. unfold offset_of, mul_int_float.
  destruct (float_of_int k) as [fk|] eqn:Ek; [|done]. cbn.
  destruct (int_of_float _) as [v|] eqn:Ev; [|done]. cbn.
  intros [= <-].
  apply int_of_float_sign in Ev.
  - destruct (Z.leb_spec size (v + tile)); lia.
  - apply SFmul_sign; [|done]. eapply float_of_int_sign; [|done]. lia.
Qed.

End Signs.

(** ** The tiles of a constructed object *)

Section Tiles.

Variable get_global_weights : Z → Z → float32.

(** The rectangles of [split_views], one by one. *)
Lemma split_views_tiles (W H tw th o : Z) (bboxes : list BBox.t)
    (count : list (list float32)) :
  split_views get_global_weights W H tw th o = Ok (bboxes, count) →
  ∃ cols rows dx dy,
    step_of W tw cols = Ok dx
    ∧ step_of H th rows = Ok dy
    ∧ Forall (fun b => ∃ r c x y,
          0 <= r ∧ 0 <= c
          ∧ offset_of c dx tw W = Ok x
          ∧ offset_of r dy th H = Ok y
          ∧ b = BBox.mk x y tw th) bboxes.
Proof.
  unfold split_views. intros Hsv.
  destruct (truediv (W - o) (tw - o)) as [qc|] eqn:Eqc; [|done].
  cbn [mbind result_bind] in Hsv.
  destruct (ceil qc) as [cols|] eqn:Ecols; [|done].
  cbn [mbind result_bind] in Hsv.
  destruct (truediv (H - o) (th - o)) as [qr|] eqn:Eqr; [|done].
  cbn [mbind result_bind] in Hsv.
  destruct (ceil qr) as [rows|] eqn:Erows; [|done].
  cbn [mbind result_bind] in Hsv.
  fold (step_of W tw cols) in Hsv. fold (step_of H th rows) in Hsv.
  destruct (step_of W tw cols) as [dx|] eqn:Edx; [|done].
  cbn [mbind result_bind] in Hsv.
  destruct (step_of H th rows) as [dy|] eqn:Edy; [|done].
  cbn [mbind result_bind] in Hsv.
  destruct (torch_zeros H W) as [count0|]; [|done].
  cbn [mbind result_bind] in Hsv.
  rewrite (range_to_nat rows), (range_to_nat cols) in Hsv.
  destruct (split_views_rows _ _ _ _ _ _ _ _ _ _ _ _ _ Hsv)
    as (new & Hbl & Hlen & Hnew). cbn in Hbl. subst new.
  exists cols, rows, dx, dy. split; [done|]. split; [done|].
  apply Forall_lookup. intros i b Hi.
  assert (Hlt : (i < Z.to_nat rows * Z.to_nat cols)%nat).
  { rewrite <- Hlen. by eapply lookup_lt_Some. }
  assert (Hcols : (0 < Z.to_nat cols)%nat) by nia.
  destruct (Hnew (i / Z.to_nat cols)%nat (i mod Z.to_nat cols)%nat)
    as (x & y & Hx & Hy & Hlook).
  { apply Nat.Div0.div_lt_upper_bound. lia. }
  { apply Nat.mod_upper_bound. lia. }
  rewrite (Nat.mul_comm _ (Z.to_nat cols)), <- Nat.div_mod_eq in Hlook.
  rewrite Hi in Hlook. injection Hlook as ->.
  exists (Z.of_nat (i / Z.to_nat cols)), (Z.of_nat (i mod Z.to_nat cols)), x, y.
  repeat split; try done; lia.
Qed.

(** A Python slice of a list holds elements of the list. *)
Lemma elem_of_slice {A} (l : list A) (lo hi : Z) (x : A) :
  x ∈ slice l lo hi → x ∈ l.
Proof.
  unfold slice. intros Hx. apply subseteq_take in Hx.
  by apply subseteq_drop in Hx.
Qed.

Lemma batch_bboxes_elem (bboxes : list BBox.t) (tbs nb opt : Z)
    (batches : list (list BBox.t)) :
  batch_bboxes bboxes tbs = Ok (nb, opt, batches) →
  Forall (Forall (fun b => b ∈ bboxes)) batches.
Proof.
  unfold batch_bboxes.
  destruct (truediv _ tbs) as [q|]; [|done]. cbn.
  destruct (ceil q) as [nb'|]; [|done]. cbn.
  destruct (truediv _ nb') as [q'|]; [|done]. cbn.
  destruct (ceil q') as [opt'|]; [|done]. cbn.
  intros [= <- <- <-].
  apply Forall_fmap, Forall_forall. intros i _. cbn.
  apply Forall_forall. intros b Hb. by eapply elem_of_slice.
Qed.

(** The constructor clamps the tile size to the canvas, and every
    tile it batches has that size and lies on the canvas: its offsets
    are not negative (so that no slice wraps around) and it does not
    pass the right or the lower edge. *)
Theorem tiles_on_canvas method sampler_name p_width p_height p_batch_size
    p_steps tile_w tile_h overlap tile_batch_size causal_layers s :
  TiledDiffusion_init get_global_weights method sampler_name p_width p_height
    p_batch_size p_steps tile_w tile_h overlap tile_batch_size causal_layers
    = Ok s →
  Self.w s = p_width / 8 ∧ Self.h s = p_height / 8
  ∧ Self.tile_w s = Z.min tile_w (Self.w s)
  ∧ Self.tile_h s = Z.min tile_h (Self.h s)
  ∧ Forall (Forall (fun b =>
        on_canvas (Self.w s) (Self.h s) b
        ∧ BBox.w b = Self.tile_w s ∧ BBox.h b = Self.tile_h s))
      (Self.batched_bboxes s).
Proof.
  unfold TiledDiffusion_init. intros Hinit.
  set (w := p_width / 8) in *. set (h := p_height / 8) in *.
  set (tw := if w <? tile_w then w else tile_w) in *.
  set (th := if h <? tile_h then h else tile_h) in *.
  assert (Htw : tw = Z.min tile_w w).
  { subst tw. destruct (Z.ltb_spec w tile_w); lia. }
  assert (Hth : th = Z.min tile_h h).
  { subst th. destruct (Z.ltb_spec h tile_h); lia. }
  destruct (split_views _ _ _ _ _ _) as [[bboxes weights]|] eqn:Esv; [|done].
  cbn [mbind result_bind] in Hinit.
  destruct (batch_bboxes _ _) as [[[nb ob] bb]|] eqn:Ebb; [|done].
  cbn [mbind result_bind] in Hinit. injection Hinit as <-. cbn.
  repeat (split; [done|]).
  destruct (split_views_tiles _ _ _ _ _ _ _ Esv)
    as (cols & rows & dx & dy & Hdx & Hdy & Htiles).
  apply step_of_sign in Hdx; [|lia]. apply step_of_sign in Hdy; [|lia].
  eapply Forall_impl; [by eapply batch_bboxes_elem|]. cbn.
  intros batch Hbatch. eapply Forall_impl; [exact Hbatch|]. cbn.
  intros b Hb. rewrite Forall_forall in Htiles.
  destruct (Htiles b Hb) as (r & c & x & y & Hr & Hc & Hx & Hy & ->). cbn.
  unfold on_canvas. cbn.
  pose proof (offset_of_bound _ _ _ _ _ Hx).
  pose proof (offset_of_bound _ _ _ _ _ Hy).
  pose proof (offset_of_nonneg c dx tw w x Hc Hdx ltac:(lia) Hx).
  pose proof (offset_of_nonneg r dy th h y Hr Hdy ltac:(lia) Hy).
  lia.
Qed.

End Tiles.

(** The object of the 640 by 128 pixel canvas with tiles of 16 by 16
    cells. *)
Lemma tiles_on_canvas_witness :
  ∃ s,
    TiledDiffusion_init uniform_weights "MultiDiffusion" "Euler a"
      640 128 1 20 16 16 0 4 false = Ok s
    ∧ Forall (Forall (fun b =>
          on_canvas (Self.w s) (Self.h s) b
          ∧ BBox.w b = Self.tile_w s ∧ BBox.h b = Self.tile_h s))
        (Self.batched_bboxes s).
Proof.
  destruct (TiledDiffusion_init uniform_weights "MultiDiffusion" "Euler a"
      640 128 1 20 16 16 0 4 false) as [s|e] eqn:E;
    [|vm_compute in E; discriminate].
  exists s. split; [done|].
  exact (proj2 (proj2 (proj2 (proj2 (tiles_on_canvas uniform_weights
    "MultiDiffusion" "Euler a" 640 128 1 20 16 16 0 4 false s E))))).
Defined.

(** ** The weight map of [split_views] *)

Section WeightMap.

Variable get_global_weights : Z → Z → float32.

(** Whatever holds of the start and is kept when a tile is appended
    and its kernel added, holds after the two loops. *)
Lemma split_views_loops_inv (P : list BBox.t → list (list float32) → Prop)
    (w h tile_w tile_h : Z) (dx dy : float) (lc lr : list Z)
    (bl0 bl : list BBox.t) (cnt0 cnt : list (list float32)) :
  (∀ bl cnt b, P bl cnt →
     P (bl ++ [b]) (add_weights get_global_weights cnt b)) →
  P bl0 cnt0 →
  foldM (fun acc row =>
      py ← mul_int_float row dy;
      y ← int_of_float py;
      let y := if h <=? y + tile_h then h - tile_h else y in
      foldM (fun '(bbox_list, count) col =>
          px ← mul_int_float col dx;
          x ← int_of_float px;
          let x := if w <=? x + tile_w then w - tile_w else x in
          let bbox := BBox.mk x y tile_w tile_h in
          Ok (bbox_list ++ [bbox], add_weights get_global_weights count bbox))
        lc acc)
    lr (bl0, cnt0) = Ok (bl, cnt) →
  P bl cnt.
Proof.
  intros Hstep. revert bl0 cnt0.
  induction lr as [|row lr IH]; intros bl0 cnt0 H0; cbn [foldM].
  { by intros [= <- <-]. }
  destruct (mul_int_float row dy) as [py|]; [|done]. cbn [mbind result_bind].
  destruct (int_of_float py) as [y|]; [|done]. cbn [mbind result_bind].
  set (y' := if h <=? y + tile_h then h - tile_h else y).
  destruct (foldM _ lc (bl0, cnt0)) as [[bl1 cnt1]|] eqn:Erow; [|done].
  apply IH. clear IH. revert bl0 cnt0 H0 Erow.
  induction lc as [|col lc IHc]; intros bl0 cnt0 H0; cbn [foldM].
  { by intros [= <- <-]. }
  destruct (mul_int_float col dx) as [px|]; [|done]. cbn [mbind result_bind].
  destruct (int_of_float px) as [x|]; [|done]. cbn [mbind result_bind].
  apply IHc. by apply Hstep.
Qed.

Lemma get2_add_weights (cnt : list (list float32)) (b : BBox.t) (W H r c : Z) :
  length cnt = Z.to_nat H →
  Forall (fun row => length row = Z.to_nat W) cnt →
  0 <= r < H → 0 <= c < W →
  BBox.in_slice b H W r c = false →
  get2 (add_weights get_global_weights cnt b) r c = get2 cnt r c.
Proof.
  intros Hrows Hcols Hr Hc Hout. unfold get2, add_weights.
  rewrite list_lookup_imap.
  destruct (cnt !! Z.to_nat r) as [row|] eqn:Erow; [|done]. cbn.
  rewrite list_lookup_imap.
  destruct (row !! Z.to_nat c) as [v|] eqn:Ev; [|done]. cbn.
  assert (length row = Z.to_nat W) as Hrow.
  { rewrite Forall_lookup in Hcols. by eapply Hcols. }
  rewrite Hrows, Hrow, !Z2Nat.id by lia. by rewrite Hout.
Qed.

(** The weight map has the shape of the canvas, and a cell that lies
    in no tile's slice keeps the weight 0, whatever the kernel is. *)
Theorem weight_map_gaps (W H tw th o : Z) (bboxes : list BBox.t)
    (count : list (list float32)) :
  split_views get_global_weights W H tw th o = Ok (bboxes, count) →
  length count = Z.to_nat H
  ∧ Forall (fun row => length row = Z.to_nat W) count
  ∧ ∀ r c, 0 <= r < H → 0 <= c < W →
      Forall (fun b => BBox.in_slice b H W r c = false) bboxes →
      get2 count r c = Some zero32.
Proof.
  unfold split_views. intros Hsv.
  destruct (truediv (W - o) (tw - o)) as [qc|]; [|done].
  cbn [mbind result_bind] in Hsv.
  destruct (ceil qc) as [cols|]; [|done].
  cbn [mbind result_bind] in Hsv.
  destruct (truediv (H - o) (th - o)) as [qr|]; [|done].
  cbn [mbind result_bind] in Hsv.
  destruct (ceil qr) as [rows|]; [|done].
  cbn [mbind result_bind] in Hsv.
  destruct (if 1 <? cols then _ else _) as [dx|]; [|done].
  cbn [mbind result_bind] in Hsv.
  destruct (if 1 <? rows then _ else _) as [dy|]; [|done].
  cbn [mbind result_bind] in Hsv.
  destruct (torch_zeros H W) as [count0|] eqn:Ez; [|done].
  cbn [mbind result_bind] in Hsv.
  unfold torch_zeros in Ez.
  destruct (Z.ltb_spec H 0), (Z.ltb_spec W 0); try done.
  cbn [orb] in Ez. injection Ez as <-.
  revert Hsv.
  apply (split_views_loops_inv (fun bl cnt =>
    length cnt = Z.to_nat H
    ∧ Forall (fun row => length row = Z.to_nat W) cnt
    ∧ ∀ r c, 0 <= r < H → 0 <= c < W →
        Forall (fun b => BBox.in_slice b H W r c = false) bl →
        get2 cnt r c = Some zero32)).
  - intros bl cnt b (Hrows & Hcols & Hcells). split; [|split].
    + unfold add_weights. by rewrite length_imap.
    + unfold add_weights. apply Forall_lookup. intros i row.
      rewrite list_lookup_imap.
      destruct (cnt !! i) as [row0|] eqn:Erow; [|done]. cbn.
      intros [= <-]. rewrite length_imap.
      rewrite Forall_lookup in Hcols. by eapply Hcols.
    + intros r c Hr Hc [Hbl Hb]%Forall_app.
      rewrite Forall_singleton in Hb.
      rewrite (get2_add_weights cnt b W H r c Hrows Hcols Hr Hc Hb).
      by apply Hcells.
  - split; [by rewrite length_replicate|]. split.
    + apply Forall_replicate. by rewrite length_replicate.
    + intros r c Hr Hc _. unfold get2.
      rewrite lookup_replicate_2 by lia. cbn.
      by rewrite lookup_replicate_2 by lia.
Qed.

End WeightMap.

(** A canvas of 154 by 13 cells with tiles of 32 by 13 cells and
    overlap 12: its last column lies in no tile. *)
Lemma weight_map_gaps_witness :
  match split_views uniform_weights 154 13 32 13 12 with
  | Ok (bboxes, count) =>
      Forall (fun b => BBox.in_slice b 13 154 0 153 = false) bboxes
      ∧ get2 count 0 153 = Some zero32
  | Raise _ => False
  end.
Proof.
  destruct (split_views uniform_weights 154 13 32 13 12)
    as [[bboxes count]|e] eqn:E; [|vm_compute in E; discriminate].
  assert (Forall (fun b => BBox.in_slice b 13 154 0 153 = false) bboxes)
    as Hout.
  { vm_compute in E. injection E as <- _. repeat constructor. }
  split; [exact Hout|].
  exact (proj2 (proj2 (weight_map_gaps uniform_weights 154 13 32 13 12
    bboxes count E)) 0 153 ltac:(lia) ltac:(lia) Hout).
Defined.

(** ** The tile batches of the constructor *)

Section Batches.

Context {A : Type}.
Implicit Types l : list A.

(** Consecutive chunks of [k] elements make up a prefix. *)
Lemma concat_chunks l (k n : nat) :
  concat ((fun i => take k (drop (i * k) l)) <$> seq 0 n) = take (n * k) l.
Proof.
  induction n as [|n IH]; [done|].
  rewrite seq_S, fmap_app, concat_app, IH. cbn [fmap list_fmap concat].
  rewrite app_nil_r, take_take_drop. f_equal. lia.
Qed.

(** The slice [l[i*k : min((i+1)*k, len(l))]] is the chunk of [k]
    elements at [i * k]. *)
Lemma slice_chunk l (k i : Z) :
  0 < k → 0 <= i →
  slice l (i * k) (Z.min ((i + 1) * k) (Z.of_nat (length l)))
  = take (Z.to_nat k) (drop (Z.to_nat i * Z.to_nat k) l).
Proof.
  intros Hk Hi. rewrite slice_take_drop by nia.
  replace (Z.to_nat (i * k)) with (Z.to_nat i * Z.to_nat k)%nat by nia.
  destruct (Z.le_gt_cases ((i + 1) * k) (Z.of_nat (length l))).
  - rewrite Z.min_l by lia. f_equal. nia.
  - rewrite Z.min_r by lia. rewrite !take_ge; [done| |];
      rewrite length_drop; nia.
Qed.

End Batches.

(** The batching loop cuts the tile list into consecutive chunks of
    the requested size: batch [i] holds the tiles from position
    [i * tile_batch_size] on, at most [tile_batch_size] of them, in
    their order; so the batches, one after the other, are the first
    [num_batches * tile_batch_size] tiles, none of them repeated. *)
Theorem batches_are_chunks (bboxes : list BBox.t)
    (tile_batch_size num_batches optimal_batch_size : Z)
    (batched_bboxes : list (list BBox.t)) :
  0 < tile_batch_size →
  batch_bboxes bboxes tile_batch_size
    = Ok (num_batches, optimal_batch_size, batched_bboxes) →
  let k := Z.to_nat tile_batch_size in
  let n := Z.to_nat num_batches in
  length batched_bboxes = n
  ∧ (∀ i, (i < n)%nat →
       batched_bboxes !! i = Some (take k (drop (i * k) bboxes)))
  ∧ Forall (fun batch => (length batch <= k)%nat) batched_bboxes
  ∧ concat batched_bboxes = take (n * k) bboxes.
Proof.
  intros Hk. unfold batch_bboxes.
  destruct (truediv _ tile_batch_size) as [q|]; [|done]. cbn.
  destruct (ceil q) as [nb|]; [|done]. cbn.
  destruct (truediv _ nb) as [q'|]; [|done]. cbn.
  destruct (ceil q') as [opt|]; [|done]. cbn.
  intros [= <- <- <-].
  assert (Hchunks :
    (fun i => slice bboxes (i * tile_batch_size)
                (Z.min ((i + 1) * tile_batch_size) (Z.of_nat (length bboxes))))
      <$> range nb
    = (fun i => take (Z.to_nat tile_batch_size)
                  (drop (i * Z.to_nat tile_batch_size) bboxes))
      <$> seq 0 (Z.to_nat nb)).
  { unfold range. rewrite <- list_fmap_compose. apply list_fmap_ext.
    intros j i Hi. cbn. rewrite slice_chunk by lia. by rewrite Nat2Z.id. }
  rewrite Hchunks. split; [by rewrite length_fmap, length_seq|].
  split; [|split].
  - intros i Hi. rewrite list_lookup_fmap, lookup_seq_lt by done. done.
  - apply Forall_fmap, Forall_forall. intros i _. cbn.
    rewrite length_take. lia.
  - apply concat_chunks.
Qed.

(** Five tiles in batches of four. *)
Lemma batches_are_chunks_witness :
  ∃ s,
    TiledDiffusion_init uniform_weights "MultiDiffusion" "Euler a"
      640 128 1 20 16 16 0 4 false = Ok s
    ∧ concat (Self.batched_bboxes s)
      = (fun x => BBox.mk x 0 16 16) <$> [0; 16; 32; 48; 64].
Proof.
  eexists. split; [vm_compute; reflexivity|].
  refine (eq_trans (proj2 (proj2 (proj2 (batches_are_chunks
    ((fun x => BBox.mk x 0 16 16) <$> [0; 16; 32; 48; 64]) 4 2 3 _
    ltac:(lia) _)))) _).
  - vm_compute. reflexivity.
  - vm_compute. reflexivity.
Defined.

(** ** Divisions by zero in the constructor *)

(** A tile width of zero, or a canvas narrower than 8 pixels (whose
    latent width [p.width // 8] is zero), ends the constructor with a
    [ZeroDivisionError]: the tile width is clamped to zero, the
    overlap is then reset to zero, and [split_views] divides by
    [tile_w - overlap]. *)
Theorem constructor_zero_division get_global_weights method sampler_name
    p_width p_height p_batch_size p_steps tile_w tile_h overlap
    tile_batch_size causal_layers :
  0 <= p_width → 0 <= tile_w → tile_w = 0 ∨ p_width < 8 →
  TiledDiffusion_init get_global_weights method sampler_name p_width p_height
    p_batch_size p_steps tile_w tile_h overlap tile_batch_size causal_layers
  = Raise ZeroDivisionError.
Proof.
  intros Hpw Htw Hcase. unfold TiledDiffusion_init.
  set (w := p_width / 8). set (h := p_height / 8).
  assert (0 <= w) as Hw by (apply Z.div_pos; lia).
  set (tw := if w <? tile_w then w else tile_w).
  set (th := if h <? tile_h then h else tile_h).
  set (o1 := if Z.min tw th <=? overlap then Z.min tw th - 4 else overlap).
  set (o2 := if o1 <? 0 then 0 else o1).
  assert (tw = 0) as Etw.
  { subst tw. destruct Hcase as [->|Hsmall].
    - destruct (Z.ltb_spec w 0); lia.
    - assert (w = 0) as -> by (subst w; apply Z.div_small; lia).
      destruct (Z.ltb_spec 0 tile_w); lia. }
  assert (o2 = 0) as ->.
  { subst o2 o1. rewrite Etw.
    destruct (Z.leb_spec (Z.min 0 th) overlap);
      match goal with |- context [?a <? 0] => destruct (Z.ltb_spec a 0) end;
      lia. }
  rewrite Etw. unfold split_views. cbn. reflexivity.
Qed.

(** A canvas of 7 by 512 pixels. *)
Lemma constructor_zero_division_witness :
  TiledDiffusion_init uniform_weights "MultiDiffusion" "Euler a"
    7 512 1 20 64 64 32 1 false = Raise ZeroDivisionError.
Proof.
  apply constructor_zero_division; [lia | lia | right; lia].
Defined.

(** ** Regions: the feather ratio and the feather mask *)

(** A loop that has run through has run its body on every element. *)
Lemma foldM_ok_elem {A B : Type} (f : B → A → result B) (l : list A)
    (b b' : B) (a : A) :
  foldM f l b = Ok b' → a ∈ l → ∃ b0 b1, f b0 a = Ok b1.
Proof.
  revert b. induction l as [|x l IH]; intros b Hrun Ha; [by inversion Ha|].
  cbn [foldM] in Hrun. destruct (f b x) as [b1|] eqn:E; [|done].
  cbn in Hrun. apply elem_of_cons in Ha as [->|Ha]; [by eauto|].
  by eapply IH.
Qed.

(** The closed form of the mask does not change under a flip. *)
Lemma feather_value_flip (w h r a b : Z) :
  feather_value w h r (h - 1 - a) b = feather_value w h r a b
  ∧ feather_value w h r a (w - 1 - b) = feather_value w h r a b.
Proof.
  unfold feather_value. cbv zeta. split.
  - by replace (Z.min (h - 1 - a) (h - 1 - (h - 1 - a)))
      with (Z.min a (h - 1 - a)) by lia.
  - by replace (Z.min (w - 1 - b) (w - 1 - (w - 1 - b)))
      with (Z.min b (w - 1 - b)) by lia.
Qed.

(** A feather mask that has been generated has [h] rows of [w] cells
    and is the closed form for the radius
    [int(min(w//2, h//2) * feather_ratio)]: it is the same after a
    left-right or an up-down flip; a cell at [i] rows and [j] columns
    from the nearest edges holds 1 when [min(i, j)] reaches the
    radius, and so does every cell of the middle row of an odd height
    and of the middle column of an odd width, even on the edge. *)
Theorem feather_mask_symmetric (w h : Z) (ratio : num)
    (mask : list (list float32)) :
  0 < w → 0 < h →
  generate_feather_mask w h ratio = Ok mask →
  length mask = Z.to_nat h
  ∧ Forall (fun row => length row = Z.to_nat w) mask
  ∧ ∃ r, feather_radius_of w h ratio = Ok r
    ∧ ∀ a b, 0 <= a < h → 0 <= b < w →
        get2 mask a b = Some (feather_value w h r a b)
        ∧ get2 mask (h - 1 - a) b = get2 mask a b
        ∧ get2 mask a (w - 1 - b) = get2 mask a b
        ∧ (r <= Z.min (Z.min a (h - 1 - a)) (Z.min b (w - 1 - b)) →
           get2 mask a b = Some one32)
        ∧ (h = 2 * a + 1 ∨ w = 2 * b + 1 → get2 mask a b = Some one32).
Proof.
  intros Hw Hh. unfold generate_feather_mask.
  destruct (np_ones h w) as [ones|] eqn:Eones; [|done].
  cbn [mbind result_bind].
  destruct (feather_radius_of w h ratio) as [r|] eqn:Er; [|done].
  cbn [mbind result_bind]. intros Hrun.
  assert (ones = replicate (Z.to_nat h) (replicate (Z.to_nat w) one32)) as ->.
  { unfold np_ones in Eones. destruct (_ || _); [done|]. by injection Eones. }
  pose proof (half_bounds h) as Hhh. pose proof (half_bounds w) as Hwh.
  assert (Hdiv : ∀ d, 0 <= d < Z.min (w / 2) (h / 2) →
                      r <= d ∨ ∃ q, truediv d r = Ok q).
  { intros d Hd. destruct (Z.le_gt_cases r d) as [|Hlt]; [by left|right].
    unfold feather_loops in Hrun.
    destruct (foldM_ok_elem _ _ _ _ d Hrun) as (m0 & m1 & Hrow).
    { apply elem_of_range. lia. }
    destruct (foldM_ok_elem _ _ _ _ d Hrow) as (m2 & m3 & Hcell).
    { apply elem_of_range. lia. }
    unfold feather_cell in Hcell. cbv zeta in Hcell.
    rewrite Z.min_id in Hcell.
    destruct (Z.leb_spec r d); [lia|].
    destruct (truediv d r) as [q|]; [by eauto | done]. }
  destruct (feather_rows_spec w h r _ (Z.to_nat (h / 2)) Hw Hh ltac:(lia) Hdiv
              (mask_inv_ones w h r Hw Hh)) as (mask' & Hrun' & [Hrows Hcols Hcells]).
  rewrite Z2Nat.id in Hrun', Hcells by lia.
  unfold feather_loops in Hrun. rewrite Hrun in Hrun'.
  injection Hrun' as <-.
  split; [done|]. split; [done|]. exists r. split; [done|].
  assert (Hclosed : ∀ a b, 0 <= a < h → 0 <= b < w →
            get2 mask a b = Some (feather_value w h r a b)).
  { intros a b Ha Hb. rewrite Hcells by done. f_equal.
    unfold feather_partial, feather_value. cbv zeta.
    zbool; try reflexivity; lia. }
  intros a b Ha Hb.
  destruct (feather_value_flip w h r a b) as [Hud Hlr].
  split; [by apply Hclosed|].
  split; [by rewrite !Hclosed, Hud by lia|].
  split; [by rewrite !Hclosed, Hlr by lia|].
  split.
  - intros Hfar. rewrite Hclosed by done. f_equal.
    unfold feather_value. cbv zeta. zbool; try reflexivity; lia.
  - intros Hmid. rewrite Hclosed by done. f_equal.
    unfold feather_value. cbv zeta. zbool; try reflexivity; lia.
Qed.

(** The mask of 5 by 3 cells for the ratio 1. *)
Lemma feather_mask_symmetric_witness :
  ∃ mask,
    generate_feather_mask 5 3 (NFloat fone) = Ok mask
    ∧ get2 mask 0 2 = Some one32
    ∧ get2 mask 2 0 = get2 mask 0 0.
Proof.
  destruct (generate_feather_mask 5 3 (NFloat fone)) as [mask|e] eqn:E;
    [|vm_compute in E; discriminate].
  exists mask. split; [done|].
  destruct (feather_mask_symmetric 5 3 (NFloat fone) mask
    ltac:(lia) ltac:(lia) E) as (_ & _ & r & _ & Hcells).
  split.
  - exact (proj2 (proj2 (proj2 (proj2
      (Hcells 0 2 ltac:(lia) ltac:(lia))))) (or_intror eq_refl)).
  - exact (proj1 (proj2 (Hcells 0 0 ltac:(lia) ltac:(lia)))).
Defined.

(** What [CustomBBox.__init__] stores: the geometry and the prompts
    as given, and a feather ratio that is neither below 0 nor above 1
    (the given one when that is so already); a background region has
    no mask and its construction cannot fail, a foreground region has
    one. *)
Theorem custom_bbox_init_stores (x y w h : Z) (prompt neg_prompt : pyval)
    (blend_mode : BlendMode) (feather_radio : num) :
  let ratio := CustomBBox.clamp_ratio feather_radio in
  num_lt_zero ratio = false
  ∧ num_gt_one ratio = false
  ∧ (num_lt_zero feather_radio = false → num_gt_one feather_radio = false →
     ratio = feather_radio)
  ∧ CustomBBox.init x y w h prompt neg_prompt blend_mode feather_radio
    = match blend_mode with
      | BACKGROUND =>
          Ok (CustomBBox.mk (BBox.mk x y w h) prompt neg_prompt BACKGROUND
                ratio None)
      | FOREGROUND =>
          mask ← generate_feather_mask w h ratio;
          Ok (CustomBBox.mk (BBox.mk x y w h) prompt neg_prompt FOREGROUND
                ratio (Some mask))
      end.
Proof.
  cbv zeta. unfold CustomBBox.clamp_ratio.
  split; [|split; [|split]].
  - destruct (num_gt_one feather_radio) eqn:E1; [done|].
    by destruct (num_lt_zero feather_radio) eqn:E2.
  - destruct (num_gt_one feather_radio) eqn:E1; [done|].
    by destruct (num_lt_zero feather_radio) eqn:E2.
  - intros Hlt Hgt. by rewrite Hgt, Hlt.
  - by destruct blend_mode.
Qed.

(** A feather ratio that is not a number passes the clamp, and the
    mask of a foreground region then stops on [int(nan)] with a
    [ValueError], whatever the size of the region. *)
Theorem nan_feather_ratio (x y w h : Z) (prompt neg_prompt : pyval) :
  CustomBBox.clamp_ratio (NFloat S754_nan) = NFloat S754_nan
  ∧ CustomBBox.init x y w h prompt neg_prompt FOREGROUND (NFloat S754_nan)
    = Raise ValueError.
Proof.
  split; [reflexivity|]. unfold CustomBBox.init.
  change (CustomBBox.clamp_ratio (NFloat S754_nan)) with (NFloat S754_nan).
  unfold generate_feather_mask, np_ones.
  destruct (Z.ltb_spec h 0); [done|]. destruct (Z.ltb_spec w 0); [done|].
  destruct (Z.leb_spec (2 ^ 63) (h * w * 4)); [done|].
  cbn [orb mbind result_bind].
  assert (0 <= Z.min (w / 2) (h / 2) < 2 ^ 53) as Hk.
  { pose proof (Z.div_pos w 2 ltac:(lia) ltac:(lia)).
    pose proof (Z.div_pos h 2 ltac:(lia) ltac:(lia)).
    destruct (Z.eq_dec w 0) as [->|]; [change (0 / 2) with 0; lia|].
    destruct (Z.eq_dec h 0) as [->|]; [change (0 / 2) with 0; lia|].
    apply half_min_small; lia. }
  unfold feather_radius_of, int_mul_num, mul_int_float.
  destruct (Z.eq_dec (Z.min (w / 2) (h / 2)) 0) as [->|Hne]; [reflexivity|].
  destruct (float_of_int_exact (Z.min (w / 2) (h / 2)) ltac:(lia))
    as (m & e & -> & _).
  reflexivity.
Qed.

(** ** Regions: [init_custom_bbox] *)

Section Regions.

Implicit Types self : Self.t.

(** What is true of every region built from a tuple and of the
    regions so far is true of the regions after the loop. *)
Lemma custom_bbox_loop_Forall (P : CustomBBox.t → Prop) (self_w self_h : Z)
    (states : list pyval) (starts : list Z) (acc : list CustomBBox.t) :
  (∀ vals b, region_of_controls self_w self_h vals = Ok (Some b) → P b) →
  Forall P acc →
  Forall P (fst (custom_bbox_loop self_w self_h states starts acc)).
Proof.
  intros Hbuild. revert acc.
  induction starts as [|i starts IH]; intros acc Hacc; cbn; [done|].
  destruct (region_of_controls _ _ _) as [[b|]|e] eqn:E; cbn; [|by auto..].
  apply IH. apply Forall_app. split; [done|].
  apply Forall_singleton. by eapply Hbuild.
Qed.

Lemma init_custom_bbox_regions self draw_background states :
  Self.custom_bboxes (fst (init_custom_bbox self draw_background states))
  = fst (custom_bbox_loop (Self.w self) (Self.h self) states
           (range3 0 (Z.of_nat (length states) - 9) 9) [])
  ∧ Self.w (fst (init_custom_bbox self draw_background states)) = Self.w self
  ∧ Self.h (fst (init_custom_bbox self draw_background states)) = Self.h self.
Proof.
  unfold init_custom_bbox.
  destruct (custom_bbox_loop _ _ _ _ _) as [boxes [[]|e]]; cbn; [|done].
  destruct boxes as [|b boxes]; cbn; [done|].
  by destruct draw_background.
Qed.

Lemma region_of_controls_on_canvas (self_w self_h : Z) (vals : list pyval)
    (b : CustomBBox.t) :
  region_of_controls self_w self_h vals = Ok (Some b) →
  on_canvas self_w self_h (CustomBBox.bbox b)
  ∧ num_lt_zero (CustomBBox.feather_ratio b) = false
  ∧ num_gt_one (CustomBBox.feather_ratio b) = false
  ∧ (CustomBBox.feather_mask b = None
     ↔ CustomBBox.blend_mode b = BACKGROUND).
Proof.
  unfold region_of_controls.
  destruct vals as [|enable [|x [|y [|w [|h [|p [|neg [|mode [|ratio [|]]]]]]]]]];
    try done.
  destruct (truthy enable); cbn [negb]; [|done].
  destruct (as_num x) as [nx|]; [|done]. cbn [mbind result_bind].
  destruct (num_ge_one nx); [done|].
  destruct (as_num y) as [ny|]; [|done]. cbn [mbind result_bind].
  destruct (num_ge_one ny); [done|].
  destruct (as_num w) as [nw|]; [|done]. cbn [mbind result_bind].
  destruct (num_le_zero nw); [done|].
  destruct (as_num h) as [nh|]; [|done]. cbn [mbind result_bind].
  destruct (num_le_zero nh); [done|].
  destruct (num_mul_int nx self_w) as [px|]; [|done]. cbn [mbind result_bind].
  destruct (num_int px) as [x0|]; [|done]. cbn [mbind result_bind].
  destruct (num_mul_int ny self_h) as [py|]; [|done]. cbn [mbind result_bind].
  destruct (num_int py) as [y0|]; [|done]. cbn [mbind result_bind].
  destruct (num_mul_int nw self_w) as [pw|]; [|done]. cbn [mbind result_bind].
  destruct (num_ceil pw) as [w0|]; [|done]. cbn [mbind result_bind].
  destruct (num_mul_int nh self_h) as [ph|]; [|done]. cbn [mbind result_bind].
  destruct (num_ceil ph) as [h0|]; [|done]. cbn [mbind result_bind].
  destruct (BlendMode_of mode) as [bm|]; [|done]. cbn [mbind result_bind].
  destruct (as_num ratio) as [nr|]; [|done]. cbn [mbind result_bind].
  unfold CustomBBox.init.
  assert (Hclamp : num_lt_zero (CustomBBox.clamp_ratio nr) = false
                   ∧ num_gt_one (CustomBBox.clamp_ratio nr) = false).
  { unfold CustomBBox.clamp_ratio.
    destruct (num_gt_one nr) eqn:E1; [done|].
    by destruct (num_lt_zero nr) eqn:E2. }
  destruct bm.
  - destruct (generate_feather_mask _ _ _) as [m|]; [|done]. cbn.
    intros [= <-]. cbn. unfold on_canvas. cbn.
    split; [lia|]. split; [tauto|]. split; [tauto|]. done.
  - cbn. intros [= <-]. cbn. unfold on_canvas. cbn.
    split; [lia|]. split; [tauto|]. split; [tauto|]. done.
Qed.

End Regions.

(** Every region that [init_custom_bbox] leaves in [custom_bboxes]
    lies on the canvas: its corner is not negative and it does not
    pass the right or the lower edge; its feather ratio is neither
    below 0 nor above 1, and it carries a feather mask exactly when
    it is a foreground region.  This holds however the call ends. *)
Theorem regions_on_canvas (self : Self.t) (draw_background : bool)
    (bbox_control_states : list pyval) :
  Forall (fun b =>
      on_canvas (Self.w self) (Self.h self) (CustomBBox.bbox b)
      ∧ num_lt_zero (CustomBBox.feather_ratio b) = false
      ∧ num_gt_one (CustomBBox.feather_ratio b) = false
      ∧ (CustomBBox.feather_mask b = None
         ↔ CustomBBox.blend_mode b = BACKGROUND))
    (Self.custom_bboxes
       (fst (init_custom_bbox self draw_background bbox_control_states))).
Proof.
  destruct (init_custom_bbox_regions self draw_background bbox_control_states)
    as (-> & _ & _).
  apply custom_bbox_loop_Forall; [|done].
  apply region_of_controls_on_canvas.
Qed.

(** Each call builds the region list from its own arguments: the
    regions of an earlier call do not survive, and do not change what
    a later call builds. *)
Theorem regions_are_replaced (self : Self.t) (draw1 draw2 : bool)
    (states1 states2 : list pyval) :
  Self.custom_bboxes
    (fst (init_custom_bbox (fst (init_custom_bbox self draw1 states1))
            draw2 states2))
  = Self.custom_bboxes (fst (init_custom_bbox self draw2 states2)).
Proof.
  destruct (init_custom_bbox_regions self draw1 states1) as (_ & Hw & Hh).
  destruct (init_custom_bbox_regions
    (fst (init_custom_bbox self draw1 states1)) draw2 states2) as (-> & _ & _).
  destruct (init_custom_bbox_regions self draw2 states2) as (-> & _ & _).
  by rewrite Hw, Hh.
Qed.

Lemma init_custom_bbox_keeps_zero (self : Self.t) draw_background states :
  all_zero (Self.weights self) →
  all_zero (Self.weights (fst (init_custom_bbox self draw_background states))).
Proof.
  intros Hzero. unfold init_custom_bbox.
  destruct (custom_bbox_loop _ _ _ _ _) as [boxes [[]|e]]; cbn; [|done].
  destruct boxes as [|b boxes]; cbn; [done|].
  destruct draw_background; cbn; [done|].
  apply Forall_fmap, Forall_forall. intros row _. cbn.
  apply Forall_fmap, Forall_forall. by intros v _.
Qed.

(** A call that builds a region with the background switched off
    zeroes the weight map, and no later call of [init_custom_bbox]
    brings the weights back, whatever its background flag is. *)
Theorem background_weights_stay_zero (self : Self.t) (states : list pyval)
    (calls : list (bool * list pyval)) :
  let s1 := fst (init_custom_bbox self false states) in
  snd (init_custom_bbox self false states) = Ok tt →
  Self.custom_bboxes s1 ≠ [] →
  Self.draw_background s1 = false
  ∧ all_zero (Self.weights s1)
  ∧ all_zero (Self.weights (init_custom_bbox_calls s1 calls)).
Proof.
  cbv zeta. intros Hok Hregion.
  assert (Self.draw_background (fst (init_custom_bbox self false states)) = false
          ∧ all_zero (Self.weights (fst (init_custom_bbox self false states))))
    as [Hoff Hzero].
  { revert Hok Hregion. unfold init_custom_bbox.
    destruct (custom_bbox_loop _ _ _ _ _) as [boxes [[]|e]]; cbn; [|done].
    destruct boxes as [|b boxes]; cbn; [done|].
    intros _ _. split; [done|].
    apply Forall_fmap, Forall_forall. intros row _. cbn.
    apply Forall_fmap, Forall_forall. by intros v _. }
  split; [done|]. split; [done|].
  revert Hzero. generalize (fst (init_custom_bbox self false states)).
  induction calls as [|[d st] calls IH]; intros s Hs; cbn; [done|].
  apply IH. by apply init_custom_bbox_keeps_zero.
Qed.

(** A region with the background off on the canvas of 80 by 16 cells,
    then a call with the background on and no tuple. *)
Lemma background_weights_stay_zero_witness :
  ∃ s0,
    TiledDiffusion_init uniform_weights "MultiDiffusion" "Euler a"
      640 128 1 20 16 16 0 4 false = Ok s0
    ∧ all_zero (Self.weights (init_custom_bbox_calls
        (fst (init_custom_bbox s0 false (example_controls ++ example_controls)))
        [(true, [])])).
Proof.
  eexists. split; [vm_compute; reflexivity|].
  refine (proj2 (proj2 (background_weights_stay_zero _
    (example_controls ++ example_controls) [(true, [])] _ _))).
  - vm_compute. reflexivity.
  - vm_compute. discriminate.
Defined.

(** ** Disabled tuples *)

Lemma slice_tuple (tuples : list (list pyval)) (tail t : list pyval) (j : nat) :
  Forall (fun t => length t = 9%nat) tuples →
  tuples !! j = Some t →
  slice (concat tuples ++ tail) (9 * Z.of_nat j) (9 * Z.of_nat j + 9) = t.
Proof.
  intros Hlen Hj. rewrite slice_take_drop by lia.
  replace (Z.to_nat (9 * Z.of_nat j + 9) - Z.to_nat (9 * Z.of_nat j))%nat
    with 9%nat by lia.
  replace (Z.to_nat (9 * Z.of_nat j)) with (9 * j)%nat by lia.
  revert j Hj. induction Hlen as [|t0 tuples Ht0 Hlen IH]; intros j Hj;
    [done|].
  destruct j as [|j]; cbn [concat].
  - injection Hj as ->. rewrite <- app_assoc.
    replace (9 * 0)%nat with 0%nat by lia. rewrite drop_0.
    rewrite take_app_length'; done.
  - cbn in Hj. rewrite <- app_assoc.
    replace (9 * S j)%nat with (length t0 + 9 * j)%nat by lia.
    rewrite drop_app_add'; [|done]. by apply IH.
Qed.

(** A tuple whose first value is falsy is skipped without a look at
    its other values: a list of such tuples, whatever else they hold,
    followed by at most nine further values (which the loop does not
    reach), yields no region and no error, and leaves the background
    flag and the weights as they were. *)
Theorem disabled_tuples_are_skipped (self : Self.t) (draw_background : bool)
    (tuples : list (list pyval)) (tail : list pyval) :
  Forall (fun t => length t = 9%nat ∧ ∃ enable rest,
            t = enable :: rest ∧ truthy enable = false) tuples →
  (length tail <= 9)%nat →
  init_custom_bbox self draw_background (concat tuples ++ tail)
  = (Self.set_custom_bboxes [] self, Ok tt).
Proof.
  intros Htuples Htail.
  assert (Hlen : Forall (fun t : list pyval => length t = 9%nat) tuples).
  { eapply Forall_impl; [exact Htuples|]. by intros t [? _]. }
  assert (Hconcat : length (concat tuples) = (9 * length tuples)%nat).
  { clear Htuples. induction Hlen as [|t ts Ht _ IH]; [done|].
    cbn. rewrite length_app, Ht, IH. lia. }
  assert (Hloop : ∀ starts,
    Forall (fun i => ∃ j : nat, i = 9 * Z.of_nat j ∧ (j < length tuples)%nat)
      starts →
    custom_bbox_loop (Self.w self) (Self.h self) (concat tuples ++ tail)
      starts [] = ([], Ok tt)).
  { intros starts Hstarts.
    induction Hstarts as [|i starts (j & -> & Hj) _ IH]; [done|].
    cbn [custom_bbox_loop].
    destruct (lookup_lt_is_Some_2 tuples j Hj) as [t Ht].
    rewrite (slice_tuple tuples tail t j Hlen Ht).
    rewrite Forall_lookup in Htuples.
    destruct (Htuples j t Ht) as (Ht9 & enable & rest & -> & Hoff).
    destruct rest as [|x [|y [|w [|h [|p [|neg [|mode [|ratio [|]]]]]]]]];
      try done.
    cbn [region_of_controls]. rewrite Hoff. exact IH. }
  unfold init_custom_bbox. rewrite Hloop; [done|].
  apply Forall_forall. intros i Hi. unfold range3 in Hi.
  apply list_elem_of_fmap in Hi as (j & -> & Hj%elem_of_seq).
  exists j. split; [lia|].
  destruct Hj as [_ Hj]. cbn in Hj.
  rewrite length_app, Hconcat in Hj.
  assert ((Z.of_nat (9 * length tuples + length tail) - 9 - 0 + 9 - 1) / 9
          < Z.of_nat (length tuples) + 1) as Hdiv.
  { apply Z.div_lt_upper_bound; lia. }
  lia.
Qed.

(** Three disabled rows of the region table with values of any
    kind. *)
Lemma disabled_tuples_are_skipped_witness :
  init_custom_bbox example_self true
    (concat (replicate 3
       [VBool false; VStr "x"; VNum (NInt 7); VStr ""; VBool true;
        VStr "p"; VStr "n"; VStr "Neither"; VStr "ratio"]) ++ [])
  = (Self.set_custom_bboxes [] example_self, Ok tt).
Proof.
  apply disabled_tuples_are_skipped; [|cbn; lia].
  repeat constructor; eexists _, _; split; reflexivity.
Defined.


(** ** The progress bar *)

Section ProgressBar.

Implicit Types self : Self.t.

Lemma update_pbar_calls_app (l1 l2 : list Z) self (n : Z) :
  update_pbar_calls (l1 ++ l2) self n =
    match update_pbar_calls l1 self n with
    | (self1, n1, Ok _) => update_pbar_calls l2 self1 n1
    | (self1, n1, Raise e) => (self1, n1, Raise e)
    end.
Proof.
  revert self n. induction l1 as [|step l1 IH]; intros self n; cbn; [done|].
  destruct (update_pbar self n step) as [self1 [[[]|]|e]]; auto.
Qed.

(** Calls while [state.sampling_step] is the recorded step. *)
Lemma update_pbar_same_step (k : nat) self (n total T : Z) :
  Self.pbar self = Some total →
  Self.total_bboxes self = Some T →
  n + Z.of_nat k <= total →
  update_pbar_calls (replicate k (Self.step_count self)) self n
  = (set_inner_loop_count (Self.inner_loop_count self + Z.of_nat k) self,
     n + Z.max 0 (Z.min (Z.of_nat k) (T - 1 - Self.inner_loop_count self)),
     Ok tt).
Proof.
  revert self n. induction k as [|k IH]; intros self n Hbar HT Hroom.
  - cbn. rewrite Z.add_0_r.
    replace (Z.max 0 (Z.min 0 _)) with 0 by lia. rewrite Z.add_0_r.
    by destruct self.
  - cbn [replicate update_pbar_calls]. unfold update_pbar. rewrite Hbar.
    destruct (Z.leb_spec total n); [lia|].
    rewrite Z.eqb_refl. cbv zeta.
    set (self1 := set_inner_loop_count (Self.inner_loop_count self + 1) self).
    change (Self.total_bboxes self1) with (Self.total_bboxes self).
    rewrite HT.
    change (Self.inner_loop_count self1) with (Self.inner_loop_count self + 1).
    change (Self.step_count self) with (Self.step_count self1).
    destruct (Z.ltb_spec (Self.inner_loop_count self + 1) T).
    + rewrite IH by (try done; lia).
      f_equal. f_equal; [|cbn; lia].
      subst self1. unfold set_inner_loop_count. cbn. f_equal. lia.
    + rewrite IH by (try done; lia).
      f_equal. f_equal; [|cbn; lia].
      subst self1. unfold set_inner_loop_count. cbn. f_equal. lia.
Qed.

(** Calls at a step that is not the recorded one. *)
Lemma update_pbar_new_step (k : nat) self (sampling_step n total T : Z) :
  Self.pbar self = Some total →
  Self.total_bboxes self = Some T →
  Self.step_count self ≠ sampling_step →
  n + Z.of_nat (S k) <= total →
  update_pbar_calls (replicate (S k) sampling_step) self n
  = (set_inner_loop_count (Z.of_nat k) (set_step_count sampling_step self),
     n + Z.max 0 (Z.min (Z.of_nat k) (T - 1)),
     Ok tt).
Proof.
  intros Hbar HT Hnew Hroom.
  cbn [replicate update_pbar_calls]. unfold update_pbar. rewrite Hbar.
  destruct (Z.leb_spec total n); [lia|].
  destruct (Z.eqb_spec (Self.step_count self) sampling_step); [done|].
  set (self1 := set_inner_loop_count 0 (set_step_count sampling_step self)).
  change sampling_step with (Self.step_count self1) at 1.
  rewrite (update_pbar_same_step k self1 n total T) by (try done; lia).
  apply (f_equal2 (fun s' n' => (s', n', Ok tt))).
  - subst self1. unfold set_inner_loop_count. cbn. f_equal.
  - cbn. lia.
Qed.

End ProgressBar.

(** Between two changes of [state.sampling_step] the bar advances at
    most [total_bboxes - 1] times, however often [update_pbar] is
    called: with room on the bar, [k] calls at a step that is already
    recorded advance it once for each call that leaves
    [inner_loop_count] below [total_bboxes]; at a new step the first
    call records the step and resets the count without advancing the
    bar, and the [k - 1] others advance it [min(k - 1, total_bboxes -
    1)] times. *)
Theorem update_pbar_within_step (self : Self.t) (sampling_step : Z) (k : nat)
    (pbar_n total total_bboxes : Z) :
  Self.pbar self = Some total →
  Self.total_bboxes self = Some total_bboxes →
  pbar_n + Z.of_nat k <= total →
  update_pbar_calls (replicate k sampling_step) self pbar_n =
    if Self.step_count self =? sampling_step then
      (set_inner_loop_count (Self.inner_loop_count self + Z.of_nat k) self,
       pbar_n + Z.max 0 (Z.min (Z.of_nat k)
                           (total_bboxes - 1 - Self.inner_loop_count self)),
       Ok tt)
    else if Z.of_nat k =? 0 then (self, pbar_n, Ok tt)
    else
      (set_inner_loop_count (Z.of_nat k - 1) (set_step_count sampling_step self),
       pbar_n + Z.max 0 (Z.min (Z.of_nat k - 1) (total_bboxes - 1)),
       Ok tt).
Proof.
  intros Hbar HT Hroom.
  destruct (Z.eqb_spec (Self.step_count self) sampling_step) as [<-|Hnew].
  { by apply (update_pbar_same_step k self pbar_n total total_bboxes). }
  destruct k as [|k]; [done|].
  destruct (Z.eqb_spec (Z.of_nat (S k)) 0); [lia|].
  rewrite (update_pbar_new_step k self sampling_step pbar_n total total_bboxes)
    by done.
  do 2 f_equal; [f_equal|]; lia.
Qed.


(** The example object after [init], with a bar of 2 times 20 steps:
    five calls at step 0 advance the bar once. *)
Lemma update_pbar_within_step_witness :
  snd (fst (update_pbar_calls (replicate 5 0)
              (fst (init example_self false 20 [1; 4; 8; 8])) 0)) = 1.
Proof.
  rewrite (update_pbar_within_step _ 0 5 0 40 2); [reflexivity..|lia].
Defined.

(** A sampling run in which [update_pbar] is called [total_bboxes]
    times in each step, on the object and the bar as [init] leaves
    them: the bar ends at [steps * (total_bboxes - 1)], below its
    total of [steps * total_bboxes]; [update_pbar] has never found it
    full. *)
Theorem pbar_stays_short (self : Self.t) (total_bboxes steps : Z) :
  Self.pbar self = Some (total_bboxes * steps) →
  Self.total_bboxes self = Some total_bboxes →
  Self.step_count self = 0 →
  Self.inner_loop_count self = 0 →
  0 < total_bboxes → 0 <= steps →
  ∃ self',
    update_pbar_calls (sampling_run steps (Z.to_nat total_bboxes)) self 0
    = (self', steps * (total_bboxes - 1), Ok tt).
Proof.
  intros Hbar HT Hsc Hil HTpos Hsteps.
  assert (Hind : ∀ s : nat, Z.of_nat s <= steps →
    ∃ self',
      update_pbar_calls (sampling_run (Z.of_nat s) (Z.to_nat total_bboxes))
        self 0 = (self', Z.of_nat s * (total_bboxes - 1), Ok tt)
      ∧ Self.pbar self' = Some (total_bboxes * steps)
      ∧ Self.total_bboxes self' = Some total_bboxes
      ∧ (s = 0%nat → self' = self)
      ∧ ((0 < s)%nat → Self.step_count self' = Z.of_nat s - 1)).
  { induction s as [|s IH]; intros Hs.
    { exists self. repeat split; try done. lia. }
    destruct IH as (self1 & Hrun & Hbar1 & HT1 & Hzero & Hpos); [lia|].
    unfold sampling_run in *.
    rewrite Nat2Z.inj_succ, <- Z.add_1_r, range_succ, fmap_app, concat_app
      by lia.
    rewrite update_pbar_calls_app, Hrun. cbn [fmap list_fmap concat].
    rewrite app_nil_r.
    destruct s as [|s].
    - rewrite (Hzero eq_refl).
      replace (replicate (Z.to_nat total_bboxes) (Z.of_nat 0))
        with (replicate (Z.to_nat total_bboxes) (Self.step_count self))
        by (by rewrite Hsc).
      rewrite (update_pbar_same_step (Z.to_nat total_bboxes) self _
        (total_bboxes * steps) total_bboxes) by (try done; nia).
      rewrite Z2Nat.id, Hil by lia.
      eexists. split; [do 2 f_equal; lia|].
      cbn. repeat split; try done; lia.
    - destruct (Z.to_nat total_bboxes) as [|k] eqn:Ek; [lia|].
      rewrite (update_pbar_new_step k self1 (Z.of_nat (S s)) _
        (total_bboxes * steps) total_bboxes);
        [|done|done|rewrite (Hpos ltac:(lia)); lia|nia].
      eexists. split; [do 2 f_equal; lia|].
      cbn. repeat split; try done; lia. }
  destruct (Hind (Z.to_nat steps) ltac:(lia)) as (self' & Hrun & _).
  rewrite Z2Nat.id in Hrun by lia. by exists self'.
Qed.

(** The example object: two regions to sample in each of 20 steps. *)
Lemma pbar_stays_short_witness :
  ∃ self',
    update_pbar_calls (sampling_run 20 2)
      (fst (init example_self false 20 [1; 4; 8; 8])) 0
    = (self', 20, Ok tt).
Proof.
  exact (pbar_stays_short (fst (init example_self false 20 [1; 4; 8; 8]))
    2 20 eq_refl eq_refl eq_refl eq_refl ltac:(lia) ltac:(lia)).
Defined.

(** ** ControlNet hints *)

Section ControlNetProperties.

Context `{HintOps}.

Import ControlNet.

Implicit Types c : ControlNet.t.

Lemma mapM_length {A B : Type} (f : A → result B) (l : list A) (l' : list B) :
  mapM f l = Ok l' → length l' = length l.
Proof.
  revert l'. induction l as [|a l IH]; intros l'; cbn; [by intros [= <-]|].
  destruct (f a) as [b|]; [|done]. cbn.
  destruct (mapM f l) as [bs|]; [|done]. cbn.
  intros [= <-]. cbn. f_equal. by apply IH.
Qed.

Lemma list_item_in_range {A} (l : list A) (i : nat) (x : A) :
  l !! i = Some x → list_item l (Z.of_nat i) = Ok x.
Proof.
  intros Hi. unfold list_item.
  rewrite index_in_range by (apply lookup_lt_Some in Hi; lia).
  cbn. by rewrite Nat2Z.id, Hi.
Qed.

(** The loop of [prepare_control_tensors] leaves the parameters and
    the original hints alone and keeps the tile cache in existence. *)
Lemma prepare_loop_frame (self : Self.t) (tensors : list Hint) c :
  control_params (fst (prepare_loop self tensors c)) = control_params c
  ∧ org_control_tensor_batch (fst (prepare_loop self tensors c))
    = org_control_tensor_batch c
  ∧ (is_Some (control_tensor_batch c) →
     is_Some (control_tensor_batch (fst (prepare_loop self tensors c)))).
Proof.
  revert c. induction tensors as [|t tensors IH]; intros c; cbn; [done|].
  destruct (mapM (batch_tile _ t) _) as [tiles|]; cbn; [|done].
  destruct (0 <? _).
  - destruct (mapM (custom_tile _ t) _) as [ctiles|]; cbn; [|by eauto].
    destruct (IH (set_control_tensor_custom
      (control_tensor_custom c ++ [ctiles])
      (set_control_tensor_batch
         (Some (default [] (control_tensor_batch c) ++ [tiles])) c)))
      as (-> & -> & Hb).
    split; [done|]. split; [done|]. intros _. apply Hb. by eexists.
  - destruct (IH (set_control_tensor_batch
         (Some (default [] (control_tensor_batch c) ++ [tiles])) c))
      as (-> & -> & Hb).
    split; [done|]. split; [done|]. intros _. apply Hb. by eexists.
Qed.

Lemma prepare_control_tensors_skips (self : Self.t)
    (latest_network : option (option (list Hint))) c :
  is_Some (control_tensor_batch c) ∨ controlnet_script c = false
    ∨ is_Some (control_params c) →
  prepare_control_tensors self latest_network c = (c, Ok tt).
Proof.
  intros Hskip. unfold prepare_control_tensors.
  destruct (bool_decide (is_Some (control_tensor_batch c))) eqn:Eb; [done|].
  apply bool_decide_eq_false in Eb.
  destruct Hskip as [Hb|[-> |Hp]]; [done|done|].
  rewrite (bool_decide_eq_true_2 _ Hp). by rewrite orb_true_r.
Qed.

(** Once a control network with parameters has been seen, a further
    call of [prepare_control_tensors] changes nothing, whatever the
    object and the network are by then: the hints are cropped and
    cached once. *)
Theorem prepare_control_tensors_once (self self' : Self.t)
    (hints : list Hint) (latest_network' : option (option (list Hint))) c :
  prepare_control_tensors self' latest_network'
    (fst (prepare_control_tensors self (Some (Some hints)) c))
  = (fst (prepare_control_tensors self (Some (Some hints)) c), Ok tt).
Proof.
  apply prepare_control_tensors_skips.
  unfold prepare_control_tensors.
  destruct (bool_decide (is_Some (control_tensor_batch c))) eqn:Eb.
  { left. cbn. by apply bool_decide_eq_true in Eb. }
  destruct (negb (controlnet_script c)
            || bool_decide (is_Some (control_params c))) eqn:Es.
  { right. cbn. apply orb_true_iff in Es as [Es|Es].
    - left. by destruct (controlnet_script c).
    - right. by apply bool_decide_eq_true in Es. }
  cbv zeta. destruct (Z.of_nat (length hints) =? 0).
  { right. right. cbn. by eexists. }
  set (c0 := set_control_tensor_batch _ _).
  destruct (prepare_loop_frame self hints c0) as (Hp & _ & Hb).
  right. right. rewrite Hp. by eexists.
Qed.

(** The caches after a loop that has run through. *)
Lemma prepare_loop_caches (self : Self.t) (tensors : list Hint) c c'
    (batch0 : list (list Hint)) :
  control_tensor_batch c = Some batch0 →
  prepare_loop self tensors c = (c', Ok tt) →
  ∃ batch custom,
    control_tensor_batch c' = Some (batch0 ++ batch)
    ∧ control_tensor_custom c' = control_tensor_custom c ++ custom
    ∧ Forall2 (fun t tiles =>
        mapM (batch_tile (control_tensor_cpu c) t) (Self.batched_bboxes self)
        = Ok tiles) tensors batch
    ∧ (if decide (Self.custom_bboxes self = []) then custom = []
       else Forall2 (fun t tiles =>
              mapM (custom_tile (control_tensor_cpu c) t)
                (Self.custom_bboxes self) = Ok tiles) tensors custom).
Proof.
  revert c batch0. induction tensors as [|t tensors IH]; intros c batch0 Hb0.
  { cbn. intros [= <-]. exists [], []. rewrite !app_nil_r.
    repeat split; try done. by destruct (decide _). }
  cbn [prepare_loop]. rewrite Hb0. cbn [default].
  destruct (mapM (batch_tile _ t) _) as [tiles|] eqn:Etiles; [|done].
  destruct (Z.ltb_spec 0 (Z.of_nat (length (Self.custom_bboxes self))))
    as [Hcustom|Hcustom].
  - cbn [control_tensor_cpu set_control_tensor_batch].
    destruct (mapM (custom_tile _ t) _) as [ctiles|] eqn:Ectiles; [|done].
    intros Hrun.
    eapply IH in Hrun; [|reflexivity].
    destruct Hrun as (batch & custom & Hb & Hc & Hbatch & Hcust).
    exists (tiles :: batch), (ctiles :: custom).
    rewrite Hb, Hc. cbn. rewrite <- !app_assoc. cbn.
    split; [done|]. split; [done|]. split; [by constructor|].
    destruct (decide (Self.custom_bboxes self = [])) as [Hnil|_].
    { rewrite Hnil in Hcustom. cbn in Hcustom. lia. }
    by constructor.
  - intros Hrun.
    eapply IH in Hrun; [|reflexivity].
    destruct Hrun as (batch & custom & Hb & Hc & Hbatch & Hcust).
    exists (tiles :: batch), custom.
    rewrite Hb, Hc. cbn. rewrite <- !app_assoc. cbn.
    split; [done|]. split; [done|]. split; [by constructor|].
    destruct (decide (Self.custom_bboxes self = [])) as [_|Hne]; [done|].
    destruct (Self.custom_bboxes self); [done|]. cbn in Hcustom. lia.
Qed.

(** The caches after the first preparation on a new object with a
    script: the parameters are bound to the network's, their hints
    are kept as the originals, and for every parameter there is one
    cached hint per tile batch (the concatenation of the crops under
    the tiles of the batch) and, when there are regions, one cached
    hint per region; without regions the region cache stays empty. *)
Theorem prepare_control_tensors_caches (self : Self.t) (hints : list Hint)
    (cpu : bool) c' :
  hints ≠ [] →
  prepare_control_tensors self (Some (Some hints)) (fresh true cpu)
    = (c', Ok tt) →
  control_params c' = Some hints
  ∧ org_control_tensor_batch c' = Some hints
  ∧ ∃ batch,
      control_tensor_batch c' = Some batch
      ∧ length batch = length hints
      ∧ Forall2 (fun t tiles =>
          mapM (batch_tile cpu t) (Self.batched_bboxes self) = Ok tiles
          ∧ length tiles = length (Self.batched_bboxes self)) hints batch
      ∧ (if decide (Self.custom_bboxes self = [])
         then control_tensor_custom c' = []
         else length (control_tensor_custom c') = length hints
              ∧ Forall2 (fun t tiles =>
                  mapM (custom_tile cpu t) (Self.custom_bboxes self) = Ok tiles
                  ∧ length tiles = length (Self.custom_bboxes self))
                hints (control_tensor_custom c')).
Proof.
  intros Hne. unfold prepare_control_tensors, fresh. cbn.
  destruct hints as [|t0 hints0] eqn:Eh; [done|]. rewrite <- Eh in *.
  destruct (Z.eqb_spec (Z.of_nat (length hints)) 0) as [Hz|_];
    [rewrite Eh in Hz; cbn in Hz; lia|].
  set (c0 := set_control_tensor_batch _ _). intros Hrun.
  destruct (prepare_loop_frame self hints c0) as (Hp & Ho & _).
  rewrite Hrun in Hp, Ho. cbn in Hp, Ho.
  destruct (prepare_loop_caches self hints c0 c' [] eq_refl Hrun)
    as (batch & custom & Hb & Hc & Hbatch & Hcust).
  cbn in Hb, Hc, Hbatch, Hcust.
  split; [done|]. split; [done|]. exists batch.
  split; [done|]. split; [symmetry; by eapply Forall2_length|].
  split.
  - eapply Forall2_impl; [exact Hbatch|]. cbn. intros t tiles Ht.
    split; [done|]. by eapply mapM_length.
  - rewrite Hc. destruct (decide (Self.custom_bboxes self = [])); [done|].
    split; [symmetry; by eapply Forall2_length|].
    eapply Forall2_impl; [exact Hcust|]. cbn. intros t tiles Ht.
    split; [done|]. by eapply mapM_length.
Qed.

(** Writing hints into the parameters changes the parameter list
    only, and not its length. *)
Lemma assign_hints_frame (hint : Z → result Hint) (param_ids : list Z) c
    (params : list Hint) :
  control_params c = Some params →
  ∃ params',
    fst (assign_hints hint param_ids c) = set_control_params (Some params') c
    ∧ length params' = length params.
Proof.
  revert c params. induction param_ids as [|i ids IH]; intros c params Hp.
  { exists params. split; [|done]. cbn. destruct c. cbn in Hp. by subst. }
  cbn [assign_hints]. rewrite Hp.
  destruct (hint i) as [v|]; cbn.
  2: { exists params. split; [|done]. destruct c. cbn in Hp. by subst. }
  destruct (index _ i) as [n|]; cbn.
  2: { exists params. split; [|done]. destruct c. cbn in Hp. by subst. }
  destruct (IH (set_control_params (Some (<[n := v]> params)) c)
              (<[n := v]> params) eq_refl) as (params' & -> & Hlen).
  exists params'. split; [done|]. by rewrite Hlen, length_insert.
Qed.

Lemma call_frame (self : Self.t) (call : Call) c (params : list Hint) :
  control_params c = Some params →
  ∃ params',
    run self [call] c = set_control_params (Some params') c
    ∧ length params' = length params.
Proof.
  intros Hp.
  assert (c = set_control_params (Some params) c) as Hc.
  { destruct c. cbn in Hp. by subst. }
  destruct call as [batch_id xb tb dn|bbox_id rep]; cbn.
  - unfold switch_controlnet_tensors.
    destruct (control_tensor_batch c); [|by eauto].
    unfold for_each_param. rewrite Hp. by apply assign_hints_frame.
  - unfold set_control_tensor. destruct (0 <? _); [|by eauto].
    unfold for_each_param. rewrite Hp. by apply assign_hints_frame.
Qed.

Lemma run_frame (self : Self.t) (calls : list Call) c (params : list Hint) :
  control_params c = Some params →
  ∃ params',
    run self calls c = set_control_params (Some params') c
    ∧ length params' = length params.
Proof.
  revert c params. induction calls as [|call calls IH]; intros c params Hp.
  { exists params. split; [|done]. destruct c. cbn in Hp. by subst. }
  change (run self (call :: calls) c) with (run self calls (run self [call] c)).
  destruct (call_frame self call c params Hp) as (p1 & -> & Hlen1).
  destruct (IH (set_control_params (Some p1) c) p1 eq_refl)
    as (p2 & -> & Hlen2).
  exists p2. split; [done|]. lia.
Qed.

(** Writing [org[i]] into parameter [i], for every [i] from [k] on,
    gives the original hints. *)
Lemma assign_originals (org params : list Hint) (k : nat) c :
  control_params c = Some (take k org ++ drop k params) →
  length params = length org →
  (k <= length org)%nat →
  assign_hints (list_item org) (Z.of_nat <$> seq k (length org - k)) c
  = (set_control_params (Some org) c, Ok tt).
Proof.
  intros Hp Hlen Hk. remember (length org - k)%nat as m eqn:Em.
  revert k c Hp Hk Em. induction m as [|m IH]; intros k c Hp Hk Em.
  - cbn. assert (k = length org) as -> by lia.
    rewrite firstn_all, drop_ge, app_nil_r in Hp by lia.
    destruct c. cbn in Hp. by subst.
  - cbn [seq fmap list_fmap assign_hints].
    destruct (lookup_lt_is_Some_2 org k ltac:(lia)) as [v Hv].
    rewrite (list_item_in_range _ _ _ Hv), Hp.
    rewrite index_in_range.
    2: { rewrite length_app, length_take, length_drop. lia. }
    rewrite Nat2Z.id.
    rewrite (IH (S k)); [done| |lia|lia]. cbn. f_equal.
    rewrite insert_app_r_alt by (rewrite length_take; lia).
    rewrite length_take, Nat.min_l, Nat.sub_diag by lia.
    rewrite (take_S_r _ _ _ Hv), <- app_assoc. f_equal.
    destruct (drop k params) as [|p ps] eqn:Ed.
    { apply (f_equal length) in Ed. rewrite length_drop in Ed. cbn in Ed. lia. }
    cbn. f_equal.
    change ps with (drop 1 (p :: ps)). rewrite <- Ed, drop_drop.
    f_equal. lia.
Qed.

(** After the preparation on a new object, whatever calls of
    [switch_controlnet_tensors] and [set_control_tensor] have been
    made since, and however they ended, [reset_controlnet_tensors]
    (and so [hook]) runs through and puts the hints that the network
    had at the preparation back into its parameters; nothing else
    changes. *)
Theorem reset_restores_hints (self : Self.t) (hints : list Hint) (cpu : bool)
    (calls : list Call) :
  let c1 :=
    fst (prepare_control_tensors self (Some (Some hints)) (fresh true cpu)) in
  let c2 := run self calls c1 in
  control_params c1 = Some hints
  ∧ reset_controlnet_tensors c2 = (set_control_params (Some hints) c2, Ok tt)
  ∧ hook c2 = (set_control_params (Some hints) c1, Ok tt).
Proof.
  cbv zeta.
  set (c1 := fst (prepare_control_tensors self (Some (Some hints))
                    (fresh true cpu))).
  assert (control_params c1 = Some hints
          ∧ org_control_tensor_batch c1 = Some hints
          ∧ (control_tensor_batch c1 = None → hints = [])) as (Hp & Ho & Hb).
  { subst c1. unfold prepare_control_tensors, fresh. cbn.
    destruct hints as [|t0 hints0] eqn:Eh; [done|]. rewrite <- Eh.
    destruct (Z.eqb_spec (Z.of_nat (length hints)) 0) as [Hz|_];
      [rewrite Eh in Hz; cbn in Hz; lia|].
    set (c0 := set_control_tensor_batch _ _).
    destruct (prepare_loop_frame self hints c0) as (-> & -> & Hsome).
    split; [done|]. split; [done|]. intros Hnone.
    destruct Hsome as [b Hsome]; [by eexists|]. congruence. }
  split; [done|].
  destruct (run_frame self calls c1 hints Hp) as (params & -> & Hlen).
  assert (reset_controlnet_tensors (set_control_params (Some params) c1)
          = (set_control_params (Some hints) c1, Ok tt)) as Hreset.
  { unfold reset_controlnet_tensors. cbn [control_tensor_batch set_control_params].
    destruct (control_tensor_batch c1) as [batch|] eqn:Eb.
    - unfold for_each_param. cbn [control_params set_control_params
        org_control_tensor_batch].
      rewrite Ho. unfold range. rewrite Nat2Z.id, Hlen.
      pose proof (assign_originals hints params 0
        (set_control_params (Some params) c1) eq_refl Hlen ltac:(lia))
        as Hassign.
      rewrite Nat.sub_0_r in Hassign. exact Hassign.
    - rewrite (Hb eq_refl) in *. destruct params; [done|]. done. }
  split; [|exact Hreset].
  rewrite Hreset. f_equal.
Qed.

End ControlNetProperties.

(** The example object with its one region and one hint of two
    entries. *)
Lemma prepare_control_tensors_caches_witness :
  ∃ c',
    ControlNet.prepare_control_tensors example_self (Some (Some [[1; 2]]))
      (ControlNet.fresh true false) = (c', Ok tt)
    ∧ ControlNet.control_params c' = Some [[1; 2]].
Proof.
  eexists. split; [vm_compute; reflexivity|].
  refine (proj1 (prepare_control_tensors_caches example_self [[1; 2]] false _
    ltac:(discriminate) _)).
  vm_compute. reflexivity.
Defined.

(** ** The image conditioning of a region *)

Section ImageConditioning.

Context `{Externals}.

Lemma reconstruct_custom_cond_eq (org_cond : OrgCond)
    (custom_cond : MulticondLearnedConditioning)
    (custom_uncond : LearnedConditioning) (bbox : CustomBBox.t) (st : State) :
  reconstruct_custom_cond org_cond custom_cond custom_uncond bbox st =
  (st, Ok (fst (reconstruct_multicond_batch custom_cond (sampler_step st)),
           snd (reconstruct_multicond_batch custom_cond (sampler_step st)),
           reconstruct_cond_batch custom_uncond (sampler_step st),
           region_image_cond (self st) org_cond bbox)).
Proof.
  unfold reconstruct_custom_cond, region_image_cond. simpl_M.
  destruct org_cond as [image_cond|]; simpl_M.
  - destruct (_ && _); simpl_M;
      by destruct (reconstruct_multicond_batch _ _).
  - by destruct (reconstruct_multicond_batch _ _).
Qed.

Variable Out : Type.
Variable forward_func : DdimCall → result Out.

(** [ddim_custom_forward] hands the latent and the timesteps on as
    they are, and the positive and the unconditional conditioning in
    the same wrapping: bare tensors when the original conditioning is
    a bare tensor, and otherwise two dicts with the same image
    conditioning, which is the original one cut down to the region
    [[y, y + h)] by [[x, x + w)] when it has the size of the canvas
    and the original one as it is when it has not. *)
Theorem ddim_image_conditioning x cond_in cond uncond_arg bbox ts st :
  let conds_list := fst (reconstruct_multicond_batch cond (sampler_step st)) in
  let t := snd (reconstruct_multicond_batch cond (sampler_step st)) in
  let img := region_image_cond (self st) cond_in bbox in
  let res :=
    ddim_custom_forward Out forward_func x cond_in cond uncond_arg bbox ts st in
  Forall (fun conds => length conds = 1%nat) conds_list →
  ∃ u',
    let c := mkDdimCall x (wrap_cond img t) ts (wrap_cond img u') in
    events (fst res) = events st ++ [DdimForward c]
    ∧ snd res = forward_func c.
Proof.
  intros conds_list t img res Hone. subst res.
  unfold ddim_custom_forward. simpl_M.
  rewrite reconstruct_custom_cond_eq. fold conds_list t img. simpl_M.
  assert (forallb (fun conds => Z.of_nat (length conds) =? 1) conds_list = true)
    as ->.
  { apply forallb_forall. intros conds Hin.
    rewrite Forall_forall in Hone. rewrite (Hone conds); [done|].
    by apply list_elem_of_In. }
  cbn [negb].
  set (u := reconstruct_cond_batch uncond_arg (sampler_step st)).
  exists (if shape1 u <? shape1 t then pad_uncond u (shape1 t - shape1 u)
          else if shape1 t <? shape1 u
               then (fun r => slice_to r (shape1 t)) <$> u else u).
  unfold wrap_cond.
  destruct img; simpl_M; destruct (forward_func _); split; reflexivity.
Qed.

End ImageConditioning.

(** The example region with a bare original conditioning. *)
Lemma ddim_image_conditioning_witness :
  ∃ c,
    events (fst (ddim_custom_forward _ echo_ddim [5] CondTensor example_cond
                   example_uncond example_region [9] example_state))
    = [DdimForward c]
    ∧ d_x c = [5] ∧ d_ts c = [9].
Proof.
  destruct (ddim_image_conditioning _ echo_ddim [5] CondTensor example_cond
    example_uncond example_region [9] example_state) as (u' & Hev & _).
  { repeat constructor. }
  eexists. split; [exact Hev|]. split; reflexivity.
Defined.

(** ** The first call of a step when the whole-canvas conditionings
       have equal token lengths *)

Section KdiffReset.

Context `{Externals}.

(** The reset at a step boundary. *)
Lemma kdiff_step_reset_eq (st : State) pos neg (bbox_id : Z) :
  let step := sampler_step st in
  let n := length (Self.custom_bboxes (self st)) in
  Self.kdiff_step (self st) ≠ step →
  all_pos_cond st = Some pos →
  all_neg_cond st = Some neg →
  0 <= bbox_id < Z.of_nat n →
  0 <= step →
  kdiff_step_reset st =
    (mkState (Self.set_kdiff_step step (self st))
       (mkKdiffAttrs (Some (replicate n (-1))) (Some ∅) (Some ∅) (Some ∅)
          (Some (snd (reconstruct_multicond_batch pos step)))
          (Some (reconstruct_cond_batch neg step))
          (Some (replicate n 0)))
       (all_pos_cond st) (all_neg_cond st) step (batch_cond_uncond st)
       (events st), Ok tt).
Proof.
  intros step n Hstep Hpos Hneg Hid Hnonneg.
  unfold kdiff_step_reset. simpl_M. fold step.
  destruct (Z.eqb_spec (Self.kdiff_step (self st)) step); [done|].
  rewrite Hpos, Hneg. by simpl_M.
Qed.

End KdiffReset.

Section KdiffUniform.

Context `{Externals}.
Variable forward_func : KdiffCall → result (list Latent).

(** When the region's conditionings have equal token lengths too and
    [shared.batch_cond_uncond] is set, the call is one call of the
    noise predictor, on the whole latent batch, with the region's
    conditional entries followed by its unconditional entries (twice
    for an image-editing model) and with the region's image
    conditioning; it is announced to the control network with the
    size of the latent batch.  Nothing is cached for a replay. *)
Theorem kdiff_uniform_batched st pos neg (em : bool) bbox_id
    x_tile original_cond custom_cond uncond_arg bbox sigma_in :
  let step := sampler_step st in
  let n := length (Self.custom_bboxes (self st)) in
  let t := snd (reconstruct_multicond_batch custom_cond step) in
  let u := reconstruct_cond_batch uncond_arg step in
  let c :=
    mkKdiffCall x_tile sigma_in [if em then t ++ u ++ u else t ++ u]
      [region_image_cond (self st) original_cond bbox] in
  Self.kdiff_step (self st) ≠ step →
  all_pos_cond st = Some pos →
  all_neg_cond st = Some neg →
  shape1 (snd (reconstruct_multicond_batch pos step))
    = shape1 (reconstruct_cond_batch neg step) →
  shape1 t = shape1 u →
  batch_cond_uncond st = true →
  Self.is_edit_model (self st) = Some em →
  0 <= bbox_id < Z.of_nat n →
  0 <= step →
  ∃ st',
    kdiff_custom_forward forward_func x_tile original_cond custom_cond
      uncond_arg bbox_id bbox sigma_in st = (st', forward_func c)
    ∧ events st' =
        events st ++ [SetControlTensor bbox_id (Z.of_nat (length x_tile));
                      KdiffForward c]
    ∧ tensor (attrs st') = Some ∅
    ∧ uncond (attrs st') = Some ∅
    ∧ image_cond_in (attrs st') = Some ∅
    ∧ a (attrs st') = Some (replicate n 0).
Proof.
  intros step n t u c Hstep Hpos Hneg Hreal Hregion Hbatch Hedit Hid Hnonneg.
  unfold kdiff_custom_forward.
  unfold mbind at 1, M_bind at 1.
  rewrite (kdiff_step_reset_eq st pos neg bbox_id) by done.
  fold step n. unfold kdiff_first_touch, list_get, list_set. simpl_M.
  rewrite length_replicate, index_in_range by lia. simpl_M.
  rewrite lookup_replicate_2 by lia. simpl_M.
  destruct (Z.eqb_spec (-1) step) as [Hs|Hs]; [lia|].
  rewrite reconstruct_custom_cond_eq. simpl_M. fold t u.
  rewrite Hreal, Z.eqb_refl, Hregion, Z.eqb_refl, Hbatch. cbn [andb].
  change (Self.is_edit_model (Self.set_kdiff_step step (self st)))
    with (Self.is_edit_model (self st)).
  rewrite Hedit. simpl_M. subst c.
  destruct em; cbn [negb]; destruct (forward_func _);
    (eexists; split; [reflexivity|]); cbn; rewrite <- app_assoc; done.
Qed.

End KdiffUniform.

Section KdiffSplit.

Context `{Externals}.
Variable forward_func : KdiffCall → result (list Latent).

(** What the reset leaves alone, whether it is due or not and however
    it ends. *)
Lemma kdiff_step_reset_frame (st st0 : State) (r : result unit) :
  kdiff_step_reset st = (st0, r) →
  sampler_step st0 = sampler_step st
  ∧ batch_cond_uncond st0 = batch_cond_uncond st
  ∧ events st0 = events st
  ∧ (self st0 = self st
     ∨ self st0 = Self.set_kdiff_step (sampler_step st) (self st)).
Proof.
  unfold kdiff_step_reset. simpl_M.
  destruct (_ =? _); [intros [= <- <-]; auto|].
  destruct (all_pos_cond st); simpl_M; [|intros [= <- <-]; cbn; auto].
  destruct (all_neg_cond st); simpl_M; intros [= <- <-]; cbn; auto.
Qed.

(** [x_out[lo:hi] = v] changes nothing but [x_out]. *)
Lemma slice_assign_state (x_out v : list Latent) (lo hi : Z) (st : State) :
  ∃ r, slice_assign x_out lo hi v st = (st, r).
Proof.
  unfold slice_assign. destruct v as [|v1 [|v2 v]]; simpl_M;
    try destruct (bool_decide _); simpl_M; eauto.
Qed.

Lemma slice_assign_fits (x_out v : list Latent) (lo hi : Z) (st : State) :
  0 <= lo <= hi → hi <= Z.of_nat (length x_out) →
  Z.of_nat (length v) = hi - lo →
  slice_assign x_out lo hi v st
  = (st, Ok (take (Z.to_nat lo) x_out ++ v ++ drop (Z.to_nat hi) x_out)).
Proof.
  intros Hlo Hhi Hv. unfold slice_assign, slice_bound.
  destruct (Z.ltb_spec lo 0); [lia|]. destruct (Z.ltb_spec hi 0); [lia|].
  rewrite !Z.min_l, Z.max_r by lia.
  destruct v as [|v1 [|v2 v]].
  - rewrite bool_decide_eq_true_2 by (cbn in *; lia). done.
  - cbn in Hv. by replace (Z.to_nat (hi - lo)) with 1%nat by lia.
  - rewrite bool_decide_eq_true_2 by (cbn [length] in *; lia). done.
Qed.

(** The first call for a region in a step, at the step boundary or
    later in the step, when the whole-canvas conditionings have equal
    token lengths but the region's have not, or
    [shared.batch_cond_uncond] is off: the call splits the latent
    batch.  With a bare tensor as the original conditioning there is
    no image conditioning to split, and the call stops with a
    [TypeError] once it has announced the conditional part, before
    any call of the noise predictor. *)
Theorem kdiff_split_needs_image (st st0 : State) (real_t real_u : Tensor3)
    bbox_id x_tile custom_cond uncond_arg bbox sigma_in :
  let step := sampler_step st in
  let t := snd (reconstruct_multicond_batch custom_cond step) in
  let u := reconstruct_cond_batch uncond_arg step in
  kdiff_step_reset st = (st0, Ok tt) →
  untouched st0 bbox_id →
  real_tensor (attrs st0) = Some real_t →
  real_uncond (attrs st0) = Some real_u →
  shape1 real_t = shape1 real_u →
  shape1 t ≠ shape1 u ∨ batch_cond_uncond st = false →
  ∃ st',
    kdiff_custom_forward forward_func x_tile CondTensor custom_cond
      uncond_arg bbox_id bbox sigma_in st = (st', Raise TypeError)
    ∧ events st' = events st ++ [SetControlTensor bbox_id (shape0 t)].
Proof.
  intros step t u Hreset (markers & n & m & Hm & Hidx & Hlook & Hne)
    Hrt Hru Hreal Hsplit.
  destruct (kdiff_step_reset_frame _ _ _ Hreset) as (Hs & Hb & Hev & _).
  unfold kdiff_custom_forward. unfold mbind at 1, M_bind at 1.
  rewrite Hreset.
  unfold kdiff_first_touch, list_get, list_set. simpl_M.
  rewrite Hm. simpl_M. rewrite Hidx. simpl_M. rewrite Hlook. simpl_M.
  destruct (Z.eqb_spec m (sampler_step st0)); [done|]. simpl_M.
  rewrite reconstruct_custom_cond_eq. simpl_M.
  rewrite Hrt, Hru. simpl_M. rewrite Hs. fold step t u.
  rewrite Hreal, Z.eqb_refl.
  assert ((shape1 t =? shape1 u) && batch_cond_uncond st0 = false) as ->.
  { rewrite Hb. destruct Hsplit as [Hd| ->]; [|by rewrite andb_false_r].
    by destruct (Z.eqb_spec (shape1 t) (shape1 u)). }
  simpl_M. eexists. split; [reflexivity|]. cbn. by rewrite Hev.
Qed.

(** The same call with a dict as the original conditioning.  The
    call announces the conditional size [k] to the control network
    and calls the noise predictor on the first [k] latents with the
    region's [k] conditional entries and the first [k] entries of
    the image conditioning; an exception of the predictor ends the
    call.  Otherwise it announces the unconditional size [m] and
    calls the predictor on the next [m] latents with the [m]
    unconditional entries and their part of the image conditioning;
    again an exception ends the call.  When the two answers have [k]
    and [m] latents and the latent batch has [k + m] entries
    ([k + 2m] for an image-editing model), the result is the
    conditional answer followed by the unconditional answer (twice
    for an image-editing model).  In every case the caches and the
    cursors are those the reset has left. *)
Theorem kdiff_split_two_calls (st st0 : State) (real_t real_u : Tensor3)
    (em : bool) bbox_id x_tile image_cond custom_cond uncond_arg bbox
    sigma_in :
  let step := sampler_step st in
  let t := snd (reconstruct_multicond_batch custom_cond step) in
  let u := reconstruct_cond_batch uncond_arg step in
  let k := shape0 t in
  let m := shape0 u in
  let img :=
    default image_cond
      (region_image_cond (self st) (CondDict image_cond) bbox) in
  let c1 :=
    mkKdiffCall (slice_to x_tile k) (slice_to sigma_in k) [t]
      [Some (img_batch img 0 k)] in
  let c2 :=
    mkKdiffCall (slice x_tile k (k + m)) (slice sigma_in k (k + m)) [u]
      [Some (img_batch img k (k + m))] in
  kdiff_step_reset st = (st0, Ok tt) →
  untouched st0 bbox_id →
  real_tensor (attrs st0) = Some real_t →
  real_uncond (attrs st0) = Some real_u →
  shape1 real_t = shape1 real_u →
  shape1 t ≠ shape1 u ∨ batch_cond_uncond st = false →
  Self.is_edit_model (self st) = Some em →
  ∃ st' r,
    kdiff_custom_forward forward_func x_tile (CondDict image_cond)
      custom_cond uncond_arg bbox_id bbox sigma_in st = (st', r)
    ∧ match forward_func c1 with
      | Raise e =>
          r = Raise e
          ∧ events st' =
              events st ++ [SetControlTensor bbox_id k; KdiffForward c1]
      | Ok cond_out =>
          match forward_func c2 with
          | Raise e =>
              r = Raise e
              ∧ events st' =
                  events st ++ [SetControlTensor bbox_id k; KdiffForward c1;
                                SetControlTensor bbox_id m; KdiffForward c2]
          | Ok uncond_out =>
              events st' =
                events st ++ [SetControlTensor bbox_id k; KdiffForward c1;
                              SetControlTensor bbox_id m; KdiffForward c2]
              ∧ (Z.of_nat (length cond_out) = k →
                 Z.of_nat (length uncond_out) = m →
                 Z.of_nat (length x_tile) = k + m + (if em then m else 0) →
                 r = Ok (cond_out ++ uncond_out
                         ++ (if em then uncond_out else [])))
          end
      end
    ∧ tensor (attrs st') = tensor (attrs st0)
    ∧ uncond (attrs st') = uncond (attrs st0)
    ∧ image_cond_in (attrs st') = image_cond_in (attrs st0)
    ∧ a (attrs st') = a (attrs st0).
Proof.
  intros step t u k m img c1 c2 Hreset
    (markers & n & mk & Hm & Hidx & Hlook & Hne) Hrt Hru Hreal Hsplit Hedit.
  assert (0 <= k ∧ 0 <= m) as [Hk Hm0] by (unfold k, m, shape0; lia).
  destruct (kdiff_step_reset_frame _ _ _ Hreset) as (Hs & Hb & Hev & Hself).
  assert (Hedit0 : Self.is_edit_model (self st0) = Some em).
  { by destruct Hself as [-> | ->]. }
  assert (Himg : region_image_cond (self st0) (CondDict image_cond) bbox
                 = Some img).
  { subst img. destruct Hself as [-> | ->];
      unfold region_image_cond; cbn; by destruct (_ && _). }
  unfold kdiff_custom_forward. unfold mbind at 1, M_bind at 1.
  rewrite Hreset.
  unfold kdiff_first_touch, list_get, list_set. simpl_M.
  rewrite Hm. simpl_M. rewrite Hidx. simpl_M. rewrite Hlook. simpl_M.
  destruct (Z.eqb_spec mk (sampler_step st0)); [done|]. simpl_M.
  rewrite reconstruct_custom_cond_eq. simpl_M.
  rewrite Hrt, Hru. simpl_M. rewrite Hs. fold step t u.
  rewrite Hreal, Z.eqb_refl.
  assert ((shape1 t =? shape1 u) && batch_cond_uncond st0 = false) as ->.
  { rewrite Hb. destruct Hsplit as [Hd| ->]; [|by rewrite andb_false_r].
    by destruct (Z.eqb_spec (shape1 t) (shape1 u)). }
  rewrite Himg. simpl_M. fold k m. rewrite Hev.
  repeat match goal with
  | |- context [forward_func (mkKdiffCall ?x ?s ?c ?i)] =>
      first [ change (mkKdiffCall x s c i) with c1
            | change (mkKdiffCall x s c i) with c2 ]
  end.
  clearbody c1 c2. rename c1 into d1, c2 into d2.
  destruct (forward_func d1) as [cond_out|e1]; simpl_M;
    [|eexists _, _; split; [reflexivity|]; cbn;
      rewrite <- !app_assoc; done].
  destruct (forward_func d2) as [uncond_out|e2]; simpl_M;
    [|eexists _, _; split; [reflexivity|]; cbn;
      rewrite <- !app_assoc; done].
  set (x0 := zeros_like <$> x_tile).
  assert (Z.of_nat (length x0) = Z.of_nat (length x_tile)) as Hx0
    by (subst x0; by rewrite length_fmap).
  match goal with
  | |- context [slice_assign x0 0 k cond_out ?s] =>
      set (s4 := s);
      assert (events s4 =
                events st ++ [SetControlTensor bbox_id k; KdiffForward d1;
                              SetControlTensor bbox_id m; KdiffForward d2])
        as Hev4 by (cbn; by rewrite <- !app_assoc);
      assert (tensor (attrs s4) = tensor (attrs st0)
              ∧ uncond (attrs s4) = uncond (attrs st0)
              ∧ image_cond_in (attrs s4) = image_cond_in (attrs st0)
              ∧ a (attrs s4) = a (attrs st0))
        as Hat4 by (repeat split; reflexivity);
      clearbody s4
  end.
  destruct (slice_assign_state x0 cond_out 0 k s4) as [r1 E1]. rewrite E1.
  destruct r1 as [x1|e]; simpl_M.
  2:{ eexists _, _. split; [reflexivity|].
      split; [|exact Hat4]. split; [exact Hev4|]. intros Hl1 Hl2 Hlen.
      rewrite slice_assign_fits in E1 by (destruct em; lia). done. }
  destruct (slice_assign_state x1 uncond_out k (k + m) s4) as [r2 E2].
  rewrite E2. destruct r2 as [x2|e]; simpl_M.
  2:{ eexists _, _. split; [reflexivity|].
      split; [|exact Hat4]. split; [exact Hev4|]. intros Hl1 Hl2 Hlen.
      rewrite slice_assign_fits in E1 by (destruct em; lia).
      injection E1 as <-.
      rewrite slice_assign_fits in E2;
        [done | lia | | lia].
      rewrite length_app, length_drop. destruct em; lia. }
  rewrite Hedit0. simpl_M.
  assert (Hfit : Z.of_nat (length cond_out) = k →
                 Z.of_nat (length uncond_out) = m →
                 Z.of_nat (length x_tile) = k + m + (if em then m else 0) →
                 x2 = cond_out ++ uncond_out ++ drop (Z.to_nat (k + m)) x0).
  { intros Hl1 Hl2 Hlen.
    rewrite slice_assign_fits in E1 by (destruct em; lia).
    injection E1 as <-. cbn [Z.to_nat take app] in E2.
    rewrite slice_assign_fits in E2;
      [| lia | rewrite length_app, length_drop; destruct em; lia | lia].
    injection E2 as <-.
    rewrite take_app_length' by lia. do 2 f_equal.
    rewrite drop_app_ge by lia. rewrite drop_drop. f_equal. lia. }
  destruct em.
  - destruct (slice_assign_state x2 uncond_out (k + m)
                (Z.of_nat (length x2)) s4) as [r3 E3].
    rewrite E3. destruct r3 as [x3|e]; simpl_M;
      (eexists _, _; split; [reflexivity|]);
      (split; [|exact Hat4]); (split; [exact Hev4|]); intros Hl1 Hl2 Hlen;
      specialize (Hfit Hl1 Hl2 Hlen); subst x2;
      (rewrite slice_assign_fits in E3;
        [| rewrite !length_app, length_drop; lia
         | lia
         | rewrite !length_app, length_drop; lia]);
      [|done].
    injection E3 as <-. f_equal.
    rewrite Nat2Z.id, drop_all, app_nil_r.
    rewrite (app_assoc cond_out), take_app_length';
      [|rewrite length_app; lia].
    by rewrite <- app_assoc.
  - simpl_M. eexists _, _. split; [reflexivity|].
    split; [|exact Hat4]. split; [exact Hev4|]. intros Hl1 Hl2 Hlen.
    rewrite (Hfit Hl1 Hl2 Hlen). f_equal.
    rewrite drop_ge by lia. by rewrite !app_nil_r.
Qed.

End KdiffSplit.

(** ** Ragged conditioning and an image-editing model; a call before
       [refresh_prompt] *)

Section KdiffErrors.

Context `{Externals}.
Variable forward_func : KdiffCall → result (list Latent).

(** With ragged whole-canvas conditioning and an image-editing model,
    the first call of a step for a region that has a conditional
    entry stops with a [TypeError] (the second argument of
    [torch.cat] is the unconditional tensor): the cursor of the
    region has been moved on by the batch size, but nothing has been
    announced to the control network and the noise predictor has not
    been called. *)
Theorem kdiff_edit_model_ragged st pos neg bbox_id
    x_tile original_cond custom_cond uncond_arg bbox sigma_in :
  let step := sampler_step st in
  let n := length (Self.custom_bboxes (self st)) in
  let t := snd (reconstruct_multicond_batch custom_cond step) in
  Self.kdiff_step (self st) ≠ step →
  all_pos_cond st = Some pos →
  all_neg_cond st = Some neg →
  shape1 (snd (reconstruct_multicond_batch pos step))
    ≠ shape1 (reconstruct_cond_batch neg step) →
  Self.is_edit_model (self st) = Some true →
  0 < shape0 t →
  0 <= bbox_id < Z.of_nat n →
  0 <= step →
  ∃ st',
    kdiff_custom_forward forward_func x_tile original_cond custom_cond
      uncond_arg bbox_id bbox sigma_in st = (st', Raise TypeError)
    ∧ events st' = events st
    ∧ a (attrs st')
      = Some (<[Z.to_nat bbox_id := Z.of_nat (length x_tile)]>
                (replicate n 0)).
Proof.
  intros step n t Hstep Hpos Hneg Hragged Hedit Hcond Hid Hnonneg.
  unfold kdiff_custom_forward.
  unfold mbind at 1, M_bind at 1.
  rewrite (kdiff_step_reset_eq st pos neg bbox_id) by done.
  fold step n. unfold kdiff_first_touch, kdiff_replay, list_get, list_set.
  simpl_M.
  rewrite length_replicate, index_in_range by lia. simpl_M.
  rewrite lookup_replicate_2 by lia. simpl_M.
  destruct (Z.eqb_spec (-1) step) as [Hs|Hs]; [lia|].
  rewrite reconstruct_custom_cond_eq. simpl_M. fold t.
  destruct (Z.eqb_spec (shape1 (snd (reconstruct_multicond_batch pos step)))
              (shape1 (reconstruct_cond_batch neg step))); [done|].
  simpl_M. rewrite !lookup_insert_eq. simpl_M.
  rewrite length_replicate, index_in_range by lia. simpl_M.
  rewrite lookup_replicate_2 by lia. simpl_M.
  destruct (Z.ltb_spec 0 (shape0 t)); [|lia].
  change (Self.is_edit_model (Self.set_kdiff_step step (self st)))
    with (Self.is_edit_model (self st)).
  rewrite Hedit. simpl_M. eexists. split; [reflexivity|]. by cbn.
Qed.


End KdiffErrors.

(** Closed side conditions, by evaluation. *)
Ltac evaluate :=
  vm_compute;
  first [reflexivity | discriminate | split; [discriminate | reflexivity]].

(** The example region at step 0: equal token lengths, one call. *)
Lemma kdiff_uniform_batched_witness :
  ∃ st',
    kdiff_custom_forward echo_forward [5; 6] CondTensor example_cond
      example_uniform_uncond 0 example_region [1; 1] example_uniform_state
    = (st', Ok [5; 6])
    ∧ forwarded (events st') = [[[[10; 11; 12]; [20; 21; 22]]]].
Proof.
  destruct (kdiff_uniform_batched echo_forward example_uniform_state
    ([[(0, fone)]], [[1; 2; 3]]) [[7; 8; 9]] false 0 [5; 6] CondTensor
    example_cond example_uniform_uncond example_region [1; 1])
    as (st' & Hrun & Hev & _);
    [evaluate | reflexivity | reflexivity | reflexivity | reflexivity
    | reflexivity | reflexivity | evaluate | evaluate |].
  exists st'. split; [exact Hrun|]. rewrite Hev. reflexivity.
Defined.

(** The split call at a step boundary, and for the second region
    after the first region has been served in the step: unequal token
    lengths of the region, and a bare tensor as the original
    conditioning. *)
Lemma kdiff_split_needs_image_witness :
  (∃ st',
     kdiff_custom_forward echo_forward [5; 6; 7] CondTensor example_cond
       example_uncond 0 example_region [1; 1; 1] example_uniform_state
     = (st', Raise TypeError))
  ∧ (∃ st',
       kdiff_custom_forward echo_forward [5; 6; 7] CondTensor
         example_second_cond example_second_uncond 1 example_second_region
         [1; 1; 1] example_mid_step_state
       = (st', Raise TypeError)
       ∧ events st' =
           events example_mid_step_state ++ [SetControlTensor 1 2]).
Proof.
  split.
  - destruct (kdiff_split_needs_image echo_forward example_uniform_state
      (fst (kdiff_step_reset example_uniform_state)) [[1; 2; 3]] [[7; 8; 9]]
      0 [5; 6; 7] example_cond example_uncond example_region [1; 1; 1])
      as (st' & Hrun & _).
    + vm_compute. reflexivity.
    + exists [-1], 0%nat, (-1). repeat split; evaluate.
    + vm_compute. reflexivity.
    + vm_compute. reflexivity.
    + reflexivity.
    + left. evaluate.
    + by exists st'.
  - destruct (kdiff_split_needs_image echo_forward example_mid_step_state
      example_mid_step_state [[1; 2; 3]] [[7; 8; 9]]
      1 [5; 6; 7] example_second_cond example_second_uncond
      example_second_region [1; 1; 1])
      as (st' & Hrun & Hev).
    + vm_compute. reflexivity.
    + exists [0; -1], 1%nat, (-1). repeat split; evaluate.
    + vm_compute. reflexivity.
    + vm_compute. reflexivity.
    + reflexivity.
    + left. evaluate.
    + exists st'. split; [exact Hrun | exact Hev].
Defined.

(** The second region after the first has been served in the step:
    two conditional entries and one unconditional entry, three
    latents, a dict as the original conditioning and a predictor that
    answers its input. *)
Lemma kdiff_split_two_calls_witness :
  ∃ st',
    kdiff_custom_forward echo_forward [5; 6; 7] (CondDict tt)
      example_second_cond example_second_uncond 1 example_second_region
      [1; 1; 1] example_mid_step_state
    = (st', Ok [5; 6; 7])
    ∧ forwarded_for 1 (events st')
      = [[[[40; 41; 42]; [50; 51; 52]]]; [[[60; 61]]]].
Proof.
  destruct (kdiff_split_two_calls echo_forward example_mid_step_state
    example_mid_step_state [[1; 2; 3]] [[7; 8; 9]] false
    1 [5; 6; 7] tt example_second_cond example_second_uncond
    example_second_region [1; 1; 1])
    as (st' & r & Hrun & Hcase & _).
  - vm_compute. reflexivity.
  - exists [0; -1], 1%nat, (-1). repeat split; evaluate.
  - vm_compute. reflexivity.
  - vm_compute. reflexivity.
  - reflexivity.
  - left. evaluate.
  - reflexivity.
  - unfold echo_forward in Hcase. cbn in Hcase. destruct Hcase as [Hev Hr].
    specialize (Hr eq_refl eq_refl eq_refl). subst r.
    exists st'. split; [exact Hrun|]. rewrite Hev. reflexivity.
Defined.

(** The ragged example as an image-editing model. *)
Lemma kdiff_edit_model_ragged_witness :
  ∃ st',
    kdiff_custom_forward echo_forward [5] CondTensor example_cond
      example_uncond 0 example_region [1] example_edit_state
    = (st', Raise TypeError)
    ∧ events st' = [].
Proof.
  destruct (kdiff_edit_model_ragged echo_forward example_edit_state
    ([[(0, fone)]], [[1; 2; 3]]) [[7; 8]] 0 [5] CondTensor
    example_cond example_uncond example_region [1])
    as (st' & Hrun & Hev & _);
    [evaluate | reflexivity | reflexivity | evaluate | reflexivity
    | evaluate | evaluate | evaluate |].
  by exists st'.
Defined.


(** ** binary64 quotients of ints below [2^53] *)

Section Binary64Division.

Lemma digits2_pos_53 (p : positive) :
  digits2_pos p = 53%positive ↔ 2 ^ 52 <= Z.pos p < 2 ^ 53.
Proof.
  rewrite digits2_pos_size.
  pose proof (Pos.size_le p) as Hle. pose proof (Pos.size_gt p) as Hgt.
  apply Pos2Z.pos_le_pos in Hle. apply Pos2Z.pos_lt_pos in Hgt.
  rewrite Pos2Z.inj_pow in Hle, Hgt.
  change (Z.pos p~0) with (2 * Z.pos p) in Hle. change (Z.pos 2) with 2 in *.
  split.
  - intros Hs. rewrite Hs in Hle, Hgt. lia.
  - intros [Hlo Hhi].
    destruct (Z.lt_trichotomy (Z.pos (Pos.size p)) 53) as [Hlt|[Heq|Hlt]].
    + assert (2 ^ Z.pos (Pos.size p) <= 2 ^ 52)
        by (apply Z.pow_le_mono_r; lia). lia.
    + lia.
    + assert (2 ^ 54 <= 2 ^ Z.pos (Pos.size p))
        by (apply Z.pow_le_mono_r; lia). lia.
Qed.

Lemma digits2_pos_54 (p : positive) :
  digits2_pos p = 54%positive ↔ 2 ^ 53 <= Z.pos p < 2 ^ 54.
Proof.
  rewrite digits2_pos_size.
  pose proof (Pos.size_le p) as Hle. pose proof (Pos.size_gt p) as Hgt.
  apply Pos2Z.pos_le_pos in Hle. apply Pos2Z.pos_lt_pos in Hgt.
  rewrite Pos2Z.inj_pow in Hle, Hgt.
  change (Z.pos p~0) with (2 * Z.pos p) in Hle. change (Z.pos 2) with 2 in *.
  split.
  - intros Hs. rewrite Hs in Hle, Hgt. lia.
  - intros [Hlo Hhi].
    destruct (Z.lt_trichotomy (Z.pos (Pos.size p)) 54) as [Hlt|[Heq|Hlt]].
    + assert (2 ^ Z.pos (Pos.size p) <= 2 ^ 53)
        by (apply Z.pow_le_mono_r; lia). lia.
    + lia.
    + assert (2 ^ 55 <= 2 ^ Z.pos (Pos.size p))
        by (apply Z.pow_le_mono_r; lia). lia.
Qed.

(** The location of a remainder [r] of a division by [d]. *)
Lemma new_location_spec (d r : Z) :
  0 < d → 0 <= r < d →
  new_location d r =
    if r =? 0 then loc_Exact
    else loc_Inexact (2 * r ?= d).
Proof.
  intros Hd Hr. unfold new_location, new_location_even, new_location_odd.
  destruct (Z.even d) eqn:Heven; cbv beta;
    destruct (Z.eqb_spec r 0) as [->|Hne]; try done.
  f_equal.
  assert (Z.odd d = true) as Hodd by (by rewrite <- Z.negb_even, Heven).
  apply Z.odd_spec in Hodd as [c Hc].
  destruct (Z.compare_spec (2 * r + 1) d), (Z.compare_spec (2 * r) d);
    try reflexivity; lia.
Qed.

(** Rounding a quotient [q] with remainder [r] of a division by [d],
    at a mantissa of 53 bits. *)
Lemma binary_round_aux_53 (q e d r : Z) :
  2 ^ 52 <= q < 2 ^ 53 → -1000 <= e <= 900 → 0 < d → 0 <= r < d →
  ∃ (M : positive) (E : Z),
    binary_round_aux prec emax false q e (new_location d r)
      = S754_finite false M E
    ∧ ((Z.pos M = q ∧ E = e)
       ∨ (Z.pos M = q + 1 ∧ E = e ∧ 0 < r ∧ q + 1 < 2 ^ 53)
       ∨ (Z.pos M = 2 ^ 52 ∧ E = e + 1 ∧ 0 < r ∧ q + 1 = 2 ^ 53)).
Proof.
  intros Hq He Hd Hr.
  destruct q as [|q|q]; try lia.
  assert (Hdq : digits2_pos q = 53%positive) by (by apply digits2_pos_53).
  assert (Hshift : fexp prec emax (53 + e) - e = 0).
  { unfold fexp, SpecFloat.emin, prec, emax. lia. }
  unfold binary_round_aux, shr_fexp. cbn [Zdigits2]. rewrite Hdq, Hshift.
  cbn [shr].
  set (M0 := round_nearest_even _ _).
  assert (HM0 : M0 = Z.pos q ∨ (M0 = Z.pos q + 1 ∧ 0 < r)).
  { subst M0. rewrite new_location_spec by done.
    destruct (Z.eqb_spec r 0) as [->|Hne]; [by left|].
    destruct (2 * r ?= d);
      cbn [shr_record_of_loc shr_m loc_of_shr_record round_nearest_even];
      try (destruct (Z.even (Z.pos q)));
      first [by left | right; split; [reflexivity | lia]]. }
  destruct (Z.eq_dec M0 (2 ^ 53)) as [Hcarry|Hnocarry].
  - rewrite Hcarry. exists (4503599627370496)%positive, (e + 1).
    split; [|right; right; lia].
    change (2 ^ 53) with (Z.pos 9007199254740992). cbn [Zdigits2].
    change (digits2_pos 9007199254740992) with 54%positive.
    assert (fexp prec emax (54 + e) - e = 1) as ->.
    { unfold fexp, SpecFloat.emin, prec, emax. lia. }
    cbn [shr SpecFloat.iter_pos shr_record_of_loc shr_1 shr_m].
    unfold prec, emax. by destruct (Z.leb_spec (e + 1) (1024 - 53)); [|lia].
  - assert (2 ^ 52 <= M0 < 2 ^ 53) as HM0r by lia.
    destruct M0 as [|M|M] eqn:EM0; try lia.
    assert (HdM : digits2_pos M = 53%positive) by (by apply digits2_pos_53).
    exists M, e. split.
    + cbn [Zdigits2]. rewrite HdM, Hshift. cbn [shr shr_record_of_loc shr_m].
      unfold prec, emax. by destruct (Z.leb_spec e (1024 - 53)); [|lia].
    + destruct HM0 as [HM0|[HM0 Hpos]]; [left|right; left]; lia.
Qed.


(** The same at a quotient of 54 bits, which loses its last bit. *)
Lemma binary_round_aux_54 (q e d r : Z) :
  2 ^ 53 <= q < 2 ^ 54 → -1000 <= e <= 900 → 0 < d → 0 <= r < d →
  ∃ (M : positive) (E : Z),
    binary_round_aux prec emax false q e (new_location d r)
      = S754_finite false M E
    ∧ ((Z.pos M = q / 2 ∧ E = e + 1 ∧ (Z.odd q = false ∨ r = 0))
       ∨ (Z.pos M = q / 2 + 1 ∧ E = e + 1 ∧ Z.odd q = true
          ∧ q / 2 + 1 < 2 ^ 53)
       ∨ (Z.pos M = 2 ^ 52 ∧ E = e + 2 ∧ Z.odd q = true
          ∧ q / 2 + 1 = 2 ^ 53)).
Proof.
  intros Hq He Hd Hr.
  destruct q as [|q|q]; try lia.
  assert (Hdq : digits2_pos q = 54%positive) by (by apply digits2_pos_54).
  assert (Hshift1 : fexp prec emax (54 + e) - e = 1).
  { unfold fexp, SpecFloat.emin, prec, emax. lia. }
  assert (Hshift0 : fexp prec emax (53 + (e + 1)) - (e + 1) = 0).
  { unfold fexp, SpecFloat.emin, prec, emax. lia. }
  assert (Hshift2 : fexp prec emax (54 + (e + 1)) - (e + 1) = 1).
  { unfold fexp, SpecFloat.emin, prec, emax. lia. }
  unfold binary_round_aux, shr_fexp. cbn [Zdigits2]. rewrite Hdq, Hshift1.
  cbn [shr SpecFloat.iter_pos].
  set (M0 := round_nearest_even _ _).
  assert (HM0 : (M0 = Z.pos q / 2 ∧ (Z.odd (Z.pos q) = false ∨ r = 0))
                ∨ (M0 = Z.pos q / 2 + 1 ∧ Z.odd (Z.pos q) = true)).
  { subst M0. rewrite new_location_spec by done.
    assert (Hhalf : ∀ p : positive,
      Z.pos p~0 / 2 = Z.pos p ∧ Z.pos p~1 / 2 = Z.pos p).
    { intros p. split.
      - change (Z.pos p~0) with (2 * Z.pos p).
        rewrite Z.mul_comm. apply Z.div_mul. lia.
      - change (Z.pos p~1) with (2 * Z.pos p + 1).
        symmetry. apply (Z.div_unique _ 2 _ 1); lia. }
    destruct q as [p|p|]; [| |lia];
      destruct (Hhalf p) as [Heven Hodd]; rewrite ?Heven, ?Hodd;
      destruct (Z.eqb_spec r 0) as [->|Hne];
      try destruct (2 * r ?= d);
      cbn [shr_record_of_loc shr_1 orb shr_m loc_of_shr_record
           round_nearest_even Z.odd];
      try (destruct (Z.even (Z.pos p)));
      first [ by left; auto | by right ]. }
  destruct (Z.eq_dec M0 (2 ^ 53)) as [Hcarry|Hnocarry].
  - rewrite Hcarry. exists (4503599627370496)%positive, (e + 2).
    split.
    + change (2 ^ 53) with (Z.pos 9007199254740992). cbn [Zdigits2].
      change (digits2_pos 9007199254740992) with 54%positive.
      rewrite Hshift2.
      cbn [shr SpecFloat.iter_pos shr_record_of_loc shr_1 shr_m].
      replace (e + 1 + 1) with (e + 2) by lia.
      unfold prec, emax. by destruct (Z.leb_spec (e + 2) (1024 - 53)); [|lia].
    + assert (Z.pos q / 2 < 2 ^ 53).
      { apply Z.div_lt_upper_bound; lia. }
      right. right. destruct HM0 as [[HM0 _]|[HM0 Hodd]]; [lia|].
      repeat split; try done; lia.
  - assert (2 ^ 52 <= Z.pos q / 2 < 2 ^ 53) as Hq2.
    { split; [apply Z.div_le_lower_bound | apply Z.div_lt_upper_bound]; lia. }
    assert (2 ^ 52 <= M0 < 2 ^ 53) as HM0r by lia.
    destruct M0 as [|M|M] eqn:EM0; try lia.
    assert (HdM : digits2_pos M = 53%positive) by (by apply digits2_pos_53).
    exists M, (e + 1). split.
    + cbn [Zdigits2]. rewrite HdM, Hshift0. cbn [shr shr_record_of_loc shr_m].
      unfold prec, emax. by destruct (Z.leb_spec (e + 1) (1024 - 53)); [|lia].
    + destruct HM0 as [[HM0 Hdown]|[HM0 Hodd]]; [left|right; left];
        repeat split; try done; lia.
Qed.

End Binary64Division.

Section CeilOfQuotient.

(** [ceil_div a b] is the least integer not below [a / b]. *)
Lemma ceil_div_bounds (a b : Z) :
  0 < b → (ceil_div a b - 1) * b < a <= ceil_div a b * b.
Proof.
  intros Hb. unfold ceil_div.
  pose proof (Z.div_mod (a + b - 1) b ltac:(lia)) as Hdm.
  pose proof (Z.mod_pos_bound (a + b - 1) b Hb) as Hmod.
  nia.
Qed.

Lemma ceil_div_unique (a b c : Z) :
  0 < b → (c - 1) * b < a <= c * b → ceil_div a b = c.
Proof.
  intros Hb Hc. unfold ceil_div. symmetry.
  apply (Z.div_unique _ _ _ (a + b - 1 - b * c)); lia.
Qed.

(** [math.ceil] of a positive binary64 number with a negative or zero
    exponent. *)
Lemma ceil_finite (M : positive) (k : Z) :
  0 <= k → ceil (S754_finite false M (- k)) = Ok (ceil_div (Z.pos M) (2 ^ k)).
Proof.
  intros Hk. unfold ceil. cbn [cond_Zopp]. f_equal.
  assert (0 < 2 ^ k) as Hpow by (apply Z.pow_pos_nonneg; lia).
  replace (Z.shiftl (- Z.pos M) (- k)) with (Z.shiftr (- Z.pos M) k)
    by (unfold Z.shiftr; done).
  rewrite Z.shiftr_div_pow2 by lia.
  pose proof (ceil_div_bounds (Z.pos M) (2 ^ k) Hpow) as Hc.
  set (c := ceil_div (Z.pos M) (2 ^ k)) in *.
  assert (- Z.pos M / 2 ^ k = - c) as ->; [|lia].
  symmetry. apply (Z.div_unique _ _ _ (c * 2 ^ k - Z.pos M)); lia.
Qed.

(** The rounded quotient lies in the same unit interval as the exact
    one: the case of a quotient of 53 bits. *)
Lemma rounded_quotient_53 (a b c P q r M : Z) :
  0 < b → (c - 1) * b < a <= c * b →
  b <= P →
  a * P = q * b + r → 0 <= r < b →
  M = q ∨ (M = q + 1 ∧ 0 < r) →
  (c - 1) * P < M <= c * P.
Proof.
  intros Hb Hc HP Hdiv Hr HM.
  assert (q <= c * P) by nia.
  assert (0 < r → q < c * P) by nia.
  assert ((c - 1) * P < q) by nia.
  destruct HM as [->|[-> Hpos]]; lia.
Qed.

(** The case of a quotient of 54 bits, which is halved. *)
Lemma rounded_quotient_54 (a b c P q r M : Z) :
  0 < b → (c - 1) * b < a <= c * b →
  b < 2 * P →
  a * (2 * P) = q * b + r → 0 <= r < b → 0 <= q →
  (M = q / 2 ∧ (Z.odd q = false ∨ r = 0))
  ∨ (M = q / 2 + 1 ∧ Z.odd q = true) →
  (c - 1) * P < M <= c * P.
Proof.
  intros Hb Hc HP Hdiv Hr Hq HM.
  pose proof (Z.div_mod q 2 ltac:(lia)) as Hq2.
  rewrite Zmod_odd in Hq2.
  set (q2 := q / 2) in *.
  destruct (Z.odd q) eqn:Hodd.
  - assert (q = 2 * q2 + 1) as Eq by lia.
    assert (q2 < c * P) by nia.
    assert ((c - 1) * P < q2 + 1) by nia.
    destruct HM as [[-> [Hf| ->]]|[-> _]]; [done| |lia].
    assert ((c - 1) * P < q2) by nia. lia.
  - assert (q = 2 * q2) as Eq by lia.
    assert (q2 <= c * P) by nia.
    assert ((c - 1) * P < q2) by nia.
    destruct HM as [[-> _]|[-> Ht]]; [lia|done].
Qed.

End CeilOfQuotient.

Section QuotientOfInts.

Lemma SFdiv_core_binary_53 (m1 m2 : positive) (e1 e2 : Z) :
  digits2_pos m1 = 53%positive → digits2_pos m2 = 53%positive →
  -52 <= e1 <= 0 → -52 <= e2 <= 0 →
  SFdiv_core_binary prec emax (Z.pos m1) e1 (Z.pos m2) e2
  = ((Z.pos m1 * 2 ^ 53) / Z.pos m2, e1 - e2 - 53,
     new_location (Z.pos m2) ((Z.pos m1 * 2 ^ 53) mod Z.pos m2)).
Proof.
  intros Hm1 Hm2 He1 He2. unfold SFdiv_core_binary. cbn [Zdigits2].
  rewrite Hm1, Hm2.
  assert (Z.min (fexp prec emax (53 + e1 - (53 + e2))) (e1 - e2)
          = e1 - e2 - 53) as ->.
  { unfold fexp, SpecFloat.emin, prec, emax. lia. }
  replace (e1 - e2 - (e1 - e2 - 53)) with 53 by lia.
  cbv iota. rewrite Z.shiftl_mul_pow2 by lia.
  unfold Z.div, Z.modulo.
  by destruct (Z.div_eucl (Z.pos m1 * 2 ^ 53) (Z.pos m2)).
Qed.

(** The binary64 quotient of two positive ints below [2^53]: a
    normal number [M * 2^(-k)] that lies in the same unit interval as
    the exact quotient. *)
Lemma truediv_rounded (a b : Z) :
  0 < a < 2 ^ 53 → 0 < b < 2 ^ 53 →
  ∃ (M : positive) (k : Z),
    truediv a b = Ok (S754_finite false M (- k))
    ∧ 0 <= k <= 105
    ∧ 2 ^ 52 <= Z.pos M < 2 ^ 53
    ∧ (ceil_div a b - 1) * 2 ^ k < Z.pos M <= ceil_div a b * 2 ^ k.
Proof.
  intros Ha Hb. unfold truediv.
  destruct (Z.eqb_spec b 0); [lia|]. destruct (Z.eqb_spec a 0); [lia|].
  destruct (float_of_int_exact a Ha) as (m1 & e1 & -> & Hm1 & He1 & Hv1).
  destruct (float_of_int_exact b Hb) as (m2 & e2 & -> & Hm2 & He2 & Hv2).
  cbn [mbind result_bind]. unfold SFdiv.
  rewrite SFdiv_core_binary_53 by done. cbn [xorb].
  pose proof (proj1 (digits2_pos_53 m1) Hm1) as Hr1.
  pose proof (proj1 (digits2_pos_53 m2) Hm2) as Hr2.
  set (s1 := - e1) in *. set (s2 := - e2) in *.
  set (U := s1 - s2 + 53).
  assert (0 < 2 ^ s1 ∧ 0 < 2 ^ s2 ∧ 0 < 2 ^ U) as (Hp1 & Hp2 & HpU)
    by (repeat split; apply Z.pow_pos_nonneg; lia).
  set (P := 2 ^ U) in *.
  assert (HP : 2 ^ s1 * 2 ^ 53 = P * 2 ^ s2).
  { subst P U. rewrite <- !Z.pow_add_r by lia. f_equal. lia. }
  assert (Hnum : Z.pos m1 * 2 ^ 53 = a * P * 2 ^ s2) by (rewrite Hv1; lia).
  rewrite Hnum, Hv2.
  rewrite Z.div_mul_cancel_r by lia.
  rewrite Z.mul_mod_distr_r by lia.
  pose proof (Z.div_mod (a * P) b ltac:(lia)) as Hdm.
  pose proof (Z.mod_pos_bound (a * P) b ltac:(lia)) as Hmod.
  set (q := a * P / b) in *. set (r := (a * P) mod b) in *.
  pose proof (ceil_div_bounds a b ltac:(lia)) as Hc.
  set (c := ceil_div a b) in *.
  assert (HbP : b < P).
  { assert (b * 2 ^ s2 < 2 ^ 53) by lia.
    assert (2 ^ 53 * 2 ^ s1 = P * 2 ^ s2) by lia.
    assert (2 ^ 53 <= 2 ^ 53 * 2 ^ s1) by nia. nia. }
  assert (Hca : c <= a) by nia.
  assert (Hq : 2 ^ 52 <= q < 2 ^ 54).
  { assert (2 ^ 52 * (b * 2 ^ s2) <= a * P * 2 ^ s2) by (rewrite <- Hnum; nia).
    assert (a * P * 2 ^ s2 < 2 ^ 54 * (b * 2 ^ s2)) by (rewrite <- Hnum; nia).
    split.
    - apply Z.div_le_lower_bound; nia.
    - apply Z.div_lt_upper_bound; nia. }
  assert (Hr : 0 <= r * 2 ^ s2 < b * 2 ^ s2) by nia.
  replace (e1 - e2 - 53) with (- U) by lia.
  destruct (Z.lt_ge_cases q (2 ^ 53)) as [Hsmall|Hbig].
  - destruct (binary_round_aux_53 q (- U) (b * 2 ^ s2) (r * 2 ^ s2))
      as (M & E & -> & HM); [lia | lia | lia | done |].
    assert ((c - 1) * P < q <= c * P ∧ (0 < r → (c - 1) * P < q + 1 <= c * P))
      as [Hq0 Hq1].
    { split; [|intros Hpos];
        apply (rounded_quotient_53 a b c P q r); auto; lia. }
    destruct HM as [[HM ->]|[(HM & -> & Hpos & Hlt)|(HM & -> & Hpos & Hcarry)]].
    + exists M, U. repeat split; try done; lia.
    + exists M, U. assert (0 < r) by (clear - Hpos Hp2; nia).
      repeat split; try done; lia.
    + exists M, (U - 1). assert (0 < r) by (clear - Hpos Hp2; nia).
      assert (P = 2 * 2 ^ (U - 1)) as HP2.
      { subst P. rewrite <- Z.pow_succ_r by lia. f_equal. lia. }
      specialize (Hq1 ltac:(lia)).
      replace (- U + 1) with (- (U - 1)) by lia.
      split; [done|]. repeat split; try lia.
  - destruct (binary_round_aux_54 q (- U) (b * 2 ^ s2) (r * 2 ^ s2))
      as (M & E & -> & HM); [lia | lia | lia | done |].
    assert (P = 2 * 2 ^ (U - 1)) as HP2.
    { subst P. rewrite <- Z.pow_succ_r by lia. f_equal. lia. }
    assert (0 < 2 ^ (U - 1)) as HpU1 by (apply Z.pow_pos_nonneg; lia).
    assert (Hround : ∀ M0,
      (M0 = q / 2 ∧ (Z.odd q = false ∨ r = 0))
      ∨ (M0 = q / 2 + 1 ∧ Z.odd q = true) →
      (c - 1) * 2 ^ (U - 1) < M0 <= c * 2 ^ (U - 1)).
    { intros M0 HM0.
      apply (rounded_quotient_54 a b c (2 ^ (U - 1)) q r); auto; lia. }
    destruct HM as [(HM & -> & Hdown)|[(HM & -> & Hodd & Hlt)
                                      |(HM & -> & Hodd & Hcarry)]].
    + exists M, (U - 1). replace (- U + 1) with (- (U - 1)) by lia.
      split; [done|]. split; [lia|].
      assert (2 ^ 52 <= q / 2 < 2 ^ 53).
      { split; [apply Z.div_le_lower_bound | apply Z.div_lt_upper_bound]; lia. }
      split; [lia|]. rewrite HM. apply Hround. left. split; [done|].
      destruct Hdown as [?|Hz]; [by left|right]. nia.
    + exists M, (U - 1). replace (- U + 1) with (- (U - 1)) by lia.
      split; [done|]. split; [lia|].
      assert (2 ^ 52 <= q / 2).
      { apply Z.div_le_lower_bound; lia. }
      split; [lia|]. rewrite HM. apply Hround. by right.
    + pose proof (Hround (q / 2 + 1) ltac:(by right)) as Hb2.
      rewrite Hcarry in Hb2.
      destruct (Z.eq_dec U 1) as [HU|HU].
      { rewrite HU in Hb2. change (2 ^ (1 - 1)) with 1 in Hb2. lia. }
      exists M, (U - 2). replace (- U + 2) with (- (U - 2)) by lia.
      assert (2 ^ (U - 1) = 2 * 2 ^ (U - 2)) as HP3.
      { rewrite <- Z.pow_succ_r by lia. f_equal. lia. }
      split; [done|]. repeat split; try lia; nia.
Qed.

(** [math.ceil(a / b)] is the exact ceiling of the quotient, for
    ints below [2^53]. *)
Lemma ceil_truediv (a b : Z) :
  0 <= a < 2 ^ 53 → 0 < b < 2 ^ 53 →
  (truediv a b ≫= ceil) = Ok (ceil_div a b).
Proof.
  intros Ha Hb. destruct (Z.eq_dec a 0) as [->|Hne].
  { rewrite truediv_zero by lia. cbn. f_equal. unfold ceil_div.
    symmetry. apply Z.div_small. lia. }
  destruct (truediv_rounded a b ltac:(lia) Hb) as (M & k & -> & Hk & HM & Hc).
  cbn [mbind result_bind]. rewrite ceil_finite by lia. f_equal.
  apply ceil_div_unique; [apply Z.pow_pos_nonneg; lia | done].
Qed.

End QuotientOfInts.

(** ** binary64 products that stay finite *)

Section Binary64Product.

Lemma digits2_pos_range (p : positive) :
  2 ^ (Z.pos (digits2_pos p) - 1) <= Z.pos p < 2 ^ Z.pos (digits2_pos p).
Proof.
  rewrite digits2_pos_size.
  pose proof (Pos.size_le p) as Hle. pose proof (Pos.size_gt p) as Hgt.
  apply Pos2Z.pos_le_pos in Hle. apply Pos2Z.pos_lt_pos in Hgt.
  rewrite Pos2Z.inj_pow in Hle, Hgt.
  change (Z.pos p~0) with (2 * Z.pos p) in Hle. change (Z.pos 2) with 2 in *.
  split; [|done].
  assert (2 ^ Z.pos (Pos.size p) = 2 * 2 ^ (Z.pos (Pos.size p) - 1)).
  { rewrite <- Z.pow_succ_r by lia. f_equal. lia. }
  lia.
Qed.

Lemma shr_m_shr_1 (mrs : shr_record) :
  0 <= shr_m mrs → shr_m (shr_1 mrs) = shr_m mrs / 2.
Proof.
  destruct mrs as [m r s]. cbn [shr_m]. intros Hm.
  destruct m as [|[p|p|]|]; cbn [shr_1 shr_m]; try lia; try reflexivity.
  - change (Z.pos p~1) with (2 * Z.pos p + 1).
    apply (Z.div_unique _ 2 _ 1); lia.
  - change (Z.pos p~0) with (2 * Z.pos p).
    symmetry. rewrite Z.mul_comm. apply Z.div_mul. lia.
Qed.

Lemma shr_m_iter_pos (p : positive) (mrs : shr_record) :
  0 <= shr_m mrs →
  shr_m (SpecFloat.iter_pos shr_1 p mrs) = shr_m mrs / 2 ^ Z.pos p.
Proof.
  revert mrs. induction p as [p IH|p IH|]; intros mrs Hm;
    cbn [SpecFloat.iter_pos].
  - assert (0 <= shr_m (shr_1 mrs)) as H1.
    { rewrite shr_m_shr_1 by done. apply Z.div_pos; lia. }
    assert (0 <= shr_m (SpecFloat.iter_pos shr_1 p (shr_1 mrs))) as H2.
    { rewrite IH by done. apply Z.div_pos; [done|]. apply Z.pow_pos_nonneg; lia. }
    rewrite IH, IH, shr_m_shr_1 by done.
    assert (0 < 2 ^ Z.pos p) by (apply Z.pow_pos_nonneg; lia).
    rewrite !Z.div_div by lia. f_equal.
    change (Z.pos p~1) with (2 * Z.pos p + 1).
    replace (2 * Z.pos p + 1) with (Z.pos p + Z.pos p + 1) by lia.
    rewrite !Z.pow_add_r by lia. lia.
  - assert (0 <= shr_m (SpecFloat.iter_pos shr_1 p mrs)) as H2.
    { rewrite IH by done. apply Z.div_pos; [done|]. apply Z.pow_pos_nonneg; lia. }
    rewrite IH, IH by done.
    assert (0 < 2 ^ Z.pos p) by (apply Z.pow_pos_nonneg; lia).
    rewrite !Z.div_div by lia. f_equal.
    change (Z.pos p~0) with (2 * Z.pos p).
    replace (2 * Z.pos p) with (Z.pos p + Z.pos p) by lia.
    rewrite !Z.pow_add_r by lia. lia.
  - by apply shr_m_shr_1.
Qed.

Lemma shr_spec (mrs : shr_record) (e n : Z) :
  0 <= shr_m mrs → 0 <= n →
  shr_m (fst (shr mrs e n)) = shr_m mrs / 2 ^ n ∧ snd (shr mrs e n) = e + n.
Proof.
  intros Hm Hn. destruct n as [|p|p]; [| |lia]; cbn [shr fst snd].
  - change (2 ^ 0) with 1. rewrite Z.div_1_r. lia.
  - split; [by apply shr_m_iter_pos | done].
Qed.

Lemma round_nearest_even_cases (mx : Z) (lx : location) :
  round_nearest_even mx lx = mx ∨ round_nearest_even mx lx = mx + 1.
Proof.
  destruct lx as [|[]]; cbn [round_nearest_even]; auto.
  destruct (Z.even mx); auto.
Qed.

(** Rounding a mantissa of at least 53 bits whose value is far from
    the overflow threshold gives a normal number. *)
Lemma binary_round_aux_finite (s : bool) (m : positive) (e : Z) :
  53 <= Z.pos (digits2_pos m) → -1000 <= e →
  Z.pos (digits2_pos m) + e <= 900 →
  ∃ M E, binary_round_aux prec emax s (Z.pos m) e loc_Exact
         = S754_finite s M E.
Proof.
  intros Hd Hlo Hhi.
  pose proof (digits2_pos_range m) as Hm.
  set (d := Z.pos (digits2_pos m)) in *.
  assert (Hshift : fexp prec emax (d + e) - e = d - 53).
  { unfold fexp, SpecFloat.emin, prec, emax. lia. }
  unfold binary_round_aux, shr_fexp. cbn [Zdigits2]. fold d. rewrite Hshift.
  destruct (shr_spec (shr_record_of_loc (Z.pos m) loc_Exact) e (d - 53))
    as [Hq He']; [cbn; lia | lia |].
  destruct (shr _ e (d - 53)) as [mrs' e']. cbn [fst snd] in Hq, He'.
  change (shr_m (shr_record_of_loc (Z.pos m) loc_Exact)) with (Z.pos m) in Hq.
  assert (0 < 2 ^ (d - 53)) as Hp by (apply Z.pow_pos_nonneg; lia).
  assert (2 ^ (d - 1) = 2 ^ 52 * 2 ^ (d - 53)) as Hlo2.
  { rewrite <- Z.pow_add_r by lia. f_equal. lia. }
  assert (2 ^ d = 2 ^ 53 * 2 ^ (d - 53)) as Hhi2.
  { rewrite <- Z.pow_add_r by lia. f_equal. lia. }
  assert (2 ^ 52 <= shr_m mrs' < 2 ^ 53) as Hrange.
  { rewrite Hq. split.
    - apply Z.div_le_lower_bound; lia.
    - apply Z.div_lt_upper_bound; lia. }
  set (M0 := round_nearest_even _ _).
  assert (2 ^ 52 <= M0 <= 2 ^ 53) as HM0.
  { destruct (round_nearest_even_cases (shr_m mrs') (loc_of_shr_record mrs'))
      as [H|H]; subst M0; rewrite H; lia. }
  clearbody M0. subst e'.
  destruct (Z.eq_dec M0 (2 ^ 53)) as [->|Hnocarry].
  - exists (4503599627370496)%positive, (e + (d - 53) + 1).
    change (2 ^ 53) with (Z.pos 9007199254740992). cbn [Zdigits2].
    change (digits2_pos 9007199254740992) with 54%positive.
    assert (fexp prec emax (54 + (e + (d - 53))) - (e + (d - 53)) = 1) as ->.
    { unfold fexp, SpecFloat.emin, prec, emax. lia. }
    cbn [shr SpecFloat.iter_pos shr_record_of_loc shr_1 shr_m].
    unfold prec, emax.
    by destruct (Z.leb_spec (e + (d - 53) + 1) (1024 - 53)); [|lia].
  - destruct M0 as [|M|M]; try lia.
    assert (HdM : digits2_pos M = 53%positive) by (apply digits2_pos_53; lia).
    exists M, (e + (d - 53)).
    cbn [Zdigits2]. rewrite HdM.
    assert (fexp prec emax (53 + (e + (d - 53))) - (e + (d - 53)) = 0) as ->.
    { unfold fexp, SpecFloat.emin, prec, emax. lia. }
    cbn [shr shr_record_of_loc shr_m].
    unfold prec, emax.
    by destruct (Z.leb_spec (e + (d - 53)) (1024 - 53)); [|lia].
Qed.

(** The product of two normal numbers with moderate exponents is a
    normal number. *)
Lemma SFmul_finite (sx sy : bool) (mx my : positive) (ex ey : Z) :
  2 ^ 52 <= Z.pos mx < 2 ^ 53 → 2 ^ 52 <= Z.pos my < 2 ^ 53 →
  -500 <= ex <= 300 → -500 <= ey <= 300 →
  ∃ M E, SFmul prec emax (S754_finite sx mx ex) (S754_finite sy my ey)
         = S754_finite (xorb sx sy) M E.
Proof.
  intros Hx Hy Hex Hey. cbn [SFmul].
  pose proof (digits2_pos_range (mx * my)) as Hd.
  set (d := Z.pos (digits2_pos (mx * my))) in *.
  rewrite Pos2Z.inj_mul in Hd.
  assert (2 ^ 104 <= Z.pos mx * Z.pos my < 2 ^ 106) as Hprod.
  { change (2 ^ 104) with (2 ^ 52 * 2 ^ 52).
    change (2 ^ 106) with (2 ^ 53 * 2 ^ 53). nia. }
  assert (105 <= d <= 106) as Hdr.
  { split.
    - destruct (Z.le_gt_cases 105 d) as [|Hlt]; [done|].
      assert (2 ^ d <= 2 ^ 104) by (apply Z.pow_le_mono_r; lia). lia.
    - destruct (Z.le_gt_cases d 106) as [|Hgt]; [done|].
      assert (2 ^ 106 <= 2 ^ (d - 1)) by (apply Z.pow_le_mono_r; lia). lia. }
  apply binary_round_aux_finite; fold d; lia.
Qed.

End Binary64Product.

(** ** The tile grid and the batch plan on exact integers *)

Section Grid.

Variable get_global_weights : Z → Z → float32.

(** The step between tiles is zero or a normal number with a small
    exponent. *)
Lemma step_of_ok (size tile n : Z) :
  0 <= size - tile < 2 ^ 53 → n <= 2 ^ 53 →
  ∃ step, step_of size tile n = Ok step
    ∧ (step = fzero
       ∨ ∃ (M : positive) (k : Z),
           step = S754_finite false M (- k)
           ∧ 0 <= k <= 105 ∧ 2 ^ 52 <= Z.pos M < 2 ^ 53).
Proof.
  intros Hsize Hn. unfold step_of. destruct (Z.ltb_spec 1 n); [|by eauto].
  destruct (Z.eq_dec (size - tile) 0) as [->|Hne].
  { rewrite truediv_zero by lia. eauto. }
  destruct (truediv_rounded (size - tile) (n - 1))
    as (M & k & -> & Hk & HM & _); [lia | lia |].
  eexists. split; [done|]. right. by exists M, k.
Qed.

(** With such a step, the offset of tile [k] is computed without an
    exception. *)
Lemma offset_ok (k : Z) (step : float) :
  0 <= k < 2 ^ 53 →
  (step = fzero
   ∨ ∃ (M : positive) (j : Z),
       step = S754_finite false M (- j)
       ∧ 0 <= j <= 105 ∧ 2 ^ 52 <= Z.pos M < 2 ^ 53) →
  ∃ p v, mul_int_float k step = Ok p ∧ int_of_float p = Ok v.
Proof.
  intros Hk Hstep. unfold mul_int_float.
  destruct (Z.eq_dec k 0) as [->|Hne].
  { change (float_of_int 0) with (Ok (S754_zero false) : result float).
    cbn [mbind result_bind].
    destruct Hstep as [->|(M & j & -> & _)]; cbn [SFmul]; by eauto. }
  destruct (float_of_int_exact k ltac:(lia)) as (m & e & -> & Hm & He & Hv).
  cbn [mbind result_bind].
  destruct Hstep as [->|(M & j & -> & Hj & HM)]; [cbn [SFmul]; by eauto|].
  destruct (SFmul_finite false false m M e (- j)) as (M' & E' & ->);
    [by apply digits2_pos_53 | done | lia | lia |].
  by eauto.
Qed.

(** The inner loop of [split_views] runs to its end. *)
Lemma split_views_row_ok (w tile_w tile_h y : Z) (dx : float) (n : nat)
    (acc : list BBox.t * list (list float32)) :
  Z.of_nat n <= 2 ^ 53 →
  (dx = fzero
   ∨ ∃ (M : positive) (j : Z),
       dx = S754_finite false M (- j)
       ∧ 0 <= j <= 105 ∧ 2 ^ 52 <= Z.pos M < 2 ^ 53) →
  ∃ r,
    foldM (fun '(bbox_list, count) col =>
        px ← mul_int_float col dx;
        x ← int_of_float px;
        let x := if w <=? x + tile_w then w - tile_w else x in
        let bbox := BBox.mk x y tile_w tile_h in
        Ok (bbox_list ++ [bbox], add_weights get_global_weights count bbox))
      (range (Z.of_nat n)) acc = Ok r.
Proof.
  intros Hn Hdx. induction n as [|n IH]; [by eexists|].
  rewrite Nat2Z.inj_succ, <- Z.add_1_r, range_succ, foldM_app by lia.
  destruct IH as [[bl cnt] ->]; [lia|].
  cbn [mbind result_bind foldM].
  destruct (offset_ok (Z.of_nat n) dx ltac:(lia) Hdx) as (p & v & -> & Hv).
  cbn [mbind result_bind]. rewrite Hv. cbn [mbind result_bind]. by eexists.
Qed.

(** The outer loop of [split_views] runs to its end. *)
Lemma split_views_rows_ok (w h tile_w tile_h : Z) (dx dy : float)
    (ncols n : nat) (acc : list BBox.t * list (list float32)) :
  Z.of_nat n <= 2 ^ 53 → Z.of_nat ncols <= 2 ^ 53 →
  (dx = fzero
   ∨ ∃ (M : positive) (j : Z),
       dx = S754_finite false M (- j)
       ∧ 0 <= j <= 105 ∧ 2 ^ 52 <= Z.pos M < 2 ^ 53) →
  (dy = fzero
   ∨ ∃ (M : positive) (j : Z),
       dy = S754_finite false M (- j)
       ∧ 0 <= j <= 105 ∧ 2 ^ 52 <= Z.pos M < 2 ^ 53) →
  ∃ r,
    foldM (fun acc row =>
        py ← mul_int_float row dy;
        y ← int_of_float py;
        let y := if h <=? y + tile_h then h - tile_h else y in
        foldM (fun '(bbox_list, count) col =>
            px ← mul_int_float col dx;
            x ← int_of_float px;
            let x := if w <=? x + tile_w then w - tile_w else x in
            let bbox := BBox.mk x y tile_w tile_h in
            Ok (bbox_list ++ [bbox], add_weights get_global_weights count bbox))
          (range (Z.of_nat ncols)) acc)
      (range (Z.of_nat n)) acc = Ok r.
Proof.
  intros Hn Hncols Hdx Hdy. induction n as [|n IH]; [by eexists|].
  rewrite Nat2Z.inj_succ, <- Z.add_1_r, range_succ, foldM_app by lia.
  destruct IH as [acc' ->]; [lia|].
  cbn [mbind result_bind foldM].
  destruct (offset_ok (Z.of_nat n) dy ltac:(lia) Hdy) as (p & v & -> & Hv).
  cbn [mbind result_bind]. rewrite Hv. cbn [mbind result_bind]. cbv zeta.
  destruct (split_views_row_ok w tile_w tile_h
              (if h <=? v + tile_h then h - tile_h else v) dx ncols acc'
              Hncols Hdx) as [r Hrow].
  cbv zeta in Hrow. rewrite Hrow. cbn [mbind result_bind]. by eexists.
Qed.

Lemma ceil_div_pos (a b : Z) : 0 < a → 0 < b → 1 <= ceil_div a b <= a.
Proof.
  intros Ha Hb. pose proof (ceil_div_bounds a b Hb). nia.
Qed.

(** [split_views] returns on every canvas that holds a tile, with a
    grid of [ceil((H - o) / (th - o))] rows of
    [ceil((W - o) / (tw - o))] tiles. *)
Lemma split_views_ok (W H tw th o : Z) :
  0 <= o → o < tw <= W → o < th <= H → W < 2 ^ 53 → H < 2 ^ 53 →
  ∃ bboxes count,
    split_views get_global_weights W H tw th o = Ok (bboxes, count)
    ∧ length bboxes
      = (Z.to_nat (ceil_div (H - o) (th - o))
         * Z.to_nat (ceil_div (W - o) (tw - o)))%nat.
Proof.
  intros Ho Htw Hth HW HH. unfold split_views.
  pose proof (ceil_truediv (W - o) (tw - o) ltac:(lia) ltac:(lia)) as Hcols.
  pose proof (ceil_truediv (H - o) (th - o) ltac:(lia) ltac:(lia)) as Hrows.
  pose proof (ceil_div_pos (W - o) (tw - o) ltac:(lia) ltac:(lia)) as Hc.
  pose proof (ceil_div_pos (H - o) (th - o) ltac:(lia) ltac:(lia)) as Hr.
  set (cols := ceil_div (W - o) (tw - o)) in *.
  set (rows := ceil_div (H - o) (th - o)) in *.
  destruct (truediv (W - o) (tw - o)) as [qc|]; [|done].
  cbn [mbind result_bind] in Hcols |- *. rewrite Hcols.
  cbn [mbind result_bind].
  destruct (truediv (H - o) (th - o)) as [qr|]; [|done].
  cbn [mbind result_bind] in Hrows |- *. rewrite Hrows.
  cbn [mbind result_bind].
  fold (step_of W tw cols). fold (step_of H th rows).
  destruct (step_of_ok W tw cols ltac:(lia) ltac:(lia)) as (dx & -> & Hdx).
  destruct (step_of_ok H th rows ltac:(lia) ltac:(lia)) as (dy & -> & Hdy).
  cbn [mbind result_bind].
  unfold torch_zeros.
  destruct (Z.ltb_spec H 0); [lia|]. destruct (Z.ltb_spec W 0); [lia|].
  cbn [orb mbind result_bind].
  rewrite (range_to_nat rows), (range_to_nat cols).
  destruct (split_views_rows_ok W H tw th dx dy (Z.to_nat cols) (Z.to_nat rows)
              ([], replicate (Z.to_nat H) (replicate (Z.to_nat W) zero32))
              ltac:(lia) ltac:(lia) Hdx Hdy) as [[bboxes count] Hrun].
  exists bboxes, count. split; [exact Hrun|].
  destruct (split_views_rows _ _ _ _ _ _ _ _ _ _ _ _ _ Hrun)
    as (new & Hbl & Hlen & _).
  cbn in Hbl. by subst new.
Qed.

End Grid.

Section BatchPlan.

(** The batch loop of the constructor on a non-empty tile list. *)
Lemma batch_bboxes_ok (bboxes : list BBox.t) (tile_batch_size : Z) :
  0 < Z.of_nat (length bboxes) < 2 ^ 53 → 0 < tile_batch_size < 2 ^ 53 →
  ∃ batched_bboxes,
    batch_bboxes bboxes tile_batch_size
      = Ok (ceil_div (Z.of_nat (length bboxes)) tile_batch_size,
            ceil_div (Z.of_nat (length bboxes))
              (ceil_div (Z.of_nat (length bboxes)) tile_batch_size),
            batched_bboxes)
    ∧ Z.of_nat (length batched_bboxes)
      = ceil_div (Z.of_nat (length bboxes)) tile_batch_size
    ∧ concat batched_bboxes = bboxes
    ∧ Forall (fun batch => batch ≠ []) batched_bboxes.
Proof.
  intros Hn Hk. unfold batch_bboxes.
  set (n := Z.of_nat (length bboxes)) in *.
  pose proof (ceil_truediv n tile_batch_size ltac:(lia) Hk) as Hnb.
  pose proof (ceil_div_pos n tile_batch_size ltac:(lia) ltac:(lia)) as Hnbr.
  pose proof (ceil_div_bounds n tile_batch_size ltac:(lia)) as Hnbb.
  set (nb := ceil_div n tile_batch_size) in *.
  pose proof (ceil_truediv n nb ltac:(lia) ltac:(lia)) as Hopt.
  destruct (truediv n tile_batch_size) as [q|]; [|done].
  cbn [mbind result_bind] in Hnb |- *. rewrite Hnb. cbn [mbind result_bind].
  destruct (truediv n nb) as [q'|]; [|done].
  cbn [mbind result_bind] in Hopt |- *. rewrite Hopt. cbn [mbind result_bind].
  eexists. split; [reflexivity|].
  assert (Hchunks :
    (fun i => slice bboxes (i * tile_batch_size)
                (Z.min ((i + 1) * tile_batch_size) n))
      <$> range nb
    = (fun i => take (Z.to_nat tile_batch_size)
                  (drop (i * Z.to_nat tile_batch_size) bboxes))
      <$> seq 0 (Z.to_nat nb)).
  { unfold range. rewrite <- list_fmap_compose. apply list_fmap_ext.
    intros j i Hi. cbn. subst n. rewrite slice_chunk by lia.
    by rewrite Nat2Z.id. }
  rewrite Hchunks. split; [|split].
  - rewrite length_fmap, length_seq. lia.
  - rewrite concat_chunks. apply take_ge. nia.
  - apply Forall_fmap, Forall_forall. intros i Hi. cbn.
    apply elem_of_seq in Hi.
    intros Hnil. apply (f_equal length) in Hnil.
    rewrite length_take, length_drop in Hnil. cbn in Hnil. nia.
Qed.

End BatchPlan.

(** ** The constructor on valid arguments *)


(** The batch loop of the constructor on [n > 0] tiles with a
    requested batch size [b > 0]: [num_batches] is [ceil(n / b)] and the
    stored [tile_batch_size] is [ceil(n / num_batches)], both exact and
    the latter at most [b]; there are [num_batches] batches, none of
    them empty, and one after the other they are the tile list. *)
Theorem batch_plan_exact (bboxes : list BBox.t) (tile_batch_size : Z) :
  0 < Z.of_nat (length bboxes) < 2 ^ 53 → 0 < tile_batch_size < 2 ^ 53 →
  let n := Z.of_nat (length bboxes) in
  let num_batches := ceil_div n tile_batch_size in
  let optimal_batch_size := ceil_div n num_batches in
  ∃ batched_bboxes,
    batch_bboxes bboxes tile_batch_size
      = Ok (num_batches, optimal_batch_size, batched_bboxes)
    ∧ Z.of_nat (length batched_bboxes) = num_batches
    ∧ concat batched_bboxes = bboxes
    ∧ Forall (fun batch => batch ≠ []) batched_bboxes
    ∧ 1 <= optimal_batch_size <= tile_batch_size.
Proof.
  intros Hn Hk n num_batches optimal_batch_size.
  destruct (batch_bboxes_ok bboxes tile_batch_size Hn Hk)
    as (batched & Hrun & Hlen & Hcat & Hne).
  exists batched. repeat (split; [done|]).
  pose proof (ceil_div_bounds n tile_batch_size ltac:(lia)) as Hnb.
  pose proof (ceil_div_pos n tile_batch_size ltac:(lia) ltac:(lia)) as Hnbr.
  fold num_batches in Hnb, Hnbr.
  pose proof (ceil_div_bounds n num_batches ltac:(lia)) as Hopt.
  fold optimal_batch_size in Hopt. nia.
Qed.

(** The constructor returns an object whenever the canvas has at
    least 8 by 8 pixels and the tile sizes and the batch size are
    positive, whatever the overlap: the tile sizes are clamped to the
    canvas and the overlap below them before [split_views] divides.
    The object has at least one batch, no batch is empty, and the
    stored batch size is at most the requested one. *)
Theorem constructor_succeeds (get_global_weights : Z → Z → float32)
    (method sampler_name : string)
    (p_width p_height p_batch_size p_steps : Z)
    (tile_w tile_h overlap tile_batch_size : Z) (causal_layers : bool) :
  8 <= p_width → 8 <= p_height → (p_width / 8) * (p_height / 8) < 2 ^ 53 →
  0 < tile_w → 0 < tile_h → 0 < tile_batch_size < 2 ^ 53 →
  ∃ s,
    TiledDiffusion_init get_global_weights method sampler_name p_width
      p_height p_batch_size p_steps tile_w tile_h overlap tile_batch_size
      causal_layers = Ok s
    ∧ Self.w s = p_width / 8 ∧ Self.h s = p_height / 8
    ∧ Self.tile_w s = Z.min tile_w (Self.w s)
    ∧ Self.tile_h s = Z.min tile_h (Self.h s)
    ∧ 1 <= Self.num_batches s
    ∧ Z.of_nat (length (Self.batched_bboxes s)) = Self.num_batches s
    ∧ Forall (fun batch => batch ≠ []) (Self.batched_bboxes s)
    ∧ 1 <= Self.tile_batch_size s <= tile_batch_size.
Proof.
  intros Hpw Hph Harea Htw Hth Hk. unfold TiledDiffusion_init.
  set (w := p_width / 8) in *. set (h := p_height / 8) in *.
  assert (1 <= w) as Hw by (apply Z.div_le_lower_bound; lia).
  assert (1 <= h) as Hh by (apply Z.div_le_lower_bound; lia).
  assert (Z.min tile_w w = if w <? tile_w then w else tile_w) as Emw
    by (destruct (Z.ltb_spec w tile_w); lia).
  assert (Z.min tile_h h = if h <? tile_h then h else tile_h) as Emh
    by (destruct (Z.ltb_spec h tile_h); lia).
  set (tw := if w <? tile_w then w else tile_w) in *.
  set (th := if h <? tile_h then h else tile_h) in *.
  set (o1 := if Z.min tw th <=? overlap then Z.min tw th - 4 else overlap).
  set (o := if o1 <? 0 then 0 else o1).
  assert (0 <= o ∧ o < tw ∧ o < th) as (Ho & Hotw & Hoth).
  { subst o o1. destruct (Z.leb_spec (Z.min tw th) overlap);
      match goal with |- context [?a <? 0] => destruct (Z.ltb_spec a 0) end;
      lia. }
  destruct (split_views_ok get_global_weights w h tw th o)
    as (bboxes & count & -> & Hlen); [lia | lia | lia | nia | nia |].
  cbn [mbind result_bind].
  pose proof (ceil_div_pos (w - o) (tw - o) ltac:(lia) ltac:(lia)) as Hc.
  pose proof (ceil_div_pos (h - o) (th - o) ltac:(lia) ltac:(lia)) as Hr.
  assert (0 < Z.of_nat (length bboxes) < 2 ^ 53) as Hn.
  { rewrite Hlen. split; [nia|].
    apply Z.le_lt_trans with (w * h); [|done]. nia. }
  destruct (batch_bboxes_ok bboxes tile_batch_size Hn Hk)
    as (batched & -> & Hblen & Hcat & Hne).
  cbn [mbind result_bind]. eexists. split; [reflexivity|].
  cbn [Self.w Self.h Self.tile_w Self.tile_h Self.num_batches
       Self.batched_bboxes Self.tile_batch_size].
  pose proof (ceil_div_bounds (Z.of_nat (length bboxes)) tile_batch_size
                ltac:(lia)) as Hnb.
  pose proof (ceil_div_pos (Z.of_nat (length bboxes)) tile_batch_size
                ltac:(lia) ltac:(lia)) as Hnbr.
  pose proof (ceil_div_bounds (Z.of_nat (length bboxes))
                (ceil_div (Z.of_nat (length bboxes)) tile_batch_size)
                ltac:(lia)) as Hopt.
  repeat (split; [done || lia|]). nia.
Qed.


(** Five tiles in batches of four: two batches, stored batch size
    three. *)
Lemma batch_plan_exact_witness :
  ∃ batched_bboxes,
    batch_bboxes ((fun x => BBox.mk x 0 16 16) <$> [0; 16; 32; 48; 64]) 4
      = Ok (2, 3, batched_bboxes)
    ∧ Z.of_nat (length batched_bboxes) = 2
    ∧ concat batched_bboxes
      = (fun x => BBox.mk x 0 16 16) <$> [0; 16; 32; 48; 64]
    ∧ Forall (fun batch => batch ≠ []) batched_bboxes
    ∧ 1 <= 3 <= 4.
Proof.
  assert (0 < Z.of_nat (length
            ((fun x => BBox.mk x 0 16 16) <$> [0; 16; 32; 48; 64])) < 2 ^ 53)
    as Hn by (change (0 < 5 < 2 ^ 53); lia).
  assert (0 < 4 < 2 ^ 53) as Hk by lia.
  exact (batch_plan_exact _ 4 Hn Hk).
Defined.

(** A canvas of 1232 by 256 pixels with the default tile size. *)
Lemma constructor_succeeds_witness :
  ∃ s,
    TiledDiffusion_init uniform_weights "MultiDiffusion" "Euler a"
      1232 256 1 20 64 64 32 1 false = Ok s
    ∧ Self.w s = 154 ∧ Self.h s = 32
    ∧ Self.tile_w s = Z.min 64 (Self.w s)
    ∧ Self.tile_h s = Z.min 64 (Self.h s)
    ∧ 1 <= Self.num_batches s
    ∧ Z.of_nat (length (Self.batched_bboxes s)) = Self.num_batches s
    ∧ Forall (fun batch => batch ≠ []) (Self.batched_bboxes s)
    ∧ 1 <= Self.tile_batch_size s <= 1.
Proof.
  apply (constructor_succeeds uniform_weights "MultiDiffusion" "Euler a"
           1232 256 1 20 64 64 32 1 false);
    first [lia | vm_compute; reflexivity].
Defined.

(** ** [init], called again *)

Section InitAgain.

Context `{HintOps}.

Import ControlNet.

(** A call of [prepare_control_tensors] that finds no script, or a
    network with parameters, leaves the object in a state in which
    every further call returns at once. *)
Lemma prepare_control_tensors_settles (self : Self.t)
    (latest_network : option (option (list Hint))) (c c1 : ControlNet.t)
    (r : result unit) :
  prepare_control_tensors self latest_network c = (c1, r) →
  controlnet_script c = false ∨ (∃ hints, latest_network = Some (Some hints)) →
  is_Some (control_tensor_batch c1) ∨ controlnet_script c1 = false
    ∨ is_Some (control_params c1).
Proof.
  unfold prepare_control_tensors. intros Hrun Hnet.
  destruct (bool_decide (is_Some (control_tensor_batch c))) eqn:Eb.
  { apply bool_decide_eq_true in Eb. injection Hrun as <- <-. by left. }
  destruct (controlnet_script c) eqn:Es; cbn [negb orb] in Hrun;
    [|injection Hrun as <- <-; by right; left].
  destruct (bool_decide (is_Some (control_params c))) eqn:Ep.
  { apply bool_decide_eq_true in Ep. injection Hrun as <- <-. by right; right. }
  destruct Hnet as [|[hints ->]]; [done|].
  destruct (_ =? 0).
  - injection Hrun as <- <-. right; right. by eexists.
  - right; right.
    match type of Hrun with
    | prepare_loop ?s ?ts ?c0 = _ =>
        destruct (prepare_loop_frame s ts c0) as (Hp & _)
    end.
    rewrite Hrun in Hp. cbn in Hp. rewrite Hp. by eexists.
Qed.

(** Once [init] has passed, a further call changes no attribute of
    the object that [init] itself writes: the edit-model flag, the
    total of the progress bar, the bar and the shape of the buffer
    stay those of the first call (the buffer is zeroed again),
    whatever the model, the sampler, the number of sampling steps and
    the latent are by then.  What is left of the call is the call of
    [prepare_control_tensors] with the network that the script offers
    by then; it changes nothing and returns when the first call had
    no script or found a network with parameters. *)
Theorem init_again (self self1 : Self.t) (c c1 : ControlNet.t)
    (edit_model : bool) (sampling_steps : Z) (x_in_shape : list Z)
    (latest_network : option (option (list Hint))) :
  TiledDiffusion.init self c edit_model sampling_steps x_in_shape
    latest_network = (self1, c1, Ok tt) →
  ∀ (edit_model' : bool) (sampling_steps' : Z) (x_in_shape' : list Z)
    (latest_network' : option (option (list Hint))),
    TiledDiffusion.init self1 c1 edit_model' sampling_steps' x_in_shape'
      latest_network'
    = (self1,
       fst (prepare_control_tensors self1 latest_network' c1),
       snd (prepare_control_tensors self1 latest_network' c1))
    ∧ (controlnet_script c = false
       ∨ (∃ hints, latest_network = Some (Some hints)) →
       TiledDiffusion.init self1 c1 edit_model' sampling_steps' x_in_shape'
         latest_network' = (self1, c1, Ok tt)).
Proof.
  intros Hfirst edit_model' sampling_steps' x_in_shape' latest_network'.
  assert (Hprep : ∃ self0,
    self1 = self0
    ∧ prepare_control_tensors self0 latest_network c = (c1, Ok tt)
    ∧ TiledDiffusion.init self0 c1 edit_model' sampling_steps' x_in_shape'
        latest_network'
      = (self0,
         fst (prepare_control_tensors self0 latest_network' c1),
         snd (prepare_control_tensors self0 latest_network' c1))).
  { destruct self as [kd me bs st cl w h tw th bb xb cb db pb sc il ks wt nb
      tb em tot].
    unfold TiledDiffusion.init, init in Hfirst |- *.
    destruct kd, em as [em|], pb as [pb|], xb as [xb|];
      cbn -[prepare_control_tensors] in Hfirst;
      try (destruct (0 <? _); cbn -[prepare_control_tensors] in Hfirst;
           [|discriminate]);
      match type of Hfirst with
      | context [prepare_control_tensors ?s ?n ?c0] =>
          destruct (prepare_control_tensors s n c0) as [c' r'] eqn:E
      end;
      injection Hfirst as <- <- ->;
      (eexists; split; [reflexivity|]; split; [exact E|]);
      cbn -[prepare_control_tensors];
      match goal with
      | |- context [prepare_control_tensors ?s ?n ?c0] =>
          destruct (prepare_control_tensors s n c0) as [c2 r2]
      end;
      reflexivity. }
  destruct Hprep as (self0 & -> & Hp & Hsecond).
  split; [exact Hsecond|].
  intros Hnet. rewrite Hsecond.
  rewrite (prepare_control_tensors_skips self0 latest_network' c1); [done|].
  by eapply prepare_control_tensors_settles.
Qed.

End InitAgain.

(** The example object with a script attached: the first call finds
    a network with one hint and caches its crops; the second call, for
    another latent, another model and another network, changes
    nothing. *)
Lemma init_again_witness :
  ∃ self1 c1,
    TiledDiffusion.init example_self (ControlNet.fresh true false) false 20
      [1; 4; 8; 8] (Some (Some [[1; 2]])) = (self1, c1, Ok tt)
    ∧ ControlNet.control_params c1 = Some [[1; 2]]
    ∧ TiledDiffusion.init self1 c1 true 30 [2; 4; 8; 8] (Some (Some [[3]]))
      = (self1, c1, Ok tt).
Proof.
  eexists _, _. split; [vm_compute; reflexivity|].
  split; [reflexivity|].
  refine (proj2 (init_again example_self _ (ControlNet.fresh true false) _
    false 20 [1; 4; 8; 8] (Some (Some [[1; 2]])) _ true 30 [2; 4; 8; 8]
    (Some (Some [[3]]))) _).
  - vm_compute. reflexivity.
  - right. by eexists.
Defined.
